(** * SRE stats extension: the aggregation core

    A shallow embedding of the pure aggregation functions of the renderer
    pages (nodes, pods, events, overview and the combined SRE stats page),
    followed by the properties stated about them.

    Conventions of the embedding:
    - a JavaScript [number] that holds a count is an integer of [Z];
      the two places that divide (the heat map ratio and the health score)
      are computed over the rationals [Q], and [Math.round] is
      [floor (x + 1/2)];
    - a JavaScript [Map] keeps its keys in insertion order and [set] on a
      present key keeps the key's position: it is an association list
      ([JsMap]); a [Set] of strings is a duplicate-free list in insertion
      order ([JsSet]);
    - [Array.prototype.sort] is stable; it is modelled by a stable
      insertion sort driven by the comparator ([Array_sort]);
    - host objects (nodes, pods, events) are records whose fields carry
      the names of the accessor methods the pages call. *)

From Stdlib Require Import List String ZArith QArith Qround Lia Bool.
From Stdlib Require Import Permutation Sorted.
From Stdlib Require Import Lqa Ascii DecimalString.
Import ListNotations.

Local Open Scope string_scope.
Local Open Scope Z_scope.

(** ** JavaScript helpers *)

(** [x ?? d]: the default replaces only [undefined]/[null]. *)
Definition nullish {A : Type} (x : option A) (d : A) : A :=
  match x with
  | Some v => v
  | None => d
  end.

(** [x || d] on an optional string: the empty string is falsy too. *)
Definition falsyOr (x : option string) (d : string) : string :=
  match x with
  | Some v => if String.eqb v "" then d else v
  | None => d
  end.

(** Insertion-ordered [Map<string, V>]. *)
Module JsMap.
Section Defs.
Context {V : Type}.

Definition t := list (string * V).

Definition empty : t := [].

Fixpoint get (m : t) (k : string) : option V :=
  match m with
  | [] => None
  | (k', v) :: m' => if String.eqb k' k then Some v else get m' k
  end.

Fixpoint set (m : t) (k : string) (v : V) : t :=
  match m with
  | [] => [(k, v)]
  | (k', v') :: m' =>
      if String.eqb k' k then (k', v) :: m' else (k', v') :: set m' k v
  end.

Definition entries (m : t) : list (string * V) := m.
Definition keys (m : t) : list string := map fst m.
Definition values (m : t) : list V := map snd m.
End Defs.
Arguments t : clear implicits.
End JsMap.

(** Insertion-ordered [Set<string>]. *)
Module JsSet.
Definition t := list string.

Definition empty : t := [].

Definition has (s : t) (x : string) : bool := existsb (String.eqb x) s.

Definition add (s : t) (x : string) : t := if has s x then s else (s ++ [x])%list.

Definition size (s : t) : Z := Z.of_nat (List.length s).

Definition toArray (s : t) : list string := s.
End JsSet.

(** Stable sort by a comparator: [compareFn a b <= 0] keeps [a] before [b]. *)
Section ArraySort.
Context {A : Type} (compareFn : A -> A -> Z).

Fixpoint insertSorted (x : A) (l : list A) : list A :=
  match l with
  | [] => [x]
  | y :: l' =>
      if compareFn x y <=? 0 then x :: y :: l' else y :: insertSorted x l'
  end.

Definition Array_sort (l : list A) : list A := fold_right insertSorted [] l.
End ArraySort.

(** [a || b] on numbers, as used to chain comparators. *)
Definition orNumber (a b : Z) : Z := if a =? 0 then b else a.

Definition Math_round (x : Q) : Z := Qfloor (x + (1 # 2)).

Definition sumZ (l : list Z) : Z := fold_right Z.add 0 l.

(** ** Host objects *)

Record NodeCondition := {
  cond_type : string;
  cond_status : string
}.

Record NodeTaint := {
  taint_key : string;
  taint_value : option string;
  taint_effect : string
}.

Module Node.
Record t := {
  getName : string;
  isUnschedulable : bool;
  getConditions : list NodeCondition;
  getTaints : list NodeTaint;
  getWarningConditions : list NodeCondition
}.
End Node.

Module Pod.
Record t := {
  getNs : option string;
  getStatusPhase : option string;
  hasIssues : bool;
  getRestartsCount : Z
}.
End Pod.

Record ObjectReference := {
  obj_name : string;
  obj_namespace : option string
}.

Module KubeEvent.
Record t := {
  isWarning : bool;
  type : option string;
  reason : option string;
  count : option Z;
  getNs : option string;
  involvedObject : ObjectReference
}.
End KubeEvent.

(** ** Node status (nodes page, SRE stats page) *)

Inductive NodeStatus := Ready | NotReady | SchedulingDisabled | Unknown.

Definition isReadyCondition (c : NodeCondition) : bool :=
  String.eqb (cond_type c) "Ready".

Definition getNodeStatus (node : Node.t) : NodeStatus :=
  if Node.isUnschedulable node then SchedulingDisabled
  else
    match find isReadyCondition (Node.getConditions node) with
    | None => Unknown
    | Some readyCondition =>
        if String.eqb (cond_status readyCondition) "True" then Ready
        else NotReady
    end.

(** ** Taint summary (nodes page, SRE stats page) *)

Module TaintSummaryItem.
Record t := {
  taint : string;
  nodes : Z;
  occurrences : Z
}.
End TaintSummaryItem.

Record TaintData := {
  td_nodes : JsSet.t;
  td_occurrences : Z
}.

Section TaintSummary.
(** The label formatter belongs to the host's object library. *)
Variable formatNodeTaint : NodeTaint -> string.

Definition taintStep (node : Node.t) (taintSummary : JsMap.t TaintData)
    (taint : NodeTaint) : JsMap.t TaintData :=
  let taintLabel := formatNodeTaint taint in
  let entry :=
    nullish (JsMap.get taintSummary taintLabel)
            {| td_nodes := JsSet.empty; td_occurrences := 0 |} in
  let entry :=
    {| td_nodes := JsSet.add (td_nodes entry) (Node.getName node);
       td_occurrences := td_occurrences entry + 1 |} in
  JsMap.set taintSummary taintLabel entry.

Definition taintNodeStep (taintSummary : JsMap.t TaintData) (node : Node.t)
    : JsMap.t TaintData :=
  fold_left (taintStep node) (Node.getTaints node) taintSummary.

Definition taintItem (e : string * TaintData) : TaintSummaryItem.t :=
  {| TaintSummaryItem.taint := fst e;
     TaintSummaryItem.nodes := JsSet.size (td_nodes (snd e));
     TaintSummaryItem.occurrences := td_occurrences (snd e) |}.

Definition buildTaintSummary (nodes : list Node.t)
    : list TaintSummaryItem.t :=
  let taintSummary := fold_left taintNodeStep nodes JsMap.empty in
  Array_sort
    (fun a b => TaintSummaryItem.occurrences b - TaintSummaryItem.occurrences a)
    (map taintItem (JsMap.entries taintSummary)).
End TaintSummary.

(** The host's formatter, for the worked scenarios. *)
Definition formatNodeTaint_host (taint : NodeTaint) : string :=
  match taint_value taint with
  | Some v =>
      if String.eqb v "" then taint_key taint ++ ":" ++ taint_effect taint
      else taint_key taint ++ "=" ++ v ++ ":" ++ taint_effect taint
  | None => taint_key taint ++ ":" ++ taint_effect taint
  end.

(** ** Pod phase (pods page, SRE stats page) *)

Inductive PodPhase :=
  Running | Pending | Failed | Succeeded | PhaseUnknown.

Definition getPodPhase (pod : Pod.t) : PodPhase :=
  match Pod.getStatusPhase pod with
  | Some phase =>
      if String.eqb phase "Running" then Running
      else if String.eqb phase "Pending" then Pending
      else if String.eqb phase "Failed" then Failed
      else if String.eqb phase "Succeeded" then Succeeded
      else PhaseUnknown
  | None => PhaseUnknown
  end.

(** ** Warning events by namespace (pods page, SRE stats page) *)

Definition warningNsStep (warnings : JsMap.t Z) (event : KubeEvent.t)
    : JsMap.t Z :=
  if negb (KubeEvent.isWarning event) then warnings
  else
    let namespace :=
      nullish (KubeEvent.getNs event)
        (nullish (obj_namespace (KubeEvent.involvedObject event)) "<cluster>") in
    let count := nullish (KubeEvent.count event) 1 in
    JsMap.set warnings namespace (nullish (JsMap.get warnings namespace) 0 + count).

Definition buildWarningEventsByNamespace (events : list KubeEvent.t)
    : JsMap.t Z :=
  fold_left warningNsStep events JsMap.empty.

(** ** Namespace pod statistics (pods page, SRE stats page) *)

Record NamespacePodStats := {
  namespace : string;
  running : Z;
  pending : Z;
  failed : Z;
  succeeded : Z;
  unknown : Z;
  issues : Z;
  restarts : Z;
  warningEvents : Z;
  issueScore : Z;
  total : Z
}.

Definition newStats (ns : string) (warningEventsByNamespace : JsMap.t Z)
    : NamespacePodStats :=
  {| namespace := ns;
     running := 0; pending := 0; failed := 0; succeeded := 0; unknown := 0;
     issues := 0; restarts := 0;
     warningEvents := nullish (JsMap.get warningEventsByNamespace ns) 0;
     issueScore := 0;
     total := 0 |}.

Definition countPod (pod : Pod.t) (entry : NamespacePodStats)
    : NamespacePodStats :=
  let phase := getPodPhase pod in
  {| namespace := namespace entry;
     running := match phase with Running => running entry + 1 | _ => running entry end;
     pending := match phase with Pending => pending entry + 1 | _ => pending entry end;
     failed := match phase with Failed => failed entry + 1 | _ => failed entry end;
     succeeded :=
       match phase with Succeeded => succeeded entry + 1 | _ => succeeded entry end;
     unknown :=
       match phase with PhaseUnknown => unknown entry + 1 | _ => unknown entry end;
     issues := if Pod.hasIssues pod then issues entry + 1 else issues entry;
     restarts := restarts entry + Pod.getRestartsCount pod;
     warningEvents := warningEvents entry;
     issueScore := issueScore entry;
     total := total entry + 1 |}.

Definition podStatsStep (warningEventsByNamespace : JsMap.t Z)
    (stats : JsMap.t NamespacePodStats) (pod : Pod.t)
    : JsMap.t NamespacePodStats :=
  let ns := nullish (Pod.getNs pod) "<unknown>" in
  let entry :=
    nullish (JsMap.get stats ns) (newStats ns warningEventsByNamespace) in
  JsMap.set stats ns (countPod pod entry).

Definition scoreEntry (warningEventsByNamespace : JsMap.t Z)
    (entry : NamespacePodStats) : NamespacePodStats :=
  let w := nullish (JsMap.get warningEventsByNamespace (namespace entry)) 0 in
  {| namespace := namespace entry;
     running := running entry; pending := pending entry;
     failed := failed entry; succeeded := succeeded entry;
     unknown := unknown entry;
     issues := issues entry; restarts := restarts entry;
     warningEvents := w;
     issueScore := issues entry + restarts entry + w;
     total := total entry |}.

Definition compareStats (a b : NamespacePodStats) : Z :=
  orNumber (issues b - issues a) (total b - total a).

Definition buildNamespacePodStats (pods : list Pod.t)
    (warningEventsByNamespace : JsMap.t Z) : list NamespacePodStats :=
  let stats :=
    fold_left (podStatsStep warningEventsByNamespace) pods JsMap.empty in
  let scored := map (scoreEntry warningEventsByNamespace) (JsMap.values stats) in
  Array_sort compareStats scored.

(** ** Heat map buckets (pods page, SRE stats page) *)

Record HeatmapEntry := {
  stats_of : NamespacePodStats;
  intensity : Z
}.

(** [Math.max(0, ...scores)] *)
Definition maxScoreOf (namespaceStats : list NamespacePodStats) : Z :=
  fold_left Z.max (map issueScore namespaceStats) 0.

Definition ratioOf (maxScore : Z) (entry : NamespacePodStats) : Q :=
  if maxScore =? 0 then 0%Q
  else (inject_Z (issueScore entry) / inject_Z maxScore)%Q.

Definition intensityOf (ratio : Q) : Z :=
  if Qle_bool (3 # 4) ratio then 4
  else if Qle_bool (1 # 2) ratio then 3
  else if Qle_bool (1 # 4) ratio then 2
  else if negb (Qle_bool ratio 0) then 1
  else 0.

Definition heatmapEntries (namespaceStats : list NamespacePodStats)
    : list HeatmapEntry :=
  let maxScore := maxScoreOf namespaceStats in
  map (fun entry =>
         let ratio := ratioOf maxScore entry in
         {| stats_of := entry; intensity := intensityOf ratio |})
      namespaceStats.

(** ** Warning reasons (events page) *)

Record ReasonData := {
  rd_count : Z;
  rd_namespaces : JsSet.t;
  rd_resources : list string
}.

Module WarningReasonSummary.
Record t := {
  reason : string;
  count : Z;
  namespaces : list string;
  resources : list string
}.
End WarningReasonSummary.

Definition reasonOf (event : KubeEvent.t) : string :=
  nullish (KubeEvent.reason event) "<unknown>".

Definition countOf (event : KubeEvent.t) : Z :=
  nullish (KubeEvent.count event) 1.

Definition warningReasonStep (reasons : JsMap.t ReasonData)
    (event : KubeEvent.t) : JsMap.t ReasonData :=
  if negb (KubeEvent.isWarning event) then reasons
  else
    let reason := reasonOf event in
    let count := countOf event in
    let ns := falsyOr (obj_namespace (KubeEvent.involvedObject event)) "cluster" in
    let resource := obj_name (KubeEvent.involvedObject event) in
    let entry :=
      nullish (JsMap.get reasons reason)
              {| rd_count := 0; rd_namespaces := JsSet.empty; rd_resources := [] |} in
    let entry :=
      {| rd_count := rd_count entry + count;
         rd_namespaces := JsSet.add (rd_namespaces entry) ns;
         rd_resources :=
           if (List.length (rd_resources entry) <? 10)%nat
           then (rd_resources entry ++ [resource])%list
           else rd_resources entry |} in
    JsMap.set reasons reason entry.

Definition reasonItem (e : string * ReasonData) : WarningReasonSummary.t :=
  {| WarningReasonSummary.reason := fst e;
     WarningReasonSummary.count := rd_count (snd e);
     WarningReasonSummary.namespaces := JsSet.toArray (rd_namespaces (snd e));
     WarningReasonSummary.resources := rd_resources (snd e) |}.

Definition buildWarningReasons (events : list KubeEvent.t)
    : list WarningReasonSummary.t :=
  let reasons := fold_left warningReasonStep events JsMap.empty in
  Array_sort
    (fun a b => WarningReasonSummary.count b - WarningReasonSummary.count a)
    (map reasonItem (JsMap.entries reasons)).

(** ** Event summary (events page, SRE stats page) *)

Record EventSummary := {
  warnings : Z;
  normals : Z;
  others : Z;
  es_total : Z
}.

Record EventCounters := {
  ec_warnings : Z;
  ec_normals : Z;
  ec_others : Z
}.

Definition isNormalType (event : KubeEvent.t) : bool :=
  match KubeEvent.type event with
  | Some t => String.eqb t "Normal"
  | None => false
  end.

Definition eventSummaryStep (acc : EventCounters) (event : KubeEvent.t)
    : EventCounters :=
  let count := countOf event in
  if KubeEvent.isWarning event then
    {| ec_warnings := ec_warnings acc + count;
       ec_normals := ec_normals acc; ec_others := ec_others acc |}
  else if isNormalType event then
    {| ec_warnings := ec_warnings acc;
       ec_normals := ec_normals acc + count; ec_others := ec_others acc |}
  else
    {| ec_warnings := ec_warnings acc;
       ec_normals := ec_normals acc; ec_others := ec_others acc + count |}.

Definition eventSummary (events : list KubeEvent.t) : EventSummary :=
  let acc :=
    fold_left eventSummaryStep events
              {| ec_warnings := 0; ec_normals := 0; ec_others := 0 |} in
  {| warnings := ec_warnings acc;
     normals := ec_normals acc;
     others := ec_others acc;
     es_total := ec_warnings acc + ec_normals acc + ec_others acc |}.

(** ** Cluster summary and health score (overview page) *)

Record PodCounters := {
  pc_runningPods : Z;
  pc_pendingPods : Z;
  pc_failedPods : Z;
  pc_podsWithIssues : Z;
  pc_totalRestarts : Z
}.

Definition phaseIs (pod : Pod.t) (lit : string) : bool :=
  match Pod.getStatusPhase pod with
  | Some phase => String.eqb phase lit
  | None => false
  end.

Definition incrIf (b : bool) (n : Z) : Z := if b then n + 1 else n.

Definition summaryPodStep (acc : PodCounters) (pod : Pod.t) : PodCounters :=
  {| pc_runningPods := incrIf (phaseIs pod "Running") (pc_runningPods acc);
     pc_pendingPods := incrIf (phaseIs pod "Pending") (pc_pendingPods acc);
     pc_failedPods := incrIf (phaseIs pod "Failed") (pc_failedPods acc);
     pc_podsWithIssues := incrIf (Pod.hasIssues pod) (pc_podsWithIssues acc);
     pc_totalRestarts := pc_totalRestarts acc + Pod.getRestartsCount pod |}.

Record NodeCounters := {
  nc_nodesNotReady : Z;
  nc_nodesWithWarnings : Z
}.

(** [readyCondition?.status !== "True"] *)
Definition readyStatusIsNotTrue (node : Node.t) : bool :=
  match find isReadyCondition (Node.getConditions node) with
  | Some readyCondition => negb (String.eqb (cond_status readyCondition) "True")
  | None => true
  end.

Definition summaryNodeStep (acc : NodeCounters) (node : Node.t) : NodeCounters :=
  {| nc_nodesNotReady := incrIf (readyStatusIsNotTrue node) (nc_nodesNotReady acc);
     nc_nodesWithWarnings :=
       incrIf (0 <? List.length (Node.getWarningConditions node))%nat
              (nc_nodesWithWarnings acc) |}.

Record EventTotals := {
  et_warningEvents : Z;
  et_normalEvents : Z
}.

Definition summaryEventStep (acc : EventTotals) (event : KubeEvent.t)
    : EventTotals :=
  let count := countOf event in
  if KubeEvent.isWarning event then
    {| et_warningEvents := et_warningEvents acc + count;
       et_normalEvents := et_normalEvents acc |}
  else if isNormalType event then
    {| et_warningEvents := et_warningEvents acc;
       et_normalEvents := et_normalEvents acc + count |}
  else acc.

Definition healthFormula
    (nodesLength podsLength nodesNotReady podsWithIssues failedPods warningEventCount : Z)
    : Q :=
  (inject_Z (nodesLength - nodesNotReady) / inject_Z nodesLength * inject_Z 40
   + inject_Z (podsLength - podsWithIssues - failedPods)
     / inject_Z (Z.max podsLength 1) * inject_Z 40
   + inject_Z (if warningEventCount =? 0 then 20
               else Z.max 0 (20 - warningEventCount)))%Q.

Record Summary := {
  s_nodes : Z;
  s_namespaces : Z;
  s_totalPods : Z;
  s_runningPods : Z;
  s_pendingPods : Z;
  s_failedPods : Z;
  s_podsWithIssues : Z;
  s_totalRestarts : Z;
  s_totalEvents : Z;
  s_warningEvents : Z;
  s_normalEvents : Z;
  s_nodesNotReady : Z;
  s_nodesWithWarnings : Z;
  clusterHealthScore : Z
}.

Definition lengthZ {A : Type} (l : list A) : Z := Z.of_nat (List.length l).

Definition summary (nodes : list Node.t) (pods : list Pod.t)
    (namespaces : list string) (events : list KubeEvent.t) : Summary :=
  let p :=
    fold_left summaryPodStep pods
      {| pc_runningPods := 0; pc_pendingPods := 0; pc_failedPods := 0;
         pc_podsWithIssues := 0; pc_totalRestarts := 0 |} in
  let n :=
    fold_left summaryNodeStep nodes
      {| nc_nodesNotReady := 0; nc_nodesWithWarnings := 0 |} in
  let e :=
    fold_left summaryEventStep events
      {| et_warningEvents := 0; et_normalEvents := 0 |} in
  let score :=
    if lengthZ nodes >? 0 then
      Math_round
        (healthFormula (lengthZ nodes) (lengthZ pods) (nc_nodesNotReady n)
           (pc_podsWithIssues p) (pc_failedPods p) (et_warningEvents e))
    else 100 in
  {| s_nodes := lengthZ nodes;
     s_namespaces := lengthZ namespaces;
     s_totalPods := lengthZ pods;
     s_runningPods := pc_runningPods p;
     s_pendingPods := pc_pendingPods p;
     s_failedPods := pc_failedPods p;
     s_podsWithIssues := pc_podsWithIssues p;
     s_totalRestarts := pc_totalRestarts p;
     s_totalEvents := lengthZ events;
     s_warningEvents := et_warningEvents e;
     s_normalEvents := et_normalEvents e;
     s_nodesNotReady := nc_nodesNotReady n;
     s_nodesWithWarnings := nc_nodesWithWarnings n;
     clusterHealthScore := score |}.

Inductive HealthStatus := healthy | warning | critical.

Definition getHealthStatus (score : Z) : HealthStatus :=
  if score >=? 80 then healthy
  else if score >=? 50 then warning
  else critical.

(** ** Sample inputs used by the worked scenarios *)

Definition mkNode (name : string) (unsched : bool) (conds : list NodeCondition)
    (taints : list NodeTaint) : Node.t :=
  {| Node.getName := name; Node.isUnschedulable := unsched;
     Node.getConditions := conds; Node.getTaints := taints;
     Node.getWarningConditions := [] |}.

Definition mkPod (ns phase : string) (issue : bool) (restartCount : Z) : Pod.t :=
  {| Pod.getNs := Some ns; Pod.getStatusPhase := Some phase;
     Pod.hasIssues := issue; Pod.getRestartsCount := restartCount |}.

Definition mkWarning (why : string) (n : Z) (ns name : string) : KubeEvent.t :=
  {| KubeEvent.isWarning := true; KubeEvent.type := Some "Warning";
     KubeEvent.reason := Some why; KubeEvent.count := Some n;
     KubeEvent.getNs := Some ns;
     KubeEvent.involvedObject := {| obj_name := name; obj_namespace := Some ns |} |}.

Definition readyTrue : NodeCondition :=
  {| cond_type := "Ready"; cond_status := "True" |}.

Definition readyFalse : NodeCondition :=
  {| cond_type := "Ready"; cond_status := "False" |}.

Definition gpuTaint : NodeTaint :=
  {| taint_key := "dedicated"; taint_value := Some "gpu";
     taint_effect := "NoSchedule" |}.

(** ** The keyed accumulation shared by the aggregators

    Every aggregator walks its input once and, for each selected item,
    replaces the value stored under the item's key by an update of the
    previous value (or of a fresh initial value). *)

Section KeyedFold.
Context {X V : Type}.
Variable sel : X -> bool.
Variable key : X -> string.
Variable init : string -> V.
Variable upd : X -> V -> V.

Definition keyedStep (m : JsMap.t V) (x : X) : JsMap.t V :=
  if sel x then
    JsMap.set m (key x) (upd x (nullish (JsMap.get m (key x)) (init (key x))))
  else m.

Definition selectedFor (k : string) (xs : list X) : list X :=
  filter (fun x => sel x && String.eqb (key x) k) xs.

Definition applyUpdates (xs : list X) (v : V) : V :=
  fold_left (fun v x => upd x v) xs v.
End KeyedFold.

(** Number of elements satisfying a test, as an integer. *)
Definition countZ {A : Type} (f : A -> bool) (l : list A) : Z :=
  lengthZ (filter f l).

(** Insertion-ordered de-duplication: what adding a list to a [Set] leaves. *)
Definition addAll (s : JsSet.t) (xs : list string) : JsSet.t :=
  fold_left JsSet.add xs s.

(** ** Vocabulary of the statements *)

(** [c] is the node's Ready condition: the first one of type "Ready". *)
Definition ReadyConditionIs (node : Node.t) (c : NodeCondition) : Prop :=
  exists before after,
    Node.getConditions node = (before ++ c :: after)%list /\
    cond_type c = "Ready" /\
    Forall (fun d => cond_type d <> "Ready") before.

Definition NoReadyCondition (node : Node.t) : Prop :=
  Forall (fun d => cond_type d <> "Ready") (Node.getConditions node).

(** Total warning count of an event list: the counts (1 when absent) of
    the warning events, summed. *)
Definition warningTotal (events : list KubeEvent.t) : Z :=
  sumZ (map countOf (filter KubeEvent.isWarning events)).

(** The healthy input of the health score: every node's Ready condition has
    status "True", no pod is flagged with issues, no pod is in phase
    "Failed", and the warning events sum to zero. *)
Definition AllHealthy (nodes : list Node.t) (pods : list Pod.t)
    (events : list KubeEvent.t) : Prop :=
  (forall node, In node nodes ->
     exists c, ReadyConditionIs node c /\ cond_status c = "True") /\
  (forall pod, In pod pods -> Pod.hasIssues pod = false) /\
  (forall pod, In pod pods -> Pod.getStatusPhase pod <> Some "Failed") /\
  warningTotal events = 0.

(** The namespace a pod is filed under. *)
Definition podNamespace (pod : Pod.t) : string :=
  nullish (Pod.getNs pod) "<unknown>".

Definition PhasesAddUp (entry : NamespacePodStats) : Prop :=
  running entry + pending entry + failed entry + succeeded entry + unknown entry
  = total entry.

(** The (node, taint) pairs the taint summary visits, in visiting order. *)
Definition taintVisits (nodes : list Node.t) : list (Node.t * NodeTaint) :=
  flat_map (fun node => map (pair node) (Node.getTaints node)) nodes.

Definition recordTaint (visit : Node.t * NodeTaint) (entry : TaintData)
    : TaintData :=
  {| td_nodes := JsSet.add (td_nodes entry) (Node.getName (fst visit));
     td_occurrences := td_occurrences entry + 1 |}.

(** The bucket rule in the words of the specification: [i] is the bucket
    of an entry whose score is [score] when the greatest score is
    [maxScore]. *)
Definition BucketRule (maxScore score i : Z) : Prop :=
  exists ratio : Q,
    (maxScore = 0 -> (ratio == 0)%Q) /\
    (maxScore <> 0 -> (ratio == inject_Z score / inject_Z maxScore)%Q) /\
    (((3 # 4) <= ratio)%Q /\ i = 4 \/
     ((1 # 2) <= ratio /\ ratio < (3 # 4))%Q /\ i = 3 \/
     ((1 # 4) <= ratio /\ ratio < (1 # 2))%Q /\ i = 2 \/
     (0 < ratio /\ ratio < (1 # 4))%Q /\ i = 1 \/
     (ratio <= 0)%Q /\ i = 0).

(** [m] is the greater of 0 and the greatest issue score of the list. *)
Definition IsMaxScore (namespaceStats : list NamespacePodStats) (m : Z) : Prop :=
  0 <= m /\
  Forall (fun entry => issueScore entry <= m) namespaceStats /\
  (m = 0 \/ Exists (fun entry => issueScore entry = m) namespaceStats).

(** What the by-reason summary reads from a warning event. *)
Definition resourceOf (event : KubeEvent.t) : string :=
  obj_name (KubeEvent.involvedObject event).

Definition eventNamespace (event : KubeEvent.t) : string :=
  falsyOr (obj_namespace (KubeEvent.involvedObject event)) "cluster".

(** The warning events whose reason resolves to [r], in input order. *)
Definition warningsFor (r : string) (events : list KubeEvent.t)
    : list KubeEvent.t :=
  filter (fun e => KubeEvent.isWarning e && String.eqb (reasonOf e) r) events.

Definition recordWarning (event : KubeEvent.t) (entry : ReasonData)
    : ReasonData :=
  {| rd_count := rd_count entry + countOf event;
     rd_namespaces := JsSet.add (rd_namespaces entry) (eventNamespace event);
     rd_resources :=
       if (List.length (rd_resources entry) <? 10)%nat
       then (rd_resources entry ++ [resourceOf event])%list
       else rd_resources entry |}.

Definition hasReason (r : string) (item : WarningReasonSummary.t) : bool :=
  String.eqb (WarningReasonSummary.reason item) r.

(** The entry the by-reason summary is expected to hold for [r], given the
    warning events [ms] of that reason. *)
Definition expectedReasonEntry (r : string) (ms : list KubeEvent.t)
    : WarningReasonSummary.t :=
  {| WarningReasonSummary.reason := r;
     WarningReasonSummary.count := sumZ (map countOf ms);
     WarningReasonSummary.namespaces := addAll JsSet.empty (map eventNamespace ms);
     WarningReasonSummary.resources :=
       firstn (Nat.min 10 (List.length ms)) (map resourceOf ms) |}.

(** The pods filed under [ns], in input order, and the entry the
    namespace statistics are expected to hold for them. *)
Definition podsIn (ns : string) (pods : list Pod.t) : list Pod.t :=
  filter (fun pod => String.eqb (podNamespace pod) ns) pods.

Definition inPhase (phase : PodPhase) (pod : Pod.t) : bool :=
  match getPodPhase pod, phase with
  | Running, Running | Pending, Pending | Failed, Failed
  | Succeeded, Succeeded | PhaseUnknown, PhaseUnknown => true
  | _, _ => false
  end.

Definition expectedStats (ns : string) (ps : list Pod.t) (w : JsMap.t Z)
    : NamespacePodStats :=
  {| namespace := ns;
     running := countZ (inPhase Running) ps;
     pending := countZ (inPhase Pending) ps;
     failed := countZ (inPhase Failed) ps;
     succeeded := countZ (inPhase Succeeded) ps;
     unknown := countZ (inPhase PhaseUnknown) ps;
     issues := countZ Pod.hasIssues ps;
     restarts := sumZ (map Pod.getRestartsCount ps);
     warningEvents := nullish (JsMap.get w ns) 0;
     issueScore :=
       countZ Pod.hasIssues ps + sumZ (map Pod.getRestartsCount ps)
       + nullish (JsMap.get w ns) 0;
     total := lengthZ ps |}.

(** ** Orders the outputs are sorted by *)

Definition byOccurrencesDesc (a b : TaintSummaryItem.t) : Prop :=
  TaintSummaryItem.occurrences a >= TaintSummaryItem.occurrences b.

Definition byIssuesThenTotalDesc (a b : NamespacePodStats) : Prop :=
  issues a > issues b \/ (issues a = issues b /\ total a >= total b).

(** ** Node status counts (nodes page, SRE stats page) *)

Record NodeStatusCounts := {
  nsc_total : Z;
  nsc_ready : Z;
  nsc_notReady : Z;
  nsc_schedulingDisabled : Z;
  nsc_unknown : Z;
  nsc_warningConditions : Z
}.

Definition nodeStatusStep (acc : NodeStatusCounts) (node : Node.t)
    : NodeStatusCounts :=
  let status := getNodeStatus node in
  {| nsc_total := nsc_total acc;
     nsc_ready := match status with Ready => nsc_ready acc + 1 | _ => nsc_ready acc end;
     nsc_notReady :=
       match status with NotReady => nsc_notReady acc + 1 | _ => nsc_notReady acc end;
     nsc_schedulingDisabled :=
       match status with
       | SchedulingDisabled => nsc_schedulingDisabled acc + 1
       | _ => nsc_schedulingDisabled acc
       end;
     nsc_unknown :=
       match status with Unknown => nsc_unknown acc + 1 | _ => nsc_unknown acc end;
     nsc_warningConditions :=
       nsc_warningConditions acc + lengthZ (Node.getWarningConditions node) |}.

Definition nodeStatusCounts (nodes : list Node.t) : NodeStatusCounts :=
  fold_left nodeStatusStep nodes
    {| nsc_total := lengthZ nodes; nsc_ready := 0; nsc_notReady := 0;
       nsc_schedulingDisabled := 0; nsc_unknown := 0;
       nsc_warningConditions := 0 |}.

Definition statusIs (status : NodeStatus) (node : Node.t) : bool :=
  match getNodeStatus node, status with
  | Ready, Ready | NotReady, NotReady
  | SchedulingDisabled, SchedulingDisabled | Unknown, Unknown => true
  | _, _ => false
  end.

(** ** Views derived from the namespace statistics (pods page, SRE stats page) *)

Definition hasScore (entry : NamespacePodStats) : bool := issueScore entry >? 0.

(** [filter(score > 0).sort(by score desc).slice(0, limit)]; the pods page
    takes 10, the SRE stats page 8. *)
Definition topNamespacesUpTo (limit : nat) (namespaceStats : list NamespacePodStats)
    : list NamespacePodStats :=
  firstn limit
    (Array_sort (fun a b => issueScore b - issueScore a)
                (filter hasScore namespaceStats)).

Definition topNamespaces (namespaceStats : list NamespacePodStats)
    : list NamespacePodStats :=
  topNamespacesUpTo 10 namespaceStats.

Definition topNamespaces_sre (namespaceStats : list NamespacePodStats)
    : list NamespacePodStats :=
  topNamespacesUpTo 8 namespaceStats.

Definition filteredNamespaceStats (showOnlyIssues : bool)
    (namespaceStats : list NamespacePodStats) : list NamespacePodStats :=
  if negb showOnlyIssues then namespaceStats
  else filter hasScore namespaceStats.

Definition filteredHeatmapEntries (showOnlyIssues : bool)
    (entries : list HeatmapEntry) : list HeatmapEntry :=
  if negb showOnlyIssues then entries
  else filter (fun entry => hasScore (stats_of entry)) entries.

Definition byScoreDesc (a b : NamespacePodStats) : Prop :=
  issueScore a >= issueScore b.

(** The namespace the by-namespace warning map files an event under, and
    the warning events filed under [ns], in input order. *)
Definition warningNamespace (event : KubeEvent.t) : string :=
  nullish (KubeEvent.getNs event)
    (nullish (obj_namespace (KubeEvent.involvedObject event)) "<cluster>").

Definition warningsIn (ns : string) (events : list KubeEvent.t)
    : list KubeEvent.t :=
  filter (fun e => KubeEvent.isWarning e && String.eqb (warningNamespace e) ns)
         events.

(** The visits of the taint summary that carry the label [label]. *)
Definition visitsOf (formatNodeTaint : NodeTaint -> string) (label : string)
    (nodes : list Node.t) : list (Node.t * NodeTaint) :=
  filter (fun visit => String.eqb (formatNodeTaint (snd visit)) label)
         (taintVisits nodes).

(** A list with its later duplicates removed: the order of first
    occurrence. *)
Fixpoint firstOccurrences (xs : list string) : list string :=
  match xs with
  | [] => []
  | x :: rest =>
      x :: filter (fun y => negb (String.eqb y x)) (firstOccurrences rest)
  end.

(** ** Warning reasons, count only (SRE stats page) *)

Record ReasonCount := {
  rc_reason : string;
  rc_count : Z
}.

Definition warningReasonStep_sre (reasons : JsMap.t Z) (event : KubeEvent.t)
    : JsMap.t Z :=
  if negb (KubeEvent.isWarning event) then reasons
  else
    let reason := reasonOf event in
    let count := countOf event in
    JsMap.set reasons reason (nullish (JsMap.get reasons reason) 0 + count).

Definition reasonCountItem (e : string * Z) : ReasonCount :=
  {| rc_reason := fst e; rc_count := snd e |}.

Definition buildWarningReasons_sre (events : list KubeEvent.t)
    : list ReasonCount :=
  let reasons := fold_left warningReasonStep_sre events JsMap.empty in
  Array_sort (fun a b => rc_count b - rc_count a)
             (map reasonCountItem (JsMap.entries reasons)).

(** ** Events page: time filter, filtered events, events per namespace *)

Inductive TimeFilter := last1h | last6h | last24h | last7d | allTime.

Definition MAX_SAFE_INTEGER : Z := 9007199254740991.

Definition getTimeFilterMs (timeFilter : TimeFilter) : Z :=
  match timeFilter with
  | last1h => 3600000
  | last6h => 21600000
  | last24h => 86400000
  | last7d => 604800000
  | allTime => MAX_SAFE_INTEGER
  end.

(** A string that is present and not empty. *)
Definition truthy (x : option string) : option string :=
  match x with
  | Some v => if String.eqb v "" then None else Some v
  | None => None
  end.

Record NsEventData := {
  ne_warnings : Z;
  ne_total : Z
}.

Record NamespaceEventCount := {
  nec_namespace : string;
  nec_warnings : Z;
  nec_total : Z
}.

Definition namespaceEventStep (counts : JsMap.t NsEventData)
    (event : KubeEvent.t) : JsMap.t NsEventData :=
  let ns := eventNamespace event in
  let entry :=
    nullish (JsMap.get counts ns) {| ne_warnings := 0; ne_total := 0 |} in
  let count := countOf event in
  let entry :=
    {| ne_warnings :=
         if KubeEvent.isWarning event then ne_warnings entry + count
         else ne_warnings entry;
       ne_total := ne_total entry + count |} in
  JsMap.set counts ns entry.

Definition namespaceEventItem (e : string * NsEventData) : NamespaceEventCount :=
  {| nec_namespace := fst e;
     nec_warnings := ne_warnings (snd e);
     nec_total := ne_total (snd e) |}.

Definition namespaceEventCounts (filteredEvents : list KubeEvent.t)
    : list NamespaceEventCount :=
  let counts := fold_left namespaceEventStep filteredEvents JsMap.empty in
  firstn 10
    (Array_sort (fun a b => nec_warnings b - nec_warnings a)
                (map namespaceEventItem (JsMap.entries counts))).

Definition eventsIn (ns : string) (events : list KubeEvent.t) : list KubeEvent.t :=
  filter (fun e => String.eqb (eventNamespace e) ns) events.

Definition byWarningsDesc (a b : NamespaceEventCount) : Prop :=
  nec_warnings a >= nec_warnings b.

Definition timeFilterLe (a b : TimeFilter) : Prop :=
  getTimeFilterMs a <= getTimeFilterMs b.

Section EventsPage.
(** Accessors of the host's event object and the date parser ([None] for
    a date that does not parse, where [getTime()] is NaN). *)
Variable lastTimestamp : KubeEvent.t -> option string.
Variable firstTimestamp : KubeEvent.t -> option string.
Variable Date_getTime : string -> option Z.

Definition keptByFilter (now : Z) (timeFilter : TimeFilter)
    (showOnlyWarnings : bool) (event : KubeEvent.t) : bool :=
  let maxAge := getTimeFilterMs timeFilter in
  let timestamp :=
    match truthy (lastTimestamp event) with
    | Some t => Some t
    | None => truthy (firstTimestamp event)
    end in
  let tooOld :=
    match timestamp with
    | Some t =>
        match Date_getTime t with
        | Some eventTime => now - eventTime >? maxAge
        | None => false
        end
    | None => false
    end in
  if tooOld then false
  else if showOnlyWarnings && negb (KubeEvent.isWarning event) then false
  else true.

Definition filteredEvents (now : Z) (timeFilter : TimeFilter)
    (showOnlyWarnings : bool) (events : list KubeEvent.t) : list KubeEvent.t :=
  filter (keptByFilter now timeFilter showOnlyWarnings) events.
End EventsPage.

(** ** Short taint labels (nodes page) *)

Fixpoint stripPrefix (prefix s : string) : option string :=
  match prefix with
  | EmptyString => Some s
  | String c prefix' =>
      match s with
      | String d s' => if Ascii.eqb c d then stripPrefix prefix' s' else None
      | EmptyString => None
      end
  end.

Fixpoint hasColon (s : string) : bool :=
  match s with
  | EmptyString => false
  | String c s' => if Ascii.eqb c ":"%char then true else hasColon s'
  end.

(** The longest colon-free start of [s], and what follows it. *)
Fixpoint beforeColon (s : string) : string :=
  match s with
  | EmptyString => EmptyString
  | String c s' => if Ascii.eqb c ":"%char then EmptyString else String c (beforeColon s')
  end.

Fixpoint fromColon (s : string) : string :=
  match s with
  | EmptyString => EmptyString
  | String c s' => if Ascii.eqb c ":"%char then s else fromColon s'
  end.

(** [taintStr.match(/^intent=([^:]+):NoSchedule$/)]: the captured group when
    the string matches. The group cannot hold a colon, so it is the whole
    colon-free run after the prefix, and must be followed by exactly
    [:NoSchedule]. *)
Definition matchIntentNoSchedule (taintStr : string) : option string :=
  match stripPrefix "intent=" taintStr with
  | Some rest =>
      if negb (String.eqb (beforeColon rest) "")
         && String.eqb (fromColon rest) ":NoSchedule"
      then Some (beforeColon rest)
      else None
  | None => None
  end.

Definition formatTaintShort (taintStr : string) : string :=
  match matchIntentNoSchedule taintStr with
  | Some group => group
  | None => taintStr
  end.

(** ** Expanding and collapsing rows (events, pods and nodes pages) *)

Definition JsSet_delete (s : JsSet.t) (x : string) : JsSet.t :=
  filter (fun y => negb (String.eqb y x)) s.

Definition toggleExpanded (expanded : JsSet.t) (key : string) : JsSet.t :=
  let newExpanded := expanded in
  if JsSet.has newExpanded key then JsSet_delete newExpanded key
  else JsSet.add newExpanded key.

(** ** Restart reasons of a pod (pods page) *)

Record StateTerminated := {
  st_reason : option string;
  st_exitCode : Z
}.

Record StateWaiting := {
  sw_reason : option string;
  sw_message : option string
}.

Record ContainerState := {
  cs_waiting : option StateWaiting;
  cs_terminated : option StateTerminated;
  cs_running : bool
}.

Module ContainerStatus.
Record t := {
  name : string;
  ready : bool;
  restartCount : Z;
  state : option ContainerState;
  lastState : option ContainerState
}.
End ContainerStatus.

Record RestartInfo := {
  ri_reasons : JsMap.t Z;
  ri_total : Z
}.

(** [status.lastState?.terminated] *)
Definition lastTerminated (status : ContainerStatus.t) : option StateTerminated :=
  match ContainerStatus.lastState status with
  | Some st => cs_terminated st
  | None => None
  end.

Definition restartInfoStep (acc : RestartInfo) (status : ContainerStatus.t)
    : RestartInfo :=
  let total := ri_total acc + ContainerStatus.restartCount status in
  let reasons :=
    match lastTerminated status with
    | Some terminated =>
        if ContainerStatus.restartCount status >? 0 then
          let reason := falsyOr (st_reason terminated) "Unknown" in
          JsMap.set (ri_reasons acc) reason
                    (nullish (JsMap.get (ri_reasons acc) reason) 0 + 1)
        else ri_reasons acc
    | None => ri_reasons acc
    end in
  {| ri_reasons := reasons; ri_total := total |}.

(** Restarted at least once after a recorded termination. *)
Definition restartedAfterTermination (status : ContainerStatus.t) : bool :=
  (ContainerStatus.restartCount status >? 0)
  && match lastTerminated status with Some _ => true | None => false end.

Definition lastReason (status : ContainerStatus.t) : string :=
  match lastTerminated status with
  | Some terminated => falsyOr (st_reason terminated) "Unknown"
  | None => "Unknown"
  end.

Section PodDetails.
(** Accessor of the host's pod object. *)
Variable getContainerStatuses : Pod.t -> list ContainerStatus.t.

Definition getRestartInfo (pod : Pod.t) : RestartInfo :=
  fold_left restartInfoStep (getContainerStatuses pod)
            {| ri_reasons := JsMap.empty; ri_total := 0 |}.
End PodDetails.

(** ** Recent warning events (overview page) *)

Section RecentWarnings.
Variable lastTimestamp : KubeEvent.t -> option string.
Variable Date_getTime : string -> option Z.

(** [a.lastTimestamp ? new Date(a.lastTimestamp).getTime() : 0], [None]
    standing for NaN. *)
Definition eventTime (event : KubeEvent.t) : option Z :=
  match truthy (lastTimestamp event) with
  | Some t => Date_getTime t
  | None => Some 0
  end.

(** [timeB - timeA]; a NaN result counts as 0 for the sort. *)
Definition compareRecent (a b : KubeEvent.t) : Z :=
  match eventTime b, eventTime a with
  | Some timeB, Some timeA => timeB - timeA
  | _, _ => 0
  end.

Definition recentWarningEvents (events : list KubeEvent.t) : list KubeEvent.t :=
  firstn 10 (Array_sort compareRecent (filter KubeEvent.isWarning events)).

Definition timeOf (event : KubeEvent.t) : Z := nullish (eventTime event) 0.

Definition newerFirst (a b : KubeEvent.t) : Prop := timeOf a >= timeOf b.
End RecentWarnings.

(** ** Node issues and the displayed nodes (nodes page) *)

Definition isActiveCondition (condition : NodeCondition) : bool :=
  negb (String.eqb (cond_type condition) "Ready")
  && String.eqb (cond_status condition) "True".

Section NodeIssues.
(** Accessor of the host's condition object. *)
Variable conditionMessage : NodeCondition -> option string.

Definition conditionIssueStep (issues : list string) (condition : NodeCondition)
    : list string :=
  if isActiveCondition condition then
    (issues ++ [(cond_type condition ++ ": "
                 ++ falsyOr (conditionMessage condition) "Active")%string])%list
  else issues.

Definition warningIssueStep (issues : list string) (condition : NodeCondition)
    : list string :=
  if negb (existsb (fun i => String.prefix (cond_type condition) i) issues) then
    (issues ++ [(cond_type condition ++ ": "
                 ++ falsyOr (conditionMessage condition) "Warning")%string])%list
  else issues.

Definition getNodeIssues (node : Node.t) : list string :=
  let status := getNodeStatus node in
  let issues : list string := [] in
  let issues :=
    match status with
    | NotReady => (issues ++ ["Node is not ready"])%list
    | _ => issues
    end in
  let issues :=
    match status with
    | SchedulingDisabled => (issues ++ ["Scheduling is disabled"])%list
    | _ => issues
    end in
  let issues := fold_left conditionIssueStep (Node.getConditions node) issues in
  fold_left warningIssueStep (Node.getWarningConditions node) issues.

(** [status !== "Ready" || issues.length > 0] *)
Definition isProblemNode (node : Node.t) : bool :=
  negb (statusIs Ready node) || (0 <? List.length (getNodeIssues node))%nat.

Definition displayedNodes (showOnlyProblems : bool) (sortedNodes : list Node.t)
    : list Node.t :=
  if negb showOnlyProblems then sortedNodes
  else filter isProblemNode sortedNodes.
End NodeIssues.

(** ** Pod details of an expanded namespace row (pods page) *)

Record PodCondition := {
  pcond_type : string;
  pcond_status : string;
  pcond_reason : option string;
  pcond_message : option string
}.

Record OwnerReference := {
  owner_kind : string
}.

(** A whole number in a template string. *)
Definition showZ (z : Z) : string := NilZero.string_of_int (Z.to_int z).

(** [status.state?.waiting], [status.state?.terminated], [status.state?.running] *)
Definition stateWaiting (status : ContainerStatus.t) : option StateWaiting :=
  match ContainerStatus.state status with
  | Some st => cs_waiting st
  | None => None
  end.

Definition stateTerminated (status : ContainerStatus.t) : option StateTerminated :=
  match ContainerStatus.state status with
  | Some st => cs_terminated st
  | None => None
  end.

Definition stateRunning (status : ContainerStatus.t) : bool :=
  match ContainerStatus.state status with
  | Some st => cs_running st
  | None => false
  end.

Definition containerIssueStep (isJobPod : bool) (issues : list string)
    (status : ContainerStatus.t) : list string :=
  match stateWaiting status with
  | Some waiting =>
      let reason := falsyOr (sw_reason waiting) "Unknown" in
      let message := sw_message waiting in
      (issues ++
       [(ContainerStatus.name status ++ ": " ++ reason
         ++ match truthy message with
            | Some m => " - " ++ m
            | None => ""
            end)%string])%list
  | None =>
      match stateTerminated status with
      | Some terminated =>
          let reason := falsyOr (st_reason terminated) "Unknown" in
          let exitCode := st_exitCode terminated in
          if negb (exitCode =? 0) then
            (issues ++
             [(ContainerStatus.name status ++ ": " ++ reason
               ++ " (exit: " ++ showZ exitCode ++ ")")%string])%list
          else if isJobPod && (exitCode =? 0) then
            (issues ++
             [(ContainerStatus.name status ++ ": Job completed (exit: "
               ++ showZ exitCode ++ ")")%string])%list
          else issues
      | None =>
          if negb (ContainerStatus.ready status) && stateRunning status then
            (issues ++ [(ContainerStatus.name status ++ ": Not ready")%string])%list
          else issues
      end
  end.

Definition isFlaggedCondition (condition : PodCondition) : bool :=
  negb (String.eqb (pcond_status condition) "True")
  && match truthy (pcond_reason condition) with
     | Some reason => negb (String.eqb reason "PodCompleted")
     | None => false
     end.

Definition podConditionIssueStep (issues : list string) (condition : PodCondition)
    : list string :=
  if isFlaggedCondition condition then
    let message :=
      match truthy (pcond_message condition) with
      | Some m => m
      | None => nullish (pcond_reason condition) ""
      end in
    (issues ++ [(pcond_type condition ++ ": " ++ message)%string])%list
  else issues.

(** The containers that get a line, for a Job pod or any other pod. *)
Definition isFlaggedContainer (isJobPod : bool) (status : ContainerStatus.t)
    : bool :=
  match stateWaiting status with
  | Some _ => true
  | None =>
      match stateTerminated status with
      | Some terminated => negb (st_exitCode terminated =? 0) || isJobPod
      | None => negb (ContainerStatus.ready status) && stateRunning status
      end
  end.

(** [pods.filter((pod) => pod.getNs() === entry.namespace)] *)
Definition namespacePods (pods : list Pod.t) (ns : string) : list Pod.t :=
  filter (fun pod =>
            match Pod.getNs pod with
            | Some n => String.eqb n ns
            | None => false
            end)
         pods.

Section PodIssueDetails.
(** Accessors of the host's pod object. *)
Variable getContainerStatuses : Pod.t -> list ContainerStatus.t.
Variable getPodConditions : Pod.t -> list PodCondition.
Variable getOwnerRefs : Pod.t -> option (list OwnerReference).

(** [pod.getOwnerRefs()?.some((ref) => ref.kind === "Job")], falsy when absent. *)
Definition isJobPodOf (pod : Pod.t) : bool :=
  match getOwnerRefs pod with
  | Some refs => existsb (fun ref => String.eqb (owner_kind ref) "Job") refs
  | None => false
  end.

Definition getIssueDetails (pod : Pod.t) : list string :=
  let issues : list string := [] in
  let containerStatuses := getContainerStatuses pod in
  let isJobPod := isJobPodOf pod in
  let issues := fold_left (containerIssueStep isJobPod) containerStatuses issues in
  fold_left podConditionIssueStep (getPodConditions pod) issues.

(** The pods listed under an expanded row. *)
Definition filteredPods (showOnlyIssues : bool) (namespacePodList : list Pod.t)
    : list Pod.t :=
  if showOnlyIssues then
    filter (fun pod =>
              Pod.hasIssues pod
              || (Pod.getRestartsCount pod >? 0)
              || (0 <? List.length (getIssueDetails pod))%nat)
           namespacePodList
  else namespacePodList.
End PodIssueDetails.

(** ** Ages (overview and events pages) *)

Section Ages.
Variable Date_getTime : string -> option Z.

Definition ageText (now : Z) (timestamp : option string) (suffix : string)
    : string :=
  match truthy timestamp with
  | None => "unknown"
  | Some t =>
      match Date_getTime t with
      | None => "NaNd" ++ suffix
      | Some time =>
          let diffMs := now - time in
          let diffMins := diffMs / 60000 in
          let diffHours := diffMs / 3600000 in
          let diffDays := diffMs / 86400000 in
          if diffMins <? 60 then showZ diffMins ++ "m" ++ suffix
          else if diffHours <? 24 then showZ diffHours ++ "h" ++ suffix
          else showZ diffDays ++ "d" ++ suffix
      end
  end.

(** The overview page's [formatAge]. *)
Definition formatAge (now : Z) (timestamp : option string) : string :=
  ageText now timestamp "".

(** The events page's [formatAge]. *)
Definition formatAge_events (now : Z) (timestamp : option string) : string :=
  ageText now timestamp " ago".
End Ages.

(** A container that ran to completion, for the worked inputs. *)
Definition crashedContainer : ContainerStatus.t :=
  {| ContainerStatus.name := "app"; ContainerStatus.ready := false;
     ContainerStatus.restartCount := 0;
     ContainerStatus.state :=
       Some {| cs_waiting := None;
               cs_terminated := Some {| st_reason := Some "Completed";
                                        st_exitCode := 0 |};
               cs_running := false |};
     ContainerStatus.lastState := None |}.

(** ** Facts about the insertion-ordered map *)

Lemma JsMap_get_set_same {V : Type} (m : JsMap.t V) k v :
  JsMap.get (JsMap.set m k v) k = Some v.
Proof.
  induction m as [|[k' v'] m IH]; simpl.
  - now rewrite String.eqb_refl.
  - destruct (String.eqb k' k) eqn:E; simpl; rewrite E; auto.
Qed.

Lemma JsMap_get_set_other {V : Type} (m : JsMap.t V) k k' v :
  k <> k' -> JsMap.get (JsMap.set m k v) k' = JsMap.get m k'.
Proof.
  intros Hne. induction m as [|[k0 v0] m IH]; simpl.
  - destruct (String.eqb_spec k k'); congruence.
  - destruct (String.eqb_spec k0 k) as [->|Hk]; simpl.
    + destruct (String.eqb_spec k k'); congruence.
    + now rewrite IH.
Qed.

Lemma JsMap_get_None {V : Type} (m : JsMap.t V) k :
  JsMap.get m k = None <-> ~ In k (JsMap.keys m).
Proof.
  induction m as [|[k0 v0] m IH]; simpl.
  - tauto.
  - destruct (String.eqb_spec k0 k) as [->|Hk].
    + split; [discriminate | tauto].
    + rewrite IH. tauto.
Qed.

Lemma JsMap_keys_set {V : Type} (m : JsMap.t V) k v :
  JsMap.keys (JsMap.set m k v) =
  match JsMap.get m k with
  | Some _ => JsMap.keys m
  | None => (JsMap.keys m ++ [k])%list
  end.
Proof.
  induction m as [|[k0 v0] m IH]; simpl; auto.
  destruct (String.eqb_spec k0 k) as [->|Hk]; simpl; auto.
  fold (JsMap.keys (JsMap.set m k v)). rewrite IH.
  destruct (JsMap.get m k); reflexivity.
Qed.

Lemma JsMap_In_keys_set {V : Type} (m : JsMap.t V) k v k' :
  In k' (JsMap.keys (JsMap.set m k v)) <-> k' = k \/ In k' (JsMap.keys m).
Proof.
  rewrite JsMap_keys_set. destruct (JsMap.get m k) eqn:E.
  - split; [tauto|]. intros [->|H]; auto.
    destruct (in_dec string_dec k (JsMap.keys m)) as [i|n]; auto.
    apply JsMap_get_None in n. congruence.
  - rewrite in_app_iff. simpl. intuition.
Qed.

Lemma JsMap_NoDup_keys_set {V : Type} (m : JsMap.t V) k v :
  NoDup (JsMap.keys m) -> NoDup (JsMap.keys (JsMap.set m k v)).
Proof.
  intros H. rewrite JsMap_keys_set. destruct (JsMap.get m k) eqn:E; auto.
  apply JsMap_get_None in E.
  apply NoDup_rev in H. rewrite <- (rev_involutive (_ ++ _)%list).
  apply NoDup_rev. rewrite rev_app_distr. simpl. constructor; auto.
  now rewrite <- in_rev.
Qed.

Lemma JsMap_get_In {V : Type} (m : JsMap.t V) k v :
  JsMap.get m k = Some v -> In (k, v) m.
Proof.
  induction m as [|[k0 v0] m IH]; simpl; [discriminate|].
  destruct (String.eqb_spec k0 k) as [->|Hk]; intros H.
  - left. congruence.
  - right. auto.
Qed.

Lemma JsMap_In_get {V : Type} (m : JsMap.t V) k v :
  NoDup (JsMap.keys m) -> In (k, v) m -> JsMap.get m k = Some v.
Proof.
  induction m as [|[k0 v0] m IH]; simpl; [tauto|].
  intros Hnd [Heq|Hin].
  - inversion Heq; subst. now rewrite String.eqb_refl.
  - inversion Hnd as [|? ? Hnot Hnd']; subst.
    destruct (String.eqb_spec k0 k) as [->|Hk]; auto.
    exfalso. apply Hnot. change k with (fst (k, v)). now apply in_map.
Qed.

Lemma JsMap_Forall_set {V : Type} (Q : string * V -> Prop) (m : JsMap.t V) k v :
  Forall Q m -> Q (k, v) -> Forall Q (JsMap.set m k v).
Proof.
  intros Hm Hq. induction Hm as [|[k0 v0] m H0 Hm IH]; simpl.
  - constructor; auto.
  - destruct (String.eqb_spec k0 k) as [->|Hk]; constructor; auto.
Qed.

Lemma sumZ_cons x l : sumZ (x :: l) = x + sumZ l.
Proof. reflexivity. Qed.

Lemma sumZ_app l1 l2 : sumZ (l1 ++ l2) = sumZ l1 + sumZ l2.
Proof.
  induction l1 as [|x l1 IH]; [reflexivity|].
  rewrite <- app_comm_cons, !sumZ_cons, IH. lia.
Qed.

Lemma sumZ_perm l1 l2 : Permutation l1 l2 -> sumZ l1 = sumZ l2.
Proof.
  induction 1; rewrite ?sumZ_cons; lia.
Qed.

Lemma JsMap_sum_set {V : Type} (f : V -> Z) (m : JsMap.t V) k v :
  sumZ (map f (JsMap.values (JsMap.set m k v))) =
  sumZ (map f (JsMap.values m))
  - match JsMap.get m k with Some old => f old | None => 0 end + f v.
Proof.
  unfold JsMap.values.
  induction m as [|[k0 v0] m IH]; cbn [JsMap.set JsMap.get].
  - cbn. lia.
  - destruct (String.eqb_spec k0 k) as [->|Hk];
      cbn [map snd]; rewrite !sumZ_cons.
    + lia.
    + rewrite IH. lia.
Qed.

Lemma find_by_key {A : Type} (f : A -> string) (l : list A) (x : A) :
  NoDup (map f l) -> In x l ->
  find (fun y => String.eqb (f y) (f x)) l = Some x.
Proof.
  induction l as [|y l IH]; cbn [map find In]; [tauto|].
  intros Hnd [->|Hin].
  - now rewrite String.eqb_refl.
  - inversion Hnd as [|? ? Hnot Hnd']; subst.
    destruct (String.eqb_spec (f y) (f x)) as [E|E]; auto.
    exfalso. apply Hnot. rewrite E. now apply in_map.
Qed.

Lemma find_by_key_none {A : Type} (f : A -> string) (l : list A) (r : string) :
  ~ In r (map f l) -> find (fun y => String.eqb (f y) r) l = None.
Proof.
  induction l as [|y l IH]; cbn [map find In]; [reflexivity|].
  intros H. destruct (String.eqb_spec (f y) r) as [E|E]; [tauto|].
  apply IH. tauto.
Qed.

(** ** Facts about the stable sort *)

Section ArraySortFacts.
Context {A : Type}.
Variable compareFn : A -> A -> Z.

Lemma insertSorted_perm x l :
  Permutation (x :: l) (insertSorted compareFn x l).
Proof.
  induction l as [|y l IH]; simpl; auto.
  destruct (compareFn x y <=? 0); auto.
  rewrite perm_swap. now constructor.
Qed.

Lemma Array_sort_perm l : Permutation l (Array_sort compareFn l).
Proof.
  induction l as [|x l IH]; simpl; auto.
  rewrite <- insertSorted_perm. now constructor.
Qed.

Lemma Array_sort_In x l : In x (Array_sort compareFn l) <-> In x l.
Proof.
  split; apply Permutation_in;
    [symmetry|]; apply Array_sort_perm.
Qed.

Lemma Array_sort_Forall (P : A -> Prop) l :
  Forall P l -> Forall P (Array_sort compareFn l).
Proof.
  rewrite !Forall_forall. intros H x Hx. apply H. now apply Array_sort_In.
Qed.

Variable R : A -> A -> Prop.
Hypothesis compare_le : forall x y, compareFn x y <= 0 -> R x y.
Hypothesis compare_gt : forall x y, compareFn x y > 0 -> R y x.
Hypothesis R_trans : forall x y z, R x y -> R y z -> R x z.

Lemma insertSorted_sorted x l :
  StronglySorted R l -> StronglySorted R (insertSorted compareFn x l).
Proof.
  induction 1 as [|y l Hs IH Hy]; simpl.
  - repeat constructor.
  - destruct (Z.leb_spec (compareFn x y) 0) as [Hle|Hgt].
    + constructor; [now constructor|].
      constructor; [now apply compare_le|].
      rewrite Forall_forall in *. intros z Hz.
      apply R_trans with y; auto.
    + constructor; auto.
      apply Forall_forall. intros z Hz.
      apply (Permutation_in _ (Permutation_sym (insertSorted_perm x l))) in Hz.
      destruct Hz as [<-|Hz].
      * apply compare_gt. lia.
      * rewrite Forall_forall in Hy. auto.
Qed.

Lemma Array_sort_sorted l : StronglySorted R (Array_sort compareFn l).
Proof.
  induction l as [|x l IH]; simpl.
  - constructor.
  - now apply insertSorted_sorted.
Qed.
End ArraySortFacts.

(** ** Facts about the keyed accumulation *)

Section KeyedFoldFacts.
Context {X V : Type}.
Variable sel : X -> bool.
Variable key : X -> string.
Variable init : string -> V.
Variable upd : X -> V -> V.

Lemma keyed_get xs : forall m k,
  JsMap.get (fold_left (keyedStep sel key init upd) xs m) k =
  match selectedFor sel key k xs with
  | [] => JsMap.get m k
  | ms => Some (applyUpdates upd ms (nullish (JsMap.get m k) (init k)))
  end.
Proof.
  induction xs as [|x xs IH]; intros m k; [reflexivity|].
  cbn [fold_left]. rewrite IH. unfold selectedFor. cbn [filter].
  fold (selectedFor sel key k xs). unfold keyedStep.
  destruct (sel x) eqn:Hs; cbn [andb]; [|reflexivity].
  destruct (String.eqb_spec (key x) k) as [<-|Hk].
  - rewrite JsMap_get_set_same. cbn [nullish].
    destruct (selectedFor sel key (key x) xs); reflexivity.
  - rewrite JsMap_get_set_other by assumption. reflexivity.
Qed.

Lemma keyed_NoDup xs : forall m,
  NoDup (JsMap.keys m) -> NoDup (JsMap.keys (fold_left (keyedStep sel key init upd) xs m)).
Proof.
  induction xs as [|x xs IH]; intros m H; [assumption|].
  cbn [fold_left]. apply IH. unfold keyedStep.
  destruct (sel x); auto using JsMap_NoDup_keys_set.
Qed.

Lemma keyed_keys xs : forall m k,
  In k (JsMap.keys (fold_left (keyedStep sel key init upd) xs m)) <->
  In k (JsMap.keys m) \/ exists x, In x xs /\ sel x = true /\ key x = k.
Proof.
  induction xs as [|x xs IH]; intros m k; cbn [fold_left].
  - split; [tauto|]. intros [H|(x & [] & _)]. exact H.
  - rewrite IH. unfold keyedStep.
    destruct (sel x) eqn:Hs.
    + rewrite JsMap_In_keys_set. split.
      * intros [[->|H]|(y & Hy & Hsy & Hk)]; eauto 6 using in_eq, in_cons.
      * intros [H|(y & [<-|Hy] & Hsy & Hk)]; eauto 7.
    + split.
      * intros [H|(y & Hy & Hsy & Hk)]; eauto 6 using in_cons.
      * intros [H|(y & [<-|Hy] & Hsy & Hk)]; eauto 7. congruence.
Qed.

Variable Q : string * V -> Prop.
Hypothesis Q_init : forall x, sel x = true -> Q (key x, init (key x)).
Hypothesis Q_upd :
  forall x v, sel x = true -> Q (key x, v) -> Q (key x, upd x v).

Lemma keyed_Forall xs : forall m,
  Forall Q m -> Forall Q (fold_left (keyedStep sel key init upd) xs m).
Proof.
  induction xs as [|x xs IH]; intros m H; [assumption|].
  cbn [fold_left]. apply IH. unfold keyedStep.
  destruct (sel x) eqn:Hs; auto.
  apply JsMap_Forall_set; auto. apply Q_upd; auto.
  destruct (JsMap.get m (key x)) eqn:E; cbn [nullish]; auto.
  apply JsMap_get_In in E. rewrite Forall_forall in H. auto.
Qed.
End KeyedFoldFacts.

(** ** Node status *)

Lemma find_ready_None node :
  find isReadyCondition (Node.getConditions node) = None <-> NoReadyCondition node.
Proof.
  unfold NoReadyCondition. induction (Node.getConditions node) as [|d l IH]; simpl.
  - split; auto.
  - unfold isReadyCondition at 1.
    destruct (String.eqb_spec (cond_type d) "Ready") as [E|E].
    + split; [discriminate|]. intros H. inversion H; subst. contradiction.
    + rewrite IH. split; intros H.
      * constructor; auto.
      * now inversion H.
Qed.

Lemma find_ready_Some node c :
  find isReadyCondition (Node.getConditions node) = Some c <-> ReadyConditionIs node c.
Proof.
  unfold ReadyConditionIs.
  induction (Node.getConditions node) as [|d l IH]; simpl.
  - split; [discriminate|]. intros (b & a & H & _). now destruct b.
  - unfold isReadyCondition at 1.
    destruct (String.eqb_spec (cond_type d) "Ready") as [E|E].
    + split.
      * intros H. inversion H; subst. exists [], l. auto.
      * intros ([|d' b] & a & H & Hc & Hb); inversion H; subst; auto.
        inversion Hb; subst. contradiction.
    + rewrite IH. split.
      * intros (b & a & -> & Hc & Hb). exists (d :: b), a. auto.
      * intros ([|d' b] & a & H & Hc & Hb); inversion H; subst.
        -- contradiction.
        -- inversion Hb; subst. eauto.
Qed.

(** C5. The node status classifier: an unschedulable node is
    SchedulingDisabled; otherwise a node without a condition of type
    "Ready" is Unknown; otherwise the node is Ready exactly when its Ready
    condition has status "True", and NotReady when it has any other status. *)
Theorem getNodeStatus_rule (node : Node.t) :
  (Node.isUnschedulable node = true -> getNodeStatus node = SchedulingDisabled) /\
  (Node.isUnschedulable node = false -> NoReadyCondition node ->
   getNodeStatus node = Unknown) /\
  (Node.isUnschedulable node = false ->
   forall c, ReadyConditionIs node c ->
     (getNodeStatus node = Ready <-> cond_status c = "True") /\
     (cond_status c <> "True" -> getNodeStatus node = NotReady)).
Proof.
  unfold getNodeStatus. split; [|split].
  - intros ->. reflexivity.
  - intros -> H. apply find_ready_None in H. now rewrite H.
  - intros -> c Hc. apply find_ready_Some in Hc. rewrite Hc.
    destruct (String.eqb_spec (cond_status c) "True") as [E|E].
    + split; [tauto|contradiction].
    + split; [|reflexivity]. split; [discriminate|contradiction].
Qed.

Lemma getNodeStatus_rule_witness :
  getNodeStatus (mkNode "n0" true [readyTrue] []) = SchedulingDisabled /\
  getNodeStatus (mkNode "n1" false [] []) = Unknown /\
  getNodeStatus (mkNode "n2" false [readyTrue] []) = Ready /\
  getNodeStatus (mkNode "n3" false [readyFalse] []) = NotReady.
Proof.
  split; [|split; [|split]].
  - apply (getNodeStatus_rule (mkNode "n0" true [readyTrue] [])). reflexivity.
  - apply (getNodeStatus_rule (mkNode "n1" false [] [])).
    + reflexivity.
    + constructor.
  - apply (getNodeStatus_rule (mkNode "n2" false [readyTrue] [])) with readyTrue.
    + reflexivity.
    + exists [], []. repeat split. constructor.
    + reflexivity.
  - apply (getNodeStatus_rule (mkNode "n3" false [readyFalse] [])) with readyFalse.
    + reflexivity.
    + exists [], []. repeat split. constructor.
    + discriminate.
Defined.

(** ** The counters of the cluster summary *)

Lemma lengthZ_cons {A : Type} (x : A) l : lengthZ (x :: l) = 1 + lengthZ l.
Proof. unfold lengthZ. cbn [List.length]. lia. Qed.

Lemma lengthZ_nonneg {A : Type} (l : list A) : 0 <= lengthZ l.
Proof. unfold lengthZ. lia. Qed.

Lemma countZ_cons {A : Type} (f : A -> bool) x l :
  countZ f (x :: l) = (if f x then 1 else 0) + countZ f l.
Proof.
  unfold countZ. cbn [filter]. destruct (f x); [apply lengthZ_cons|reflexivity].
Qed.

Lemma countZ_app {A : Type} (f : A -> bool) l1 l2 :
  countZ f (l1 ++ l2) = countZ f l1 + countZ f l2.
Proof.
  unfold countZ, lengthZ. rewrite filter_app, length_app. lia.
Qed.

Lemma countZ_bounds {A : Type} (f : A -> bool) l :
  0 <= countZ f l <= lengthZ l.
Proof.
  induction l as [|x l IH]; [cbv; split; discriminate|].
  rewrite countZ_cons, lengthZ_cons. destruct (f x); lia.
Qed.

Lemma countZ_none {A : Type} (f : A -> bool) l :
  (forall x, In x l -> f x = false) -> countZ f l = 0.
Proof.
  induction l as [|x l IH]; intros H; [reflexivity|].
  rewrite countZ_cons, (H x (in_eq _ _)), IH; auto using in_cons.
Qed.

Lemma countZ_both {A : Type} (f g : A -> bool) l :
  (forall x, In x l -> f x && g x = false) ->
  countZ f l + countZ g l <= lengthZ l.
Proof.
  induction l as [|x l IH]; intros H; [cbv; discriminate|].
  rewrite !countZ_cons, lengthZ_cons.
  specialize (IH (fun y Hy => H y (in_cons _ _ _ Hy))).
  pose proof (H x (in_eq _ _)) as Hx.
  destruct (f x), (g x); cbn in Hx; try discriminate; lia.
Qed.

Lemma summary_nodesNotReady l : forall acc,
  nc_nodesNotReady (fold_left summaryNodeStep l acc) =
  nc_nodesNotReady acc + countZ readyStatusIsNotTrue l.
Proof.
  induction l as [|x l IH]; intros acc; cbn [fold_left].
  - unfold countZ, lengthZ. simpl. lia.
  - rewrite IH, countZ_cons. cbn [summaryNodeStep nc_nodesNotReady].
    unfold incrIf. destruct (readyStatusIsNotTrue x); lia.
Qed.

Lemma summary_failedPods l : forall acc,
  pc_failedPods (fold_left summaryPodStep l acc) =
  pc_failedPods acc + countZ (fun pod => phaseIs pod "Failed") l.
Proof.
  induction l as [|x l IH]; intros acc; cbn [fold_left].
  - unfold countZ, lengthZ. simpl. lia.
  - rewrite IH, countZ_cons. cbn [summaryPodStep pc_failedPods].
    unfold incrIf. destruct (phaseIs x "Failed"); lia.
Qed.

Lemma summary_podsWithIssues l : forall acc,
  pc_podsWithIssues (fold_left summaryPodStep l acc) =
  pc_podsWithIssues acc + countZ Pod.hasIssues l.
Proof.
  induction l as [|x l IH]; intros acc; cbn [fold_left].
  - unfold countZ, lengthZ. simpl. lia.
  - rewrite IH, countZ_cons. cbn [summaryPodStep pc_podsWithIssues].
    unfold incrIf. destruct (Pod.hasIssues x); lia.
Qed.

Lemma warningTotal_cons e l :
  warningTotal (e :: l) =
  (if KubeEvent.isWarning e then countOf e else 0) + warningTotal l.
Proof.
  unfold warningTotal. cbn [filter].
  destruct (KubeEvent.isWarning e); reflexivity.
Qed.

Lemma summary_warningEvents l : forall acc,
  et_warningEvents (fold_left summaryEventStep l acc) =
  et_warningEvents acc + warningTotal l.
Proof.
  induction l as [|x l IH]; intros acc; cbn [fold_left].
  - unfold warningTotal. simpl. lia.
  - rewrite IH, warningTotal_cons. unfold summaryEventStep.
    destruct (KubeEvent.isWarning x); cbn [et_warningEvents]; [lia|].
    destruct (isNormalType x); cbn [et_warningEvents]; lia.
Qed.

Lemma clusterHealthScore_eq nodes pods namespaces events :
  clusterHealthScore (summary nodes pods namespaces events) =
  if lengthZ nodes >? 0 then
    Math_round
      (healthFormula (lengthZ nodes) (lengthZ pods)
         (countZ readyStatusIsNotTrue nodes)
         (countZ Pod.hasIssues pods)
         (countZ (fun pod => phaseIs pod "Failed") pods)
         (warningTotal events))
  else 100.
Proof.
  unfold summary. cbn [clusterHealthScore].
  rewrite summary_nodesNotReady, summary_failedPods, summary_podsWithIssues,
    summary_warningEvents.
  reflexivity.
Qed.

(** C3. A schedulable node that has no condition of type "Ready" is
    classified Unknown (and so not NotReady) by the status classifier,
    while the cluster summary counts it among the nodes not ready: with
    the node in the list the counter is one more than without it. *)
Theorem missing_ready_condition_counts_as_not_ready (node : Node.t) :
  Node.isUnschedulable node = false ->
  NoReadyCondition node ->
  getNodeStatus node = Unknown /\
  getNodeStatus node <> NotReady /\
  forall before after pods namespaces events,
    s_nodesNotReady (summary (before ++ node :: after) pods namespaces events) =
    s_nodesNotReady (summary (before ++ after) pods namespaces events) + 1.
Proof.
  intros Hs Hn.
  assert (Hu : getNodeStatus node = Unknown).
  { unfold getNodeStatus. rewrite Hs.
    apply find_ready_None in Hn. now rewrite Hn. }
  split; [exact Hu|]. split; [rewrite Hu; discriminate|].
  intros before after pods namespaces events.
  unfold summary. cbn [s_nodesNotReady].
  rewrite !summary_nodesNotReady, !countZ_app, countZ_cons.
  unfold readyStatusIsNotTrue at 2.
  apply find_ready_None in Hn. rewrite Hn. lia.
Qed.

Lemma missing_ready_condition_witness :
  getNodeStatus (mkNode "n1" false [] []) = Unknown /\
  s_nodesNotReady (summary [mkNode "n1" false [] []] [] [] []) = 1.
Proof.
  destruct (missing_ready_condition_counts_as_not_ready (mkNode "n1" false [] []))
    as (Hu & _ & Hc).
  - reflexivity.
  - constructor.
  - split; [exact Hu|]. exact (Hc [] [] [] [] []).
Defined.

(** ** The health score *)

Lemma inject_Z_nonzero n : n <> 0 -> ~ (inject_Z n == 0)%Q.
Proof. unfold Qeq. simpl. lia. Qed.

Lemma healthFormula_all_good n p :
  0 < n -> 0 < p -> (healthFormula n p 0 0 0 0 == 100)%Q.
Proof.
  intros Hn Hp. unfold healthFormula.
  rewrite !Z.sub_0_r, (Z.max_l p 1) by lia. cbn [Z.eqb].
  field. split; apply inject_Z_nonzero; lia.
Qed.

Lemma healthFormula_no_pods n :
  0 < n -> (healthFormula n 0 0 0 0 0 == 60)%Q.
Proof.
  intros Hn. unfold healthFormula.
  rewrite !Z.sub_0_r. cbn [Z.eqb Z.max Z.compare].
  field. apply inject_Z_nonzero; lia.
Qed.

Lemma unit_ratio_bounds a d :
  0 < d -> - d <= a <= d ->
  (- (1) <= inject_Z a / inject_Z d /\ inject_Z a / inject_Z d <= 1)%Q.
Proof.
  intros Hd Ha.
  assert (Hq : (0 < inject_Z d)%Q) by (unfold Qlt; simpl; lia).
  split.
  - apply Qle_shift_div_l; [exact Hq|]. unfold Qle.
    cbn [Qnum Qden Qmult Qopp inject_Z]. lia.
  - apply Qle_shift_div_r; [exact Hq|]. unfold Qle.
    cbn [Qnum Qden Qmult inject_Z]. lia.
Qed.

Lemma nonneg_ratio a d :
  0 < d -> 0 <= a -> (0 <= inject_Z a / inject_Z d)%Q.
Proof.
  intros Hd Ha. apply Qle_shift_div_l.
  - unfold Qlt; simpl; lia.
  - unfold Qle. simpl. lia.
Qed.

Lemma Math_round_between lo hi x :
  (inject_Z lo <= x)%Q -> (x <= inject_Z hi)%Q -> lo <= Math_round x <= hi.
Proof.
  intros Hlo Hhi. unfold Math_round. split.
  - rewrite <- (Qfloor_Z lo). apply Qfloor_resp_le.
    apply Qle_trans with x; [exact Hlo|].
    rewrite <- (Qplus_0_r x) at 1. apply Qplus_le_r. discriminate.
  - assert (H : Qfloor (x + (1 # 2)) <= Qfloor (inject_Z hi + (1 # 2))).
    { apply Qfloor_resp_le. now apply Qplus_le_l. }
    assert (E : Qfloor (inject_Z hi + (1 # 2)) = hi).
    { apply Z.le_antisymm.
      - apply Z.lt_succ_r. rewrite Zlt_Qlt.
        apply Qle_lt_trans with (inject_Z hi + (1 # 2))%Q;
          [apply Qfloor_le|].
        unfold Z.succ. rewrite inject_Z_plus. apply Qplus_lt_r. reflexivity.
      - rewrite <- (Qfloor_Z hi) at 1. apply Qfloor_resp_le.
        rewrite <- (Qplus_0_r (inject_Z hi)) at 1. apply Qplus_le_r. discriminate. }
    lia.
Qed.

(** The bounds the formula does have: between -40 and 100 whenever the
    warning total is not negative, and not below 0 as long as the pods
    flagged with issues and the failed pods together are at most all pods. *)
Lemma healthFormula_bounds n p k i f w :
  0 < n -> 0 <= k <= n -> 0 <= i <= p -> 0 <= f <= p -> 0 <= w ->
  (inject_Z (-40) <= healthFormula n p k i f w <= inject_Z 100)%Q /\
  (i + f <= p -> (0 <= healthFormula n p k i f w)%Q).
Proof.
  intros Hn Hk Hi Hf Hw. unfold healthFormula.
  set (wt := if w =? 0 then 20 else Z.max 0 (20 - w)).
  assert (Hwt : 0 <= wt <= 20) by (subst wt; destruct (Z.eqb_spec w 0); lia).
  assert (Hq : (0 <= inject_Z wt /\ inject_Z wt <= 20)%Q)
    by (unfold Qle; simpl; lia).
  destruct (unit_ratio_bounds (n - k) n Hn ltac:(lia)) as [_ Hn1].
  pose proof (nonneg_ratio (n - k) n Hn ltac:(lia)) as Hn0.
  destruct (unit_ratio_bounds (p - i - f) (Z.max p 1) ltac:(lia) ltac:(lia))
    as [Hp0 Hp1].
  set (a := (inject_Z (n - k) / inject_Z n)%Q) in *.
  set (b := (inject_Z (p - i - f) / inject_Z (Z.max p 1))%Q) in *.
  assert (H40 : (0 <= inject_Z 40)%Q) by discriminate.
  pose proof (Qmult_le_compat_r _ _ _ Hn1 H40) as A1.
  pose proof (Qmult_le_compat_r _ _ _ Hn0 H40) as A0.
  pose proof (Qmult_le_compat_r _ _ _ Hp1 H40) as B1.
  pose proof (Qmult_le_compat_r _ _ _ Hp0 H40) as B0.
  destruct Hq as [W0 W1].
  split; [split|].
  - setoid_replace (inject_Z (-40)) with (0 * inject_Z 40 + - (1) * inject_Z 40 + 0)%Q
      by reflexivity.
    repeat apply Qplus_le_compat; assumption.
  - setoid_replace (inject_Z 100) with (1 * inject_Z 40 + 1 * inject_Z 40 + 20)%Q
      by reflexivity.
    repeat apply Qplus_le_compat; assumption.
  - intros Hsum.
    pose proof (nonneg_ratio (p - i - f) (Z.max p 1) ltac:(lia) ltac:(lia)) as Hb0.
    fold b in Hb0.
    pose proof (Qmult_le_compat_r _ _ _ Hb0 H40) as B2.
    setoid_replace 0%Q with (0 * inject_Z 40 + 0 * inject_Z 40 + 0)%Q
      by reflexivity.
    repeat apply Qplus_le_compat; assumption.
Qed.

Lemma Math_round_proper x y : (x == y)%Q -> Math_round x = Math_round y.
Proof. intros H. unfold Math_round. now rewrite H. Qed.

Lemma AllHealthy_counts nodes pods events :
  AllHealthy nodes pods events ->
  countZ readyStatusIsNotTrue nodes = 0 /\
  countZ Pod.hasIssues pods = 0 /\
  countZ (fun pod => phaseIs pod "Failed") pods = 0 /\
  warningTotal events = 0.
Proof.
  intros (Hn & Hi & Hf & Hw). repeat split; auto.
  - apply countZ_none. intros node Hin.
    destruct (Hn node Hin) as (c & Hc & Hs).
    apply find_ready_Some in Hc. unfold readyStatusIsNotTrue.
    rewrite Hc, Hs. reflexivity.
  - apply countZ_none. exact Hi.
  - apply countZ_none. intros pod Hin. specialize (Hf pod Hin).
    unfold phaseIs. destruct (Pod.getStatusPhase pod) as [ph|]; auto.
    destruct (String.eqb_spec ph "Failed"); congruence.
Qed.

(** C1 as stated fails on a cluster that has nodes but no pod: all the
    conditions of the claim hold, and the score is 60. *)
Lemma health_score_without_pods_counterexample :
  AllHealthy [mkNode "n1" false [readyTrue] []] [] [] /\
  clusterHealthScore (summary [mkNode "n1" false [readyTrue] []] [] [] []) = 60 /\
  clusterHealthScore (summary [mkNode "n1" false [readyTrue] []] [] [] []) <> 100.
Proof.
  split; [|split; [reflexivity|discriminate]].
  repeat split.
  - intros node [<-|[]]. exists readyTrue. split; [|reflexivity].
    exists [], []. repeat split. constructor.
  - intros pod [].
  - intros pod [].
Qed.

(** C1 (amended). With an empty node list the cluster health score is
    100; and when every node's Ready condition has status "True", the pod
    list is not empty, no pod is flagged with issues, no pod is in phase
    "Failed" and the warning events sum to zero, the score is 100. *)
Theorem health_score_is_100 nodes pods namespaces events :
  (nodes = [] ->
   clusterHealthScore (summary nodes pods namespaces events) = 100) /\
  (AllHealthy nodes pods events -> pods <> [] ->
   clusterHealthScore (summary nodes pods namespaces events) = 100).
Proof.
  split.
  - intros ->. reflexivity.
  - intros H Hp. rewrite clusterHealthScore_eq.
    destruct (AllHealthy_counts _ _ _ H) as (-> & -> & -> & ->).
    destruct (Z.gtb_spec (lengthZ nodes) 0) as [Hn|Hn]; [|reflexivity].
    assert (0 < lengthZ pods).
    { destruct pods; [contradiction|]. rewrite lengthZ_cons.
      pose proof (lengthZ_nonneg pods). lia. }
    rewrite (Math_round_proper _ 100%Q); [reflexivity|].
    apply healthFormula_all_good; lia.
Qed.

Lemma health_score_is_100_witness :
  clusterHealthScore (summary [] [mkPod "a" "Failed" true 2] [] []) = 100 /\
  clusterHealthScore
    (summary [mkNode "n1" false [readyTrue] []] [mkPod "a" "Running" false 0]
       ["a"] []) = 100.
Proof.
  split.
  - apply (proj1 (health_score_is_100 [] [mkPod "a" "Failed" true 2] [] [])).
    reflexivity.
  - apply (proj2 (health_score_is_100 [mkNode "n1" false [readyTrue] []]
                    [mkPod "a" "Running" false 0] ["a"] [])).
    + repeat split.
      * intros node [<-|[]]. exists readyTrue. split; [|reflexivity].
        exists [], []. repeat split. constructor.
      * intros pod [<-|[]]. reflexivity.
      * intros pod [<-|[]]. discriminate.
    + discriminate.
Defined.

(** The range the score does have. *)
Lemma clusterHealthScore_range nodes pods namespaces events :
  0 <= warningTotal events ->
  -40 <= clusterHealthScore (summary nodes pods namespaces events) <= 100 /\
  ((forall pod, In pod pods ->
      Pod.hasIssues pod && phaseIs pod "Failed" = false) ->
   0 <= clusterHealthScore (summary nodes pods namespaces events)).
Proof.
  intros Hw. rewrite clusterHealthScore_eq.
  destruct (Z.gtb_spec (lengthZ nodes) 0) as [Hn|Hn]; [|lia].
  pose proof (countZ_bounds readyStatusIsNotTrue nodes) as Hk.
  pose proof (countZ_bounds Pod.hasIssues pods) as Hi.
  pose proof (countZ_bounds (fun pod => phaseIs pod "Failed") pods) as Hf.
  destruct (healthFormula_bounds (lengthZ nodes) (lengthZ pods)
              (countZ readyStatusIsNotTrue nodes) (countZ Pod.hasIssues pods)
              (countZ (fun pod => phaseIs pod "Failed") pods)
              (warningTotal events)) as [[Hlo Hhi] H0]; try lia.
  split.
  - apply Math_round_between; assumption.
  - intros Hpods. apply (countZ_both Pod.hasIssues) in Hpods.
    apply (Math_round_between 0 100); auto.
Qed.

(** C2. The claim asks the score to stay within 0..100 without a clamp.
    A pod that is both flagged with issues and in phase "Failed" is
    subtracted twice by the formula: with one such pod and one node that is
    not ready, the score is -20. *)
Theorem health_score_below_zero :
  clusterHealthScore
    (summary [mkNode "n1" false [readyFalse] []] [mkPod "a" "Failed" true 0]
       ["a"] []) = -20.
Proof. reflexivity. Qed.

(** ** Warning totals *)

Lemma byNamespace_sum l : forall m,
  sumZ (JsMap.values (fold_left warningNsStep l m)) =
  sumZ (JsMap.values m) + warningTotal l.
Proof.
  induction l as [|e l IH]; intros m; cbn [fold_left].
  - unfold warningTotal. simpl. lia.
  - rewrite IH, warningTotal_cons. unfold warningNsStep.
    destruct (KubeEvent.isWarning e); cbn [negb]; [|lia].
    set (ns := nullish (KubeEvent.getNs e) _).
    rewrite <- (map_id (JsMap.values (JsMap.set _ _ _))).
    rewrite (JsMap_sum_set (fun x => x)), map_id.
    unfold countOf. destruct (JsMap.get m ns); cbn [nullish]; lia.
Qed.

Lemma byReason_sum l : forall m,
  sumZ (map rd_count (JsMap.values (fold_left warningReasonStep l m))) =
  sumZ (map rd_count (JsMap.values m)) + warningTotal l.
Proof.
  induction l as [|e l IH]; intros m; cbn [fold_left].
  - unfold warningTotal. simpl. lia.
  - rewrite IH, warningTotal_cons. unfold warningReasonStep.
    destruct (KubeEvent.isWarning e); cbn [negb]; [|lia].
    rewrite JsMap_sum_set. cbn [rd_count].
    destruct (JsMap.get m (reasonOf e)); cbn [nullish rd_count]; lia.
Qed.

Lemma eventSummary_warnings l : forall acc,
  ec_warnings (fold_left eventSummaryStep l acc) = ec_warnings acc + warningTotal l.
Proof.
  induction l as [|e l IH]; intros acc; cbn [fold_left].
  - unfold warningTotal. simpl. lia.
  - rewrite IH, warningTotal_cons. unfold eventSummaryStep.
    destruct (KubeEvent.isWarning e); cbn [ec_warnings]; [lia|].
    destruct (isNormalType e); cbn [ec_warnings]; lia.
Qed.

(** C4. For every event list the counts of the by-reason warning summary,
    the counts of the by-namespace warning map and the warnings figure of
    the event summary add up to the same number: the total warning count of
    the input (count, 1 when absent, summed over the warning events). *)
Theorem warning_totals_agree (events : list KubeEvent.t) :
  sumZ (map WarningReasonSummary.count (buildWarningReasons events)) =
    sumZ (JsMap.values (buildWarningEventsByNamespace events)) /\
  sumZ (JsMap.values (buildWarningEventsByNamespace events)) =
    warnings (eventSummary events) /\
  warnings (eventSummary events) = warningTotal events.
Proof.
  assert (Hr : sumZ (map WarningReasonSummary.count (buildWarningReasons events))
               = warningTotal events).
  { unfold buildWarningReasons.
    rewrite <- (sumZ_perm _ _ (Permutation_map _ (Array_sort_perm _ _))).
    unfold JsMap.entries. rewrite map_map.
    change (fun x => WarningReasonSummary.count (reasonItem x))
      with (fun x : string * ReasonData => rd_count (snd x)).
    rewrite <- (map_map snd rd_count).
    fold (JsMap.values (fold_left warningReasonStep events JsMap.empty)).
    rewrite byReason_sum. reflexivity. }
  assert (Hn : sumZ (JsMap.values (buildWarningEventsByNamespace events))
               = warningTotal events).
  { unfold buildWarningEventsByNamespace. rewrite byNamespace_sum. reflexivity. }
  assert (He : warnings (eventSummary events) = warningTotal events).
  { unfold eventSummary. cbn [warnings]. rewrite eventSummary_warnings.
    reflexivity. }
  rewrite Hr, Hn, He. auto.
Qed.

(** ** Namespace pod statistics *)

Lemma fold_left_pointwise {A B : Type} (f g : A -> B -> A) :
  (forall a b, f a b = g a b) ->
  forall l a, fold_left f l a = fold_left g l a.
Proof.
  intros H l. induction l as [|b l IH]; intros a; cbn [fold_left]; auto.
  now rewrite H, IH.
Qed.

Lemma podStats_fold w pods m :
  fold_left (podStatsStep w) pods m =
  fold_left (keyedStep (fun _ => true) podNamespace (fun ns => newStats ns w) countPod)
            pods m.
Proof. reflexivity. Qed.

Lemma countPod_PhasesAddUp pod entry :
  PhasesAddUp entry -> PhasesAddUp (countPod pod entry).
Proof.
  unfold PhasesAddUp, countPod. cbn. destruct (getPodPhase pod); lia.
Qed.

Lemma podStats_values_PhasesAddUp w pods :
  Forall (fun e : string * NamespacePodStats => PhasesAddUp (snd e))
         (fold_left (podStatsStep w) pods JsMap.empty).
Proof.
  rewrite podStats_fold. apply keyed_Forall.
  - intros pod _. reflexivity.
  - intros pod v _. apply countPod_PhasesAddUp.
  - constructor.
Qed.

Lemma podStats_values_namespace w pods :
  Forall (fun e : string * NamespacePodStats => namespace (snd e) = fst e)
         (fold_left (podStatsStep w) pods JsMap.empty).
Proof.
  rewrite podStats_fold. apply keyed_Forall.
  - intros pod _. reflexivity.
  - intros pod v _ H. exact H.
  - constructor.
Qed.

Lemma Forall_map_iff {A B : Type} (f : A -> B) (P : B -> Prop) l :
  Forall P (map f l) <-> Forall (fun x => P (f x)) l.
Proof.
  induction l as [|x l IH]; simpl.
  - split; constructor.
  - split; intros H; inversion H; subst; constructor; tauto.
Qed.

(** C9. In every entry of the namespace statistics the five phase
    counters add up to the entry's total. *)
Theorem namespace_stats_phases_add_up (pods : list Pod.t) (w : JsMap.t Z) :
  Forall
    (fun entry =>
       running entry + pending entry + failed entry + succeeded entry
       + unknown entry = total entry)
    (buildNamespacePodStats pods w).
Proof.
  unfold buildNamespacePodStats. apply Array_sort_Forall.
  unfold JsMap.values. rewrite map_map. apply Forall_map_iff.
  eapply Forall_impl; [|apply (podStats_values_PhasesAddUp w pods)].
  intros [k v] H. exact H.
Qed.

Lemma compareStats_le a b :
  compareStats a b <= 0 -> byIssuesThenTotalDesc a b.
Proof.
  unfold compareStats, orNumber, byIssuesThenTotalDesc.
  destruct (Z.eqb_spec (issues b - issues a) 0); lia.
Qed.

Lemma compareStats_gt a b :
  compareStats a b > 0 -> byIssuesThenTotalDesc b a.
Proof.
  unfold compareStats, orNumber, byIssuesThenTotalDesc.
  destruct (Z.eqb_spec (issues b - issues a) 0); lia.
Qed.

Lemma byIssuesThenTotalDesc_trans a b c :
  byIssuesThenTotalDesc a b -> byIssuesThenTotalDesc b c ->
  byIssuesThenTotalDesc a c.
Proof. unfold byIssuesThenTotalDesc. lia. Qed.

Lemma podStats_namespaces pods w :
  Permutation
    (map namespace (buildNamespacePodStats pods w))
    (JsMap.keys (fold_left (podStatsStep w) pods JsMap.empty)).
Proof.
  unfold buildNamespacePodStats.
  rewrite <- (Permutation_map _ (Array_sort_perm _ _)).
  unfold JsMap.values, JsMap.keys. rewrite !map_map.
  erewrite map_ext_Forall; [reflexivity|].
  eapply Forall_impl; [|apply (podStats_values_namespace w pods)].
  intros [k v] H. exact H.
Qed.

Lemma countPod_all ps : forall v,
  applyUpdates countPod ps v =
  {| namespace := namespace v;
     running := running v + countZ (inPhase Running) ps;
     pending := pending v + countZ (inPhase Pending) ps;
     failed := failed v + countZ (inPhase Failed) ps;
     succeeded := succeeded v + countZ (inPhase Succeeded) ps;
     unknown := unknown v + countZ (inPhase PhaseUnknown) ps;
     issues := issues v + countZ Pod.hasIssues ps;
     restarts := restarts v + sumZ (map Pod.getRestartsCount ps);
     warningEvents := warningEvents v;
     issueScore := issueScore v;
     total := total v + lengthZ ps |}.
Proof.
  unfold applyUpdates.
  induction ps as [|pod ps IH]; intros v; cbn [fold_left map].
  - destruct v. cbn. f_equal; lia.
  - rewrite IH. rewrite !countZ_cons, lengthZ_cons, sumZ_cons.
    generalize (countZ (inPhase Running) ps), (countZ (inPhase Pending) ps),
      (countZ (inPhase Failed) ps), (countZ (inPhase Succeeded) ps),
      (countZ (inPhase PhaseUnknown) ps), (countZ Pod.hasIssues ps).
    intros cR cP cF cS cU cI.
    unfold inPhase, countPod.
    cbn [namespace running pending failed succeeded unknown issues restarts
         warningEvents issueScore total].
    destruct (getPodPhase pod), (Pod.hasIssues pod); f_equal; lia.
Qed.

(** The entry of a namespace, counter by counter. *)
Lemma namespace_entry pods w ns :
  find (fun entry => String.eqb (namespace entry) ns)
       (buildNamespacePodStats pods w) =
  match podsIn ns pods with
  | [] => None
  | ps => Some (expectedStats ns ps w)
  end.
Proof.
  pose proof (keyed_get (fun _ => true) podNamespace (fun k => newStats k w)
                countPod pods JsMap.empty ns) as Hget.
  rewrite <- podStats_fold in Hget.
  change (selectedFor (fun _ => true) podNamespace ns pods)
    with (podsIn ns pods) in Hget.
  assert (Hnd : NoDup (map namespace (buildNamespacePodStats pods w))).
  { eapply Permutation_NoDup; [symmetry; apply podStats_namespaces|].
    rewrite podStats_fold. apply keyed_NoDup. constructor. }
  destruct (podsIn ns pods) as [|p0 ps0] eqn:Eps.
  - apply find_by_key_none. intros Hin.
    apply (Permutation_in _ (podStats_namespaces pods w)) in Hin.
    apply JsMap_get_None in Hget. contradiction.
  - set (ps := p0 :: ps0) in *.
    rewrite countPod_all in Hget.
    cbn [JsMap.get JsMap.empty nullish newStats namespace running pending failed
         succeeded unknown issues restarts warningEvents issueScore total] in Hget.
    rewrite !Z.add_0_l in Hget.
    apply JsMap_get_In in Hget.
    apply (in_map snd) in Hget.
    apply (in_map (scoreEntry w)) in Hget.
    apply (Array_sort_In compareStats) in Hget.
    apply (find_by_key namespace _ _ Hnd) in Hget.
    exact Hget.
Qed.

(** C6. The namespace issue scorer returns one entry per distinct pod
    namespace; in each entry the warning-event count is the one the
    mapping holds for the namespace (0 when absent) and the issue score is
    issues + restarts + warningEvents; and the list is sorted descending
    by issue count, ties by descending total pod count. *)
Theorem namespace_stats_scored_and_sorted (pods : list Pod.t) (w : JsMap.t Z) :
  NoDup (map namespace (buildNamespacePodStats pods w)) /\
  (forall ns,
     In ns (map namespace (buildNamespacePodStats pods w)) <->
     exists pod, In pod pods /\ nullish (Pod.getNs pod) "<unknown>" = ns) /\
  Forall
    (fun entry =>
       warningEvents entry = nullish (JsMap.get w (namespace entry)) 0 /\
       issueScore entry = issues entry + restarts entry + warningEvents entry)
    (buildNamespacePodStats pods w) /\
  StronglySorted byIssuesThenTotalDesc (buildNamespacePodStats pods w).
Proof.
  split; [|split; [|split]].
  - eapply Permutation_NoDup; [symmetry; apply podStats_namespaces|].
    rewrite podStats_fold. apply keyed_NoDup. constructor.
  - intros ns. split.
    + intros H. apply (Permutation_in _ (podStats_namespaces pods w)) in H.
      rewrite podStats_fold in H. apply keyed_keys in H.
      destruct H as [[]|(pod & Hin & _ & Hk)]. eauto.
    + intros (pod & Hin & Hk).
      apply (Permutation_in _ (Permutation_sym (podStats_namespaces pods w))).
      rewrite podStats_fold. apply keyed_keys. right. exists pod. auto.
  - unfold buildNamespacePodStats. apply Array_sort_Forall.
    apply Forall_map_iff. apply Forall_forall. intros entry _.
    cbn. auto.
  - unfold buildNamespacePodStats.
    apply Array_sort_sorted;
      [apply compareStats_le | apply compareStats_gt
      | apply byIssuesThenTotalDesc_trans].
Qed.

(** ** Taint summary *)

Section TaintSummaryFacts.
Variable formatNodeTaint : NodeTaint -> string.

Lemma taint_fold nodes : forall m,
  fold_left (taintNodeStep formatNodeTaint) nodes m =
  fold_left
    (keyedStep (fun _ => true) (fun visit => formatNodeTaint (snd visit))
               (fun _ => {| td_nodes := JsSet.empty; td_occurrences := 0 |})
               recordTaint)
    (taintVisits nodes) m.
Proof.
  induction nodes as [|node nodes IH]; intros m; [reflexivity|].
  cbn [fold_left taintVisits flat_map]. rewrite fold_left_app.
  fold (taintVisits nodes). rewrite <- IH. f_equal.
  unfold taintNodeStep. generalize (Node.getTaints node) m.
  induction l as [|t l IHl]; intros m0; [reflexivity|].
  cbn [map fold_left]. rewrite <- IHl. reflexivity.
Qed.

Lemma JsSet_add_size s x : JsSet.size (JsSet.add s x) <= JsSet.size s + 1.
Proof.
  unfold JsSet.add, JsSet.size. destruct (JsSet.has s x).
  - lia.
  - rewrite length_app. cbn [List.length]. lia.
Qed.

Lemma compareOccurrences_trans a b c :
  byOccurrencesDesc a b -> byOccurrencesDesc b c -> byOccurrencesDesc a c.
Proof. unfold byOccurrencesDesc. lia. Qed.

(** C8. Every entry of the taint summary counts at most as many distinct
    nodes as occurrences, and the summary is sorted descending by
    occurrence count. *)
Theorem taint_summary_bounded_and_sorted (nodes : list Node.t) :
  Forall
    (fun item => TaintSummaryItem.nodes item <= TaintSummaryItem.occurrences item)
    (buildTaintSummary formatNodeTaint nodes) /\
  StronglySorted byOccurrencesDesc (buildTaintSummary formatNodeTaint nodes).
Proof.
  unfold buildTaintSummary. split.
  - apply Array_sort_Forall. apply Forall_map_iff.
    unfold JsMap.entries. rewrite taint_fold.
    apply (keyed_Forall _ _ _ _
             (fun e => JsSet.size (td_nodes (snd e)) <= td_occurrences (snd e))).
    + intros visit _. cbn. lia.
    + intros visit v _ H. cbn [snd recordTaint td_nodes td_occurrences] in *.
      pose proof (JsSet_add_size (td_nodes v) (Node.getName (fst visit))). lia.
    + constructor.
  - apply Array_sort_sorted with (R := byOccurrencesDesc).
    + unfold byOccurrencesDesc. intros x y. lia.
    + unfold byOccurrencesDesc. intros x y. lia.
    + apply compareOccurrences_trans.
Qed.
End TaintSummaryFacts.

(** ** Heat map buckets *)

Lemma fold_max_spec (l : list Z) : forall a,
  a <= fold_left Z.max l a /\
  Forall (fun x => x <= fold_left Z.max l a) l /\
  (fold_left Z.max l a = a \/ In (fold_left Z.max l a) l).
Proof.
  induction l as [|x l IH]; intros a; cbn [fold_left].
  - repeat split; auto. lia.
  - destruct (IH (Z.max a x)) as (H1 & H2 & H3). repeat split.
    + lia.
    + constructor; [lia|exact H2].
    + destruct H3 as [H3|H3]; [|right; now right].
      destruct (Z.max_spec a x) as [[_ E]|[_ E]]; rewrite E in H3.
      * right. left. congruence.
      * left. congruence.
Qed.

Lemma maxScoreOf_spec namespaceStats :
  IsMaxScore namespaceStats (maxScoreOf namespaceStats).
Proof.
  unfold IsMaxScore, maxScoreOf.
  destruct (fold_max_spec (map issueScore namespaceStats) 0) as (H1 & H2 & H3).
  repeat split; auto.
  - rewrite Forall_forall in *. intros e He. apply H2. now apply in_map.
  - destruct H3 as [H3|H3]; [now left|right].
    apply in_map_iff in H3. destruct H3 as (e & He & Hin).
    apply Exists_exists. eauto.
Qed.

Lemma intensityOf_cases (ratio : Q) :
  (((3 # 4) <= ratio)%Q /\ intensityOf ratio = 4 \/
   ((1 # 2) <= ratio /\ ratio < (3 # 4))%Q /\ intensityOf ratio = 3 \/
   ((1 # 4) <= ratio /\ ratio < (1 # 2))%Q /\ intensityOf ratio = 2 \/
   (0 < ratio /\ ratio < (1 # 4))%Q /\ intensityOf ratio = 1 \/
   (ratio <= 0)%Q /\ intensityOf ratio = 0).
Proof.
  unfold intensityOf.
  destruct (Qle_bool (3 # 4) ratio) eqn:E4.
  { left. split; [now apply Qle_bool_iff|reflexivity]. }
  assert (H4 : (ratio < 3 # 4)%Q).
  { apply Qnot_le_lt. intros H. apply Qle_bool_iff in H. congruence. }
  destruct (Qle_bool (1 # 2) ratio) eqn:E3.
  { right; left. repeat split; auto. now apply Qle_bool_iff. }
  assert (H3 : (ratio < 1 # 2)%Q).
  { apply Qnot_le_lt. intros H. apply Qle_bool_iff in H. congruence. }
  destruct (Qle_bool (1 # 4) ratio) eqn:E2.
  { right; right; left. repeat split; auto. now apply Qle_bool_iff. }
  assert (H2 : (ratio < 1 # 4)%Q).
  { apply Qnot_le_lt. intros H. apply Qle_bool_iff in H. congruence. }
  destruct (Qle_bool ratio 0) eqn:E1; cbn [negb].
  { right; right; right; right. split; [now apply Qle_bool_iff|reflexivity]. }
  right; right; right; left. repeat split; auto.
  apply Qnot_le_lt. intros H. apply Qle_bool_iff in H. congruence.
Qed.

Lemma ratioOf_top maxScore entry :
  0 < maxScore -> issueScore entry = maxScore ->
  (ratioOf maxScore entry == 1)%Q.
Proof.
  intros Hm He. unfold ratioOf.
  destruct (Z.eqb_spec maxScore 0); [lia|]. rewrite He.
  field. apply inject_Z_nonzero. lia.
Qed.

Lemma ratioOf_zero maxScore entry :
  issueScore entry = 0 -> (ratioOf maxScore entry == 0)%Q.
Proof.
  intros He. unfold ratioOf.
  destruct (Z.eqb_spec maxScore 0); [reflexivity|]. rewrite He.
  field. apply inject_Z_nonzero. lia.
Qed.

Lemma intensityOf_top ratio : (ratio == 1)%Q -> intensityOf ratio = 4.
Proof.
  intros H. unfold intensityOf.
  assert (E : Qle_bool (3 # 4) ratio = true).
  { apply Qle_bool_iff. rewrite H. discriminate. }
  now rewrite E.
Qed.

Lemma intensityOf_zero ratio : (ratio == 0)%Q -> intensityOf ratio = 0.
Proof.
  intros H.
  destruct (intensityOf_cases ratio) as [[C _]|[[[C _] _]|[[[C _] _]|[[[C _] _]|[_ E]]]]];
    auto; rewrite H in C; exfalso;
    first [ apply C; reflexivity | discriminate C ].
Qed.

(** C7. The heat map takes as maximum the greater of 0 and the greatest
    issue score, gives each entry the bucket of its ratio to that maximum
    (4 from 0.75, 3 from 0.50, 2 from 0.25, 1 above 0, else 0; the ratio is
    0 when the maximum is 0), and keeps the entries in input order. An
    entry whose score is the positive maximum gets 4, an entry whose score
    is 0 gets 0. *)
Theorem heatmap_buckets (namespaceStats : list NamespacePodStats) :
  IsMaxScore namespaceStats (maxScoreOf namespaceStats) /\
  map stats_of (heatmapEntries namespaceStats) = namespaceStats /\
  Forall
    (fun h =>
       BucketRule (maxScoreOf namespaceStats) (issueScore (stats_of h))
                  (intensity h) /\
       (issueScore (stats_of h) = maxScoreOf namespaceStats ->
        maxScoreOf namespaceStats > 0 -> intensity h = 4) /\
       (issueScore (stats_of h) = 0 -> intensity h = 0))
    (heatmapEntries namespaceStats).
Proof.
  split; [apply maxScoreOf_spec|]. unfold heatmapEntries. split.
  - rewrite map_map. cbn [stats_of]. apply map_id.
  - apply Forall_map_iff. apply Forall_forall. intros entry _.
    cbn [stats_of intensity]. split; [|split].
    + exists (ratioOf (maxScoreOf namespaceStats) entry). split; [|split].
      * intros E. unfold ratioOf. rewrite E. reflexivity.
      * intros E. unfold ratioOf.
        destruct (Z.eqb_spec (maxScoreOf namespaceStats) 0); [contradiction|].
        reflexivity.
      * apply intensityOf_cases.
    + intros E Hpos. apply intensityOf_top. apply ratioOf_top; [lia|exact E].
    + intros E. apply intensityOf_zero. now apply ratioOf_zero.
Qed.

(** ** Warning reasons *)

Lemma reason_fold events m :
  fold_left warningReasonStep events m =
  fold_left
    (keyedStep KubeEvent.isWarning reasonOf
       (fun _ => {| rd_count := 0; rd_namespaces := JsSet.empty;
                    rd_resources := [] |})
       recordWarning)
    events m.
Proof.
  apply fold_left_pointwise. intros a e.
  unfold warningReasonStep, keyedStep.
  destruct (KubeEvent.isWarning e); reflexivity.
Qed.

Lemma firstn_min_length {A : Type} n (l : list A) :
  firstn (Nat.min n (List.length l)) l = firstn n l.
Proof.
  destruct (Nat.le_ge_cases n (List.length l)) as [H|H].
  - now rewrite Nat.min_l.
  - rewrite Nat.min_r by assumption.
    now rewrite firstn_all, firstn_all2.
Qed.

Lemma recordWarning_all ms : forall v,
  (List.length (rd_resources v) <= 10)%nat ->
  applyUpdates recordWarning ms v =
  {| rd_count := rd_count v + sumZ (map countOf ms);
     rd_namespaces := addAll (rd_namespaces v) (map eventNamespace ms);
     rd_resources := firstn 10 (rd_resources v ++ map resourceOf ms) |}.
Proof.
  unfold applyUpdates, addAll.
  induction ms as [|e ms IH]; intros v Hv; cbn [fold_left map].
  - rewrite app_nil_r, firstn_all2 by assumption.
    cbn. rewrite Z.add_0_r. now destruct v.
  - rewrite IH; cbn [recordWarning rd_count rd_namespaces rd_resources].
    + f_equal.
      * rewrite sumZ_cons. lia.
      * destruct (Nat.ltb_spec (List.length (rd_resources v)) 10) as [Hlt|Hge].
        -- now rewrite <- app_assoc.
        -- assert (E : List.length (rd_resources v) = 10%nat) by lia.
           rewrite !firstn_app, E. cbn [Nat.sub firstn]. reflexivity.
    + destruct (Nat.ltb_spec (List.length (rd_resources v)) 10) as [Hlt|Hge].
      * rewrite length_app. cbn [List.length]. lia.
      * assumption.
Qed.

Lemma reason_items_keys events :
  Permutation
    (map WarningReasonSummary.reason (buildWarningReasons events))
    (JsMap.keys (fold_left warningReasonStep events JsMap.empty)).
Proof.
  unfold buildWarningReasons.
  rewrite <- (Permutation_map _ (Array_sort_perm _ _)).
  unfold JsMap.entries, JsMap.keys. rewrite map_map. reflexivity.
Qed.

Lemma reason_items_NoDup events :
  NoDup (map WarningReasonSummary.reason (buildWarningReasons events)).
Proof.
  eapply Permutation_NoDup; [symmetry; apply reason_items_keys|].
  rewrite reason_fold. apply keyed_NoDup. constructor.
Qed.

Lemma reason_entry events r :
  find (hasReason r) (buildWarningReasons events) =
  match warningsFor r events with
  | [] => None
  | ms => Some (expectedReasonEntry r ms)
  end.
Proof.
  pose proof (keyed_get KubeEvent.isWarning reasonOf
                (fun _ => {| rd_count := 0; rd_namespaces := JsSet.empty;
                             rd_resources := [] |})
                recordWarning events JsMap.empty r) as Hget.
  rewrite <- reason_fold in Hget.
  change (selectedFor KubeEvent.isWarning reasonOf r events)
    with (warningsFor r events) in Hget.
  destruct (warningsFor r events) as [|e0 ms0] eqn:Ems.
  - apply find_by_key_none. intros Hin.
    apply (Permutation_in _ (reason_items_keys events)) in Hin.
    apply JsMap_get_None in Hget. contradiction.
  - set (ms := e0 :: ms0) in *.
    rewrite recordWarning_all in Hget by (cbn; lia).
    cbn [JsMap.get JsMap.empty nullish rd_count rd_namespaces rd_resources app]
      in Hget.
    rewrite Z.add_0_l in Hget.
    apply JsMap_get_In in Hget.
    apply (in_map reasonItem) in Hget.
    apply (Array_sort_In
             (fun a b => WarningReasonSummary.count b - WarningReasonSummary.count a))
      in Hget.
    fold (JsMap.entries (fold_left warningReasonStep events JsMap.empty)) in Hget.
    fold (buildWarningReasons events) in Hget.
    unfold expectedReasonEntry.
    rewrite <- (length_map resourceOf ms), firstn_min_length.
    apply (find_by_key WarningReasonSummary.reason _ _ (reason_items_NoDup events))
      in Hget.
    exact Hget.
Qed.

Lemma warningsFor_snoc r events e :
  KubeEvent.isWarning e = true -> reasonOf e = r ->
  warningsFor r (events ++ [e]) = (warningsFor r events ++ [e])%list.
Proof.
  intros Hw Hr. unfold warningsFor. rewrite filter_app. cbn [filter].
  now rewrite Hw, Hr, String.eqb_refl.
Qed.

Lemma expectedReasonEntry_snoc r ms e :
  (10 <= List.length ms)%nat ->
  WarningReasonSummary.resources (expectedReasonEntry r (ms ++ [e])) =
    WarningReasonSummary.resources (expectedReasonEntry r ms) /\
  WarningReasonSummary.count (expectedReasonEntry r (ms ++ [e])) =
    WarningReasonSummary.count (expectedReasonEntry r ms) + countOf e /\
  WarningReasonSummary.namespaces (expectedReasonEntry r (ms ++ [e])) =
    JsSet.add (WarningReasonSummary.namespaces (expectedReasonEntry r ms))
              (eventNamespace e).
Proof.
  intros Hk. unfold expectedReasonEntry.
  cbn [WarningReasonSummary.resources WarningReasonSummary.count
       WarningReasonSummary.namespaces].
  split; [|split].
  - rewrite <- !length_map with (f := resourceOf), !firstn_min_length.
    rewrite map_app, firstn_app.
    rewrite length_map.
    replace (10 - List.length ms)%nat with 0%nat by lia.
    cbn [firstn]. now rewrite app_nil_r.
  - rewrite map_app, sumZ_app. cbn. lia.
  - unfold addAll. rewrite map_app, fold_left_app. reflexivity.
Qed.

(** C10. In the by-reason warning summary the entry of a reason [r] holds,
    as its resources sample, the involved-object names of the first
    min(10, k) warning events whose reason resolves to [r], in input order
    ([k] being their number); its count and namespace set range over all
    [k] events. There is one entry per reason; a resource name can occur
    twice in a sample; and a further warning event of a reason that
    already has ten raises the entry's count and extends its namespace set
    while the sample stays as it is. *)
Theorem warning_reason_sample :
  (forall events r,
     find (hasReason r) (buildWarningReasons events) =
     match warningsFor r events with
     | [] => None
     | ms =>
         Some
           {| WarningReasonSummary.reason := r;
              WarningReasonSummary.count := sumZ (map countOf ms);
              WarningReasonSummary.namespaces :=
                addAll JsSet.empty (map eventNamespace ms);
              WarningReasonSummary.resources :=
                firstn (Nat.min 10 (List.length ms)) (map resourceOf ms) |}
     end) /\
  (forall events,
     NoDup (map WarningReasonSummary.reason (buildWarningReasons events))) /\
  (exists events item,
     In item (buildWarningReasons events) /\
     WarningReasonSummary.resources item = ["p1"; "p1"]) /\
  (forall events r e,
     KubeEvent.isWarning e = true -> reasonOf e = r ->
     (10 <= List.length (warningsFor r events))%nat ->
     exists old new,
       find (hasReason r) (buildWarningReasons events) = Some old /\
       find (hasReason r) (buildWarningReasons (events ++ [e])) = Some new /\
       WarningReasonSummary.resources new = WarningReasonSummary.resources old /\
       WarningReasonSummary.count new = WarningReasonSummary.count old + countOf e /\
       WarningReasonSummary.namespaces new =
         JsSet.add (WarningReasonSummary.namespaces old) (eventNamespace e)).
Proof.
  split; [|split; [|split]].
  - intros events r. apply reason_entry.
  - apply reason_items_NoDup.
  - exists [mkWarning "BackOff" 1 "a" "p1"; mkWarning "BackOff" 1 "a" "p1"].
    eexists. split; [left; reflexivity|reflexivity].
  - intros events r e Hw Hr Hk.
    exists (expectedReasonEntry r (warningsFor r events)),
           (expectedReasonEntry r (warningsFor r events ++ [e])).
    split; [|split].
    + rewrite reason_entry.
      destruct (warningsFor r events); [cbn in Hk; lia|reflexivity].
    + rewrite reason_entry, warningsFor_snoc by assumption.
      destruct (warningsFor r events); reflexivity.
    + now apply expectedReasonEntry_snoc.
Qed.

Lemma warning_reason_sample_witness :
  let ten := repeat (mkWarning "BackOff" 2 "a" "p1") 10 in
  let late := mkWarning "BackOff" 3 "b" "p2" in
  exists old new,
    find (hasReason "BackOff") (buildWarningReasons ten) = Some old /\
    find (hasReason "BackOff") (buildWarningReasons (ten ++ [late])) = Some new /\
    WarningReasonSummary.resources new = WarningReasonSummary.resources old /\
    WarningReasonSummary.count new = WarningReasonSummary.count old + 3 /\
    WarningReasonSummary.namespaces new =
      JsSet.add (WarningReasonSummary.namespaces old) "b".
Proof.
  intros ten late.
  apply (proj2 (proj2 (proj2 warning_reason_sample)) ten "BackOff" late).
  - reflexivity.
  - reflexivity.
  - vm_compute. lia.
Defined.

(** ** Worked scenarios *)

Lemma heatmap_buckets_witness :
  let namespaceStats :=
    buildNamespacePodStats
      [mkPod "a" "Running" true 3; mkPod "b" "Failed" true 0;
       mkPod "a" "Pending" true 0; mkPod "c" "Running" false 0]
      [("a", 4)] in
  map intensity (heatmapEntries namespaceStats) = [4; 1; 0] /\
  Forall
    (fun h =>
       (issueScore (stats_of h) = 9 -> 9 > 0 -> intensity h = 4) /\
       (issueScore (stats_of h) = 0 -> intensity h = 0))
    (heatmapEntries namespaceStats).
Proof.
  intros namespaceStats. split; [reflexivity|].
  pose proof (proj2 (proj2 (heatmap_buckets namespaceStats))) as H.
  eapply Forall_impl; [|exact H].
  intros h (_ & Htop & Hzero). split; assumption.
Defined.

Example scenario_warning_reasons :
  map (fun item =>
         (WarningReasonSummary.reason item, WarningReasonSummary.count item,
          WarningReasonSummary.namespaces item))
      (buildWarningReasons
         [mkWarning "BackOff" 3 "a" "p1"; mkWarning "BackOff" 2 "b" "p2";
          mkWarning "FailedMount" 1 "a" "p3"])
  = [("BackOff", 5, ["a"; "b"]); ("FailedMount", 1, ["a"])].
Proof. reflexivity. Qed.

Example scenario_issue_score :
  map (fun entry => (namespace entry, issueScore entry))
      (buildNamespacePodStats
         [mkPod "a" "Running" true 3; mkPod "a" "Pending" true 0] [("a", 4)])
  = [("a", 9)].
Proof. reflexivity. Qed.

Example scenario_taint_summary :
  buildTaintSummary formatNodeTaint_host
    [mkNode "n1" false [readyTrue] [gpuTaint];
     mkNode "n2" false [readyTrue] [gpuTaint]]
  = [{| TaintSummaryItem.taint := "dedicated=gpu:NoSchedule";
        TaintSummaryItem.nodes := 2;
        TaintSummaryItem.occurrences := 2 |}].
Proof. reflexivity. Qed.

Example scenario_health_bands :
  getHealthStatus 100 = healthy /\ getHealthStatus 60 = warning /\
  getHealthStatus (-20) = critical.
Proof. repeat split. Qed.

(** ** Node status counts *)

Lemma nodeStatus_fold nodes : forall acc,
  let out := fold_left nodeStatusStep nodes acc in
  nsc_total out = nsc_total acc /\
  nsc_ready out = nsc_ready acc + countZ (statusIs Ready) nodes /\
  nsc_notReady out = nsc_notReady acc + countZ (statusIs NotReady) nodes /\
  nsc_schedulingDisabled out =
    nsc_schedulingDisabled acc + countZ (statusIs SchedulingDisabled) nodes /\
  nsc_unknown out = nsc_unknown acc + countZ (statusIs Unknown) nodes /\
  nsc_warningConditions out =
    nsc_warningConditions acc
    + sumZ (map (fun node => lengthZ (Node.getWarningConditions node)) nodes).
Proof.
  induction nodes as [|node nodes IH]; intros acc; cbn [fold_left].
  - cbv zeta. unfold countZ, lengthZ. cbn. repeat split; lia.
  - specialize (IH (nodeStatusStep acc node)). cbv zeta in *.
    destruct IH as (H0 & H1 & H2 & H3 & H4 & H5).
    rewrite H0, H1, H2, H3, H4, H5, !countZ_cons. cbn [map]. rewrite sumZ_cons.
    unfold statusIs, nodeStatusStep.
    cbn [nsc_total nsc_ready nsc_notReady nsc_schedulingDisabled nsc_unknown
         nsc_warningConditions].
    destruct (getNodeStatus node); repeat split; lia.
Qed.

Lemma status_partition nodes :
  countZ (statusIs Ready) nodes + countZ (statusIs NotReady) nodes
  + countZ (statusIs SchedulingDisabled) nodes + countZ (statusIs Unknown) nodes
  = lengthZ nodes.
Proof.
  induction nodes as [|node nodes IH]; [reflexivity|].
  rewrite !countZ_cons, lengthZ_cons. unfold statusIs at 1 3 5 7.
  destruct (getNodeStatus node); lia.
Qed.

(** X1. The four status counters of the node status cards are not
    negative and add up to the number of nodes (every node falls in exactly
    one status), and the warning-conditions card is the number of warning
    conditions over all nodes. *)
Theorem node_status_counts_partition (nodes : list Node.t) :
  let c := nodeStatusCounts nodes in
  nsc_total c = lengthZ nodes /\
  nsc_ready c + nsc_notReady c + nsc_schedulingDisabled c + nsc_unknown c
    = nsc_total c /\
  0 <= nsc_ready c /\ 0 <= nsc_notReady c /\
  0 <= nsc_schedulingDisabled c /\ 0 <= nsc_unknown c /\
  nsc_warningConditions c
    = lengthZ (flat_map Node.getWarningConditions nodes).
Proof.
  cbv zeta. unfold nodeStatusCounts.
  destruct (nodeStatus_fold nodes
              {| nsc_total := lengthZ nodes; nsc_ready := 0; nsc_notReady := 0;
                 nsc_schedulingDisabled := 0; nsc_unknown := 0;
                 nsc_warningConditions := 0 |}) as (H0 & H1 & H2 & H3 & H4 & H5).
  cbv zeta in *. rewrite H0, H1, H2, H3, H4, H5.
  cbn [nsc_total nsc_ready nsc_notReady nsc_schedulingDisabled nsc_unknown
       nsc_warningConditions].
  pose proof (status_partition nodes).
  pose proof (countZ_bounds (statusIs Ready) nodes).
  pose proof (countZ_bounds (statusIs NotReady) nodes).
  pose proof (countZ_bounds (statusIs SchedulingDisabled) nodes).
  pose proof (countZ_bounds (statusIs Unknown) nodes).
  repeat split; try lia.
  clear. induction nodes as [|node nodes IH]; [reflexivity|].
  cbn [map flat_map]. rewrite sumZ_cons.
  unfold lengthZ in *. rewrite length_app. lia.
Qed.

Lemma notReady_vs_status node :
  (if statusIs NotReady node then 1 else 0) + (if statusIs Unknown node then 1 else 0)
    <= (if readyStatusIsNotTrue node then 1 else 0) /\
  (if readyStatusIsNotTrue node then 1 else 0)
    <= (if statusIs NotReady node then 1 else 0)
       + (if statusIs Unknown node then 1 else 0)
       + (if statusIs SchedulingDisabled node then 1 else 0) /\
  (Node.isUnschedulable node = false ->
   (if readyStatusIsNotTrue node then 1 else 0)
     = (if statusIs NotReady node then 1 else 0)
       + (if statusIs Unknown node then 1 else 0)).
Proof.
  unfold statusIs, getNodeStatus, readyStatusIsNotTrue.
  destruct (Node.isUnschedulable node);
    destruct (find isReadyCondition (Node.getConditions node)) as [c|];
    try destruct (String.eqb (cond_status c) "True"); cbn;
    repeat split; intros; try lia; discriminate.
Qed.

(** X2. The overview's "nodes not ready" figure and the status cards of
    the nodes page count differently: the overview figure is at least
    NotReady + Unknown and at most NotReady + Unknown + SchedulingDisabled
    (a cordoned node is counted by the overview only when its Ready
    condition is not "True"); with no cordoned node the two agree. *)
Theorem nodes_not_ready_between_status_counts
    (nodes : list Node.t) (pods : list Pod.t) (namespaces : list string)
    (events : list KubeEvent.t) :
  let c := nodeStatusCounts nodes in
  let n := s_nodesNotReady (summary nodes pods namespaces events) in
  nsc_notReady c + nsc_unknown c <= n /\
  n <= nsc_notReady c + nsc_unknown c + nsc_schedulingDisabled c /\
  ((forall node, In node nodes -> Node.isUnschedulable node = false) ->
   n = nsc_notReady c + nsc_unknown c).
Proof.
  cbv zeta. unfold nodeStatusCounts, summary. cbn [s_nodesNotReady].
  rewrite summary_nodesNotReady. cbn [nc_nodesNotReady].
  destruct (nodeStatus_fold nodes
              {| nsc_total := lengthZ nodes; nsc_ready := 0; nsc_notReady := 0;
                 nsc_schedulingDisabled := 0; nsc_unknown := 0;
                 nsc_warningConditions := 0 |}) as (_ & _ & H2 & H3 & H4 & _).
  cbv zeta in *. rewrite H2, H3, H4.
  cbn [nsc_notReady nsc_schedulingDisabled nsc_unknown].
  clear. induction nodes as [|node nodes IH].
  - repeat split; intros; reflexivity || (cbv; discriminate).
  - rewrite !countZ_cons.
    destruct IH as (I1 & I2 & I3).
    destruct (notReady_vs_status node) as (N1 & N2 & N3).
    repeat split; try lia.
    intros Hall. rewrite Z.add_0_l in *.
    rewrite I3 by (intros; apply Hall; now right).
    rewrite N3 by (apply Hall; now left). lia.
Qed.

Lemma nodes_not_ready_between_status_counts_witness :
  s_nodesNotReady
    (summary [mkNode "n1" false [] []; mkNode "n2" false [readyFalse] []] [] [] [])
  = nsc_notReady
      (nodeStatusCounts [mkNode "n1" false [] []; mkNode "n2" false [readyFalse] []])
    + nsc_unknown
        (nodeStatusCounts [mkNode "n1" false [] []; mkNode "n2" false [readyFalse] []]).
Proof.
  apply (nodes_not_ready_between_status_counts
           [mkNode "n1" false [] []; mkNode "n2" false [readyFalse] []] [] [] []).
  intros node [<-|[<-|[]]]; reflexivity.
Defined.

(** ** More on the cluster summary *)

Lemma summary_pod_counters l : forall acc,
  let out := fold_left summaryPodStep l acc in
  pc_runningPods out
    = pc_runningPods acc + countZ (fun pod => phaseIs pod "Running") l /\
  pc_pendingPods out
    = pc_pendingPods acc + countZ (fun pod => phaseIs pod "Pending") l /\
  pc_totalRestarts out
    = pc_totalRestarts acc + sumZ (map Pod.getRestartsCount l).
Proof.
  induction l as [|x l IH]; intros acc; cbn [fold_left].
  - cbv zeta. unfold countZ, lengthZ. cbn. lia.
  - specialize (IH (summaryPodStep acc x)). cbv zeta in *.
    destruct IH as (H1 & H2 & H3). rewrite H1, H2, H3, !countZ_cons.
    cbn [map summaryPodStep pc_runningPods pc_pendingPods pc_totalRestarts].
    rewrite sumZ_cons. unfold incrIf.
    destruct (phaseIs x "Running"), (phaseIs x "Pending"); lia.
Qed.

Lemma summary_nodesWithWarnings l : forall acc,
  nc_nodesWithWarnings (fold_left summaryNodeStep l acc) =
  nc_nodesWithWarnings acc
  + countZ (fun node => (0 <? List.length (Node.getWarningConditions node))%nat) l.
Proof.
  induction l as [|x l IH]; intros acc; cbn [fold_left].
  - unfold countZ, lengthZ. simpl. lia.
  - rewrite IH, countZ_cons. cbn [summaryNodeStep nc_nodesWithWarnings].
    unfold incrIf.
    destruct (0 <? List.length (Node.getWarningConditions x))%nat; lia.
Qed.

Lemma phases_disjoint l :
  countZ (fun pod => phaseIs pod "Running") l
  + countZ (fun pod => phaseIs pod "Pending") l
  + countZ (fun pod => phaseIs pod "Failed") l <= lengthZ l.
Proof.
  induction l as [|pod l IH]; [cbv; discriminate|].
  rewrite !countZ_cons, lengthZ_cons. revert IH.
  generalize (countZ (fun pod => phaseIs pod "Running") l),
    (countZ (fun pod => phaseIs pod "Pending") l),
    (countZ (fun pod => phaseIs pod "Failed") l).
  intros cR cP cF IH. unfold phaseIs.
  destruct (Pod.getStatusPhase pod) as [ph|]; [|lia].
  destruct (String.eqb_spec ph "Running"), (String.eqb_spec ph "Pending"),
    (String.eqb_spec ph "Failed"); subst; try discriminate; lia.
Qed.

(** X3. The counters of the overview stay within the sizes of their
    collections: running + pending + failed pods are at most all pods (the
    three phases exclude each other), pods with issues are at most all
    pods, nodes not ready and nodes with warnings are at most all nodes,
    none is negative, and total restarts is the sum of the pods' restart
    counts. *)
Theorem summary_counters_bounded
    (nodes : list Node.t) (pods : list Pod.t) (namespaces : list string)
    (events : list KubeEvent.t) :
  let s := summary nodes pods namespaces events in
  s_nodes s = lengthZ nodes /\ s_totalPods s = lengthZ pods /\
  0 <= s_runningPods s /\ 0 <= s_pendingPods s /\ 0 <= s_failedPods s /\
  s_runningPods s + s_pendingPods s + s_failedPods s <= s_totalPods s /\
  0 <= s_podsWithIssues s <= s_totalPods s /\
  0 <= s_nodesNotReady s <= s_nodes s /\
  0 <= s_nodesWithWarnings s <= s_nodes s /\
  s_totalRestarts s = sumZ (map Pod.getRestartsCount pods).
Proof.
  cbv zeta. unfold summary.
  cbn [s_nodes s_totalPods s_runningPods s_pendingPods s_failedPods
       s_podsWithIssues s_nodesNotReady s_nodesWithWarnings s_totalRestarts].
  destruct (summary_pod_counters pods
              {| pc_runningPods := 0; pc_pendingPods := 0; pc_failedPods := 0;
                 pc_podsWithIssues := 0; pc_totalRestarts := 0 |})
    as (H1 & H2 & H3).
  cbv zeta in *. rewrite H1, H2, H3.
  rewrite summary_failedPods, summary_podsWithIssues, summary_nodesNotReady,
    summary_nodesWithWarnings.
  cbn [pc_runningPods pc_pendingPods pc_failedPods pc_podsWithIssues
       pc_totalRestarts nc_nodesNotReady nc_nodesWithWarnings].
  pose proof (phases_disjoint pods).
  pose proof (countZ_bounds (fun pod => phaseIs pod "Running") pods).
  pose proof (countZ_bounds (fun pod => phaseIs pod "Pending") pods).
  pose proof (countZ_bounds (fun pod => phaseIs pod "Failed") pods).
  pose proof (countZ_bounds Pod.hasIssues pods).
  pose proof (countZ_bounds readyStatusIsNotTrue nodes).
  pose proof (countZ_bounds
                (fun node => (0 <? List.length (Node.getWarningConditions node))%nat)
                nodes).
  repeat split; lia.
Qed.

Lemma eventSummary_fold l : forall acc,
  let out := fold_left eventSummaryStep l acc in
  ec_normals out
    = ec_normals acc
      + sumZ (map countOf
                (filter (fun e => negb (KubeEvent.isWarning e) && isNormalType e) l)) /\
  ec_warnings out + ec_normals out + ec_others out
    = ec_warnings acc + ec_normals acc + ec_others acc + sumZ (map countOf l).
Proof.
  induction l as [|e l IH]; intros acc; cbn [fold_left].
  - cbv zeta. cbn. lia.
  - specialize (IH (eventSummaryStep acc e)). cbv zeta in *.
    destruct IH as (H1 & H2). cbn [map filter]. rewrite sumZ_cons.
    revert H1 H2.
    generalize (fold_left eventSummaryStep l (eventSummaryStep acc e)).
    intros out. unfold eventSummaryStep.
    destruct (KubeEvent.isWarning e), (isNormalType e);
      cbn [negb andb map ec_warnings ec_normals ec_others];
      rewrite ?sumZ_cons; lia.
Qed.

Lemma summary_normalEvents l : forall acc,
  et_normalEvents (fold_left summaryEventStep l acc) =
  et_normalEvents acc
  + sumZ (map countOf
            (filter (fun e => negb (KubeEvent.isWarning e) && isNormalType e) l)).
Proof.
  induction l as [|e l IH]; intros acc; cbn [fold_left].
  - cbn. lia.
  - rewrite IH. cbn [filter]. unfold summaryEventStep.
    destruct (KubeEvent.isWarning e); cbn [negb andb et_normalEvents]; [lia|].
    destruct (isNormalType e); cbn [map et_normalEvents]; rewrite ?sumZ_cons; lia.
Qed.

(** X4. The event summary splits the events three ways without loss: its
    total is the sum of the counts (1 when absent) of all events, whatever
    their type; and the overview's warning and normal figures are the
    event summary's warnings and normals on the same events. *)
Theorem event_summary_partitions (events : list KubeEvent.t) :
  es_total (eventSummary events) = sumZ (map countOf events) /\
  es_total (eventSummary events)
    = warnings (eventSummary events) + normals (eventSummary events)
      + others (eventSummary events) /\
  (forall nodes pods namespaces,
     s_warningEvents (summary nodes pods namespaces events)
       = warnings (eventSummary events) /\
     s_normalEvents (summary nodes pods namespaces events)
       = normals (eventSummary events)).
Proof.
  unfold eventSummary. cbn [es_total warnings normals others].
  destruct (eventSummary_fold events
              {| ec_warnings := 0; ec_normals := 0; ec_others := 0 |}) as (H1 & H2).
  cbv zeta in *. split; [|split].
  - rewrite H2. cbn. lia.
  - reflexivity.
  - intros nodes pods namespaces. unfold summary.
    cbn [s_warningEvents s_normalEvents].
    rewrite summary_warningEvents, summary_normalEvents, eventSummary_warnings, H1.
    cbn. auto.
Qed.

(** ** More on the health score *)

Lemma warningTotal_nonneg events :
  (forall e, In e events -> 0 <= countOf e) -> 0 <= warningTotal events.
Proof.
  induction events as [|e events IH]; intros H; [cbv; discriminate|].
  rewrite warningTotal_cons.
  specialize (IH (fun x Hx => H x (in_cons _ _ _ Hx))).
  pose proof (H e (in_eq _ _)).
  destruct (KubeEvent.isWarning e); lia.
Qed.

(** X5. With event counts that are not negative the health score lies
    between -40 and 100; it is at least 0 as soon as no pod is both
    flagged with issues and in phase "Failed". *)
Theorem health_score_range
    (nodes : list Node.t) (pods : list Pod.t) (namespaces : list string)
    (events : list KubeEvent.t) :
  (forall e, In e events -> 0 <= countOf e) ->
  -40 <= clusterHealthScore (summary nodes pods namespaces events) <= 100 /\
  ((forall pod, In pod pods ->
      Pod.hasIssues pod = false \/ Pod.getStatusPhase pod <> Some "Failed") ->
   0 <= clusterHealthScore (summary nodes pods namespaces events)).
Proof.
  intros Hc. apply warningTotal_nonneg in Hc.
  destruct (clusterHealthScore_range nodes pods namespaces events Hc) as [Hr H0].
  split; [exact Hr|]. intros Hp. apply H0. intros pod Hin.
  destruct (Hp pod Hin) as [->|Hf]; [reflexivity|].
  unfold phaseIs. destruct (Pod.getStatusPhase pod) as [ph|]; [|apply andb_false_r].
  destruct (String.eqb_spec ph "Failed"); [congruence|apply andb_false_r].
Qed.

Lemma health_score_range_witness :
  -40 <= clusterHealthScore
           (summary [mkNode "n1" false [readyFalse] []]
                    [mkPod "a" "Failed" true 0; mkPod "a" "Running" false 1] ["a"]
                    [mkWarning "BackOff" 30 "a" "p1"]) <= 100 /\
  0 <= clusterHealthScore
         (summary [mkNode "n1" false [readyFalse] []]
                  [mkPod "a" "Failed" false 0; mkPod "a" "Running" true 1] ["a"]
                  [mkWarning "BackOff" 30 "a" "p1"]).
Proof.
  split.
  - apply (health_score_range [mkNode "n1" false [readyFalse] []]
             [mkPod "a" "Failed" true 0; mkPod "a" "Running" false 1] ["a"]
             [mkWarning "BackOff" 30 "a" "p1"]).
    intros e [<-|[]]. cbv. discriminate.
  - apply (health_score_range [mkNode "n1" false [readyFalse] []]
             [mkPod "a" "Failed" false 0; mkPod "a" "Running" true 1] ["a"]
             [mkWarning "BackOff" 30 "a" "p1"]).
    + intros e [<-|[]]. cbv. discriminate.
    + intros pod [<-|[<-|[]]]; [left; reflexivity|right; discriminate].
Defined.

Lemma nonpos_ratio a d :
  0 < d -> a <= 0 -> (inject_Z a / inject_Z d <= 0)%Q.
Proof.
  intros Hd Ha. apply Qle_shift_div_r.
  - unfold Qlt; simpl; lia.
  - unfold Qle. cbn [Qnum Qden Qmult inject_Z]. lia.
Qed.

Lemma healthFormula_at_most_60 n p k i f w :
  0 < n -> 0 <= k <= n -> 0 <= i <= p -> 0 <= f <= p -> 0 <= w ->
  k = n \/ p <= i + f ->
  (healthFormula n p k i f w <= inject_Z 60)%Q.
Proof.
  intros Hn Hk Hi Hf Hw Hcase. unfold healthFormula.
  set (wt := if w =? 0 then 20 else Z.max 0 (20 - w)).
  assert (Hwt : 0 <= wt <= 20) by (subst wt; destruct (Z.eqb_spec w 0); lia).
  assert (W1 : (inject_Z wt <= 20)%Q) by (unfold Qle; simpl; lia).
  destruct (unit_ratio_bounds (n - k) n Hn ltac:(lia)) as [_ Hn1].
  destruct (unit_ratio_bounds (p - i - f) (Z.max p 1) ltac:(lia) ltac:(lia))
    as [_ Hp1].
  assert (H40 : (0 <= inject_Z 40)%Q) by discriminate.
  destruct Hcase as [Hcase|Hcase].
  - pose proof (nonpos_ratio (n - k) n Hn ltac:(lia)) as Hn0.
    pose proof (Qmult_le_compat_r _ _ _ Hn0 H40) as A.
    pose proof (Qmult_le_compat_r _ _ _ Hp1 H40) as B.
    setoid_replace (inject_Z 60) with (0 * inject_Z 40 + 1 * inject_Z 40 + 20)%Q
      by reflexivity.
    repeat apply Qplus_le_compat; assumption.
  - pose proof (nonpos_ratio (p - i - f) (Z.max p 1) ltac:(lia) ltac:(lia)) as Hp0.
    pose proof (Qmult_le_compat_r _ _ _ Hn1 H40) as A.
    pose proof (Qmult_le_compat_r _ _ _ Hp0 H40) as B.
    setoid_replace (inject_Z 60) with (1 * inject_Z 40 + 0 * inject_Z 40 + 20)%Q
      by reflexivity.
    repeat apply Qplus_le_compat; assumption.
Qed.

Lemma countZ_all {A : Type} (f : A -> bool) l :
  (forall x, In x l -> f x = true) -> countZ f l = lengthZ l.
Proof.
  induction l as [|x l IH]; intros H; [reflexivity|].
  rewrite countZ_cons, lengthZ_cons, (H x (in_eq _ _)), IH; auto using in_cons.
Qed.

Lemma countZ_cover {A : Type} (f g : A -> bool) l :
  (forall x, In x l -> f x || g x = true) ->
  lengthZ l <= countZ f l + countZ g l.
Proof.
  induction l as [|x l IH]; intros H; [cbv; discriminate|].
  rewrite !countZ_cons, lengthZ_cons.
  specialize (IH (fun y Hy => H y (in_cons _ _ _ Hy))).
  pose proof (H x (in_eq _ _)) as Hx.
  destruct (f x), (g x); cbn in Hx; try discriminate; lia.
Qed.

(** X6. A cluster is never reported "healthy" when none of its nodes has
    a Ready condition of status "True", or when every pod is flagged with
    issues or in phase "Failed" -- in particular when it has nodes but no
    pod at all: the score is then at most 60 (event counts not negative). *)
Theorem never_healthy_without_ready_nodes_or_sound_pods
    (nodes : list Node.t) (pods : list Pod.t) (namespaces : list string)
    (events : list KubeEvent.t) :
  nodes <> [] ->
  (forall e, In e events -> 0 <= countOf e) ->
  (forall node, In node nodes ->
     ~ exists c, ReadyConditionIs node c /\ cond_status c = "True") \/
  (forall pod, In pod pods ->
     Pod.hasIssues pod = true \/ Pod.getStatusPhase pod = Some "Failed") ->
  clusterHealthScore (summary nodes pods namespaces events) <= 60 /\
  getHealthStatus (clusterHealthScore (summary nodes pods namespaces events))
    <> healthy.
Proof.
  intros Hnodes Hc Hcase.
  assert (Hs : clusterHealthScore (summary nodes pods namespaces events) <= 60).
  { rewrite clusterHealthScore_eq.
    assert (Hn : 0 < lengthZ nodes).
    { destruct nodes; [contradiction|]. rewrite lengthZ_cons.
      pose proof (lengthZ_nonneg nodes). lia. }
    destruct (Z.gtb_spec (lengthZ nodes) 0); [|lia].
    pose proof (countZ_bounds readyStatusIsNotTrue nodes) as Hk.
    pose proof (countZ_bounds Pod.hasIssues pods) as Hi.
    pose proof (countZ_bounds (fun pod => phaseIs pod "Failed") pods) as Hf.
    pose proof (warningTotal_nonneg events Hc) as Hw.
    apply (Math_round_between (-40) 60).
    - apply healthFormula_bounds; assumption.
    - apply healthFormula_at_most_60; try assumption.
      destruct Hcase as [Hall|Hall]; [left|right].
      + apply countZ_all. intros node Hin. specialize (Hall node Hin).
        unfold readyStatusIsNotTrue.
        destruct (find isReadyCondition (Node.getConditions node)) as [c|] eqn:E;
          [|reflexivity].
        destruct (String.eqb_spec (cond_status c) "True") as [Ht|]; [|reflexivity].
        exfalso. apply Hall. exists c. split; [now apply find_ready_Some|exact Ht].
      + apply countZ_cover. intros pod Hin.
        destruct (Hall pod Hin) as [->|Hf']; [reflexivity|].
        unfold phaseIs. rewrite Hf'. apply orb_true_r. }
  split; [exact Hs|].
  unfold getHealthStatus.
  destruct (Z.geb_spec (clusterHealthScore (summary nodes pods namespaces events)) 80);
    [lia|].
  destruct (_ >=? 50); discriminate.
Qed.

Lemma never_healthy_witness :
  getHealthStatus
    (clusterHealthScore (summary [mkNode "n1" false [readyTrue] []] [] [] []))
  <> healthy.
Proof.
  apply (never_healthy_without_ready_nodes_or_sound_pods
           [mkNode "n1" false [readyTrue] []] [] [] []).
  - discriminate.
  - intros e [].
  - right. intros pod [].
Defined.

(** ** Top namespaces *)

Lemma StronglySorted_app_inv {A : Type} (R : A -> A -> Prop) l1 l2 :
  StronglySorted R (l1 ++ l2) ->
  forall x y, In x l1 -> In y l2 -> R x y.
Proof.
  induction l1 as [|a l1 IH]; cbn [app]; intros Hs x y Hx Hy; [destruct Hx|].
  inversion Hs as [|? ? Hs' Hall]; subst. destruct Hx as [<-|Hx].
  - rewrite Forall_forall in Hall. apply Hall, in_or_app. now right.
  - now apply IH.
Qed.

Lemma StronglySorted_firstn {A : Type} (R : A -> A -> Prop) n l :
  StronglySorted R l -> StronglySorted R (firstn n l).
Proof.
  revert l. induction n as [|n IH]; intros l Hs; [constructor|].
  destruct l as [|a l]; [constructor|]. cbn [firstn].
  inversion Hs as [|? ? Hs' Hall]; subst. constructor; [now apply IH|].
  rewrite Forall_forall in *. intros x Hx. apply Hall.
  rewrite <- (firstn_skipn n l). apply in_or_app. now left.
Qed.

Lemma scoreSorted l :
  StronglySorted byScoreDesc
    (Array_sort (fun a b : NamespacePodStats => issueScore b - issueScore a) l).
Proof.
  apply Array_sort_sorted; unfold byScoreDesc; intros; lia.
Qed.

(** X7. The "top namespaces" table holds at most [limit] rows, all taken
    from the namespace statistics, all with a positive issue score, in
    descending score order; a namespace with a positive score that is left
    out scores no more than any row shown; and when at most [limit]
    namespaces have a positive score all of them are shown. The SRE stats
    page (limit 8) shows the first eight rows of the pods page (limit 10). *)
Theorem top_namespaces_are_the_top
    (limit : nat) (namespaceStats : list NamespacePodStats) :
  let top := topNamespacesUpTo limit namespaceStats in
  (List.length top <= limit)%nat /\
  Forall (fun entry => In entry namespaceStats /\ issueScore entry > 0) top /\
  StronglySorted byScoreDesc top /\
  (forall entry shown,
     In entry namespaceStats -> issueScore entry > 0 -> ~ In entry top ->
     In shown top -> issueScore entry <= issueScore shown) /\
  ((List.length (filter hasScore namespaceStats) <= limit)%nat ->
   Permutation top (filter hasScore namespaceStats)) /\
  topNamespaces_sre namespaceStats = firstn 8 (topNamespaces namespaceStats).
Proof.
  cbv zeta. unfold topNamespacesUpTo.
  set (cmp := fun a b : NamespacePodStats => issueScore b - issueScore a).
  set (sorted := Array_sort cmp (filter hasScore namespaceStats)).
  assert (Hin : forall e, In e sorted <-> In e namespaceStats /\ issueScore e > 0).
  { intros e. unfold sorted. rewrite Array_sort_In, filter_In. unfold hasScore.
    destruct (Z.gtb_spec (issueScore e) 0); intuition (lia || discriminate). }
  split; [apply firstn_le_length|]. split; [|split; [|split; [|split]]].
  - apply Forall_forall. intros e He. apply Hin.
    rewrite <- (firstn_skipn limit sorted). apply in_or_app. now left.
  - apply StronglySorted_firstn, scoreSorted.
  - intros entry shown He Hpos Hnot Hshown.
    assert (Hs : In entry sorted) by (apply Hin; auto).
    rewrite <- (firstn_skipn limit sorted) in Hs.
    apply in_app_or in Hs. destruct Hs as [Hs|Hs]; [contradiction|].
    pose proof (scoreSorted (filter hasScore namespaceStats)) as Hsorted.
    fold cmp in Hsorted. fold sorted in Hsorted.
    rewrite <- (firstn_skipn limit sorted) in Hsorted.
    pose proof (StronglySorted_app_inv _ _ _ Hsorted shown entry Hshown Hs) as Hr.
    unfold byScoreDesc in Hr. lia.
  - intros Hlen. rewrite firstn_all2.
    + symmetry. apply Array_sort_perm.
    + unfold sorted.
      rewrite <- (Permutation_length (Array_sort_perm cmp _)). exact Hlen.
  - unfold topNamespaces_sre, topNamespaces, topNamespacesUpTo.
    rewrite firstn_firstn. reflexivity.
Qed.

Lemma top_namespaces_witness :
  let namespaceStats :=
    buildNamespacePodStats
      [mkPod "a" "Running" true 3; mkPod "b" "Failed" true 0;
       mkPod "c" "Running" false 0]
      [("a", 4)] in
  map namespace (topNamespacesUpTo 1 namespaceStats) = ["a"] /\
  Permutation (topNamespaces namespaceStats) (filter hasScore namespaceStats).
Proof.
  intros namespaceStats. split; [reflexivity|].
  apply (top_namespaces_are_the_top 10 namespaceStats).
  vm_compute. lia.
Defined.

(** ** More on the heat map *)

Lemma intensityOf_range ratio : 0 <= intensityOf ratio <= 4.
Proof.
  destruct (intensityOf_cases ratio)
    as [[_ ->]|[[_ ->]|[[_ ->]|[[_ ->]|[_ ->]]]]]; lia.
Qed.

Lemma intensityOf_monotone r1 r2 :
  (r1 <= r2)%Q -> intensityOf r1 <= intensityOf r2.
Proof.
  intros H.
  destruct (intensityOf_cases r1)
    as [[A ->]|[[[A A'] ->]|[[[A A'] ->]|[[[A A'] ->]|[A ->]]]]];
  destruct (intensityOf_cases r2)
    as [[B ->]|[[[B B'] ->]|[[[B B'] ->]|[[[B B'] ->]|[B ->]]]]];
  try lia; exfalso; lra.
Qed.

Lemma intensityOf_positive ratio : 1 <= intensityOf ratio <-> (0 < ratio)%Q.
Proof.
  destruct (intensityOf_cases ratio)
    as [[A ->]|[[[A A'] ->]|[[[A A'] ->]|[[[A A'] ->]|[A ->]]]]];
    split; intros H; try lia; try lra.
Qed.

Lemma ratioOf_monotone m a b :
  0 <= m -> issueScore a <= issueScore b -> (ratioOf m a <= ratioOf m b)%Q.
Proof.
  intros Hm Hab. unfold ratioOf.
  destruct (Z.eqb_spec m 0); [apply Qle_refl|].
  unfold Qdiv. apply Qmult_le_compat_r.
  - unfold Qle. simpl. lia.
  - apply Qinv_le_0_compat. unfold Qle. simpl. lia.
Qed.

Lemma ratioOf_positive m e :
  0 <= m -> issueScore e <= m -> ((0 < ratioOf m e)%Q <-> issueScore e > 0).
Proof.
  intros Hm He. unfold ratioOf.
  destruct (Z.eqb_spec m 0) as [->|Hne].
  - split; intros H; [exfalso; revert H; apply Qlt_irrefl|lia].
  - split; intros H.
    + destruct (Z_le_gt_dec (issueScore e) 0) as [Hle|]; [|assumption].
      pose proof (nonpos_ratio (issueScore e) m ltac:(lia) Hle). lra.
    + apply Qlt_shift_div_l.
      * unfold Qlt. simpl. lia.
      * unfold Qlt. cbn [Qnum Qden Qmult inject_Z]. lia.
Qed.

Lemma maxScoreOf_filter l : forall a,
  0 <= a ->
  fold_left Z.max (map issueScore (filter hasScore l)) a
  = fold_left Z.max (map issueScore l) a.
Proof.
  induction l as [|e l IH]; intros a Ha; [reflexivity|].
  cbn [filter map fold_left]. unfold hasScore at 1.
  destruct (Z.gtb_spec (issueScore e) 0).
  - cbn [map fold_left]. apply IH. lia.
  - rewrite IH by assumption. now rewrite Z.max_l by lia.
Qed.

Lemma filter_map_comm {A B : Type} (f : A -> B) (p : B -> bool) l :
  filter p (map f l) = map f (filter (fun x => p (f x)) l).
Proof.
  induction l as [|x l IH]; [reflexivity|].
  cbn [map filter]. destruct (p (f x)); cbn [map]; now rewrite IH.
Qed.

Lemma heatmap_positive_cells namespaceStats :
  Forall (fun h => 1 <= intensity h <-> issueScore (stats_of h) > 0)
         (heatmapEntries namespaceStats).
Proof.
  unfold heatmapEntries.
  destruct (maxScoreOf_spec namespaceStats) as (Hm0 & Hmax & _).
  rewrite Forall_forall in Hmax.
  apply Forall_map_iff, Forall_forall. intros e He. cbn [stats_of intensity].
  rewrite intensityOf_positive. apply ratioOf_positive; auto.
Qed.

(** X8. Heat map intensities lie between 0 and 4 and follow the score:
    a namespace that scores no less than another gets no lower intensity;
    a cell has intensity at least 1 exactly when its score is positive;
    and as soon as one namespace has a positive score, some cell has
    intensity 4. *)
Theorem heatmap_intensity_follows_score (namespaceStats : list NamespacePodStats) :
  let cells := heatmapEntries namespaceStats in
  Forall (fun h => 0 <= intensity h <= 4) cells /\
  (forall h1 h2, In h1 cells -> In h2 cells ->
     issueScore (stats_of h1) <= issueScore (stats_of h2) ->
     intensity h1 <= intensity h2) /\
  Forall (fun h => 1 <= intensity h <-> issueScore (stats_of h) > 0) cells /\
  (Exists (fun entry => issueScore entry > 0) namespaceStats ->
   Exists (fun h => intensity h = 4) cells).
Proof.
  cbv zeta. unfold heatmapEntries.
  destruct (maxScoreOf_spec namespaceStats) as (Hm0 & Hmax & Hex).
  rewrite Forall_forall in Hmax.
  split; [|split; [|split]].
  - apply Forall_map_iff, Forall_forall. intros e _. cbn [intensity].
    apply intensityOf_range.
  - intros h1 h2 H1 H2. apply in_map_iff in H1, H2.
    destruct H1 as (e1 & <- & _), H2 as (e2 & <- & _). cbn [stats_of intensity].
    intros Hle. apply intensityOf_monotone, ratioOf_monotone; assumption.
  - apply heatmap_positive_cells.
  - intros Hpos. apply Exists_exists in Hpos. destruct Hpos as (e & He & Hs).
    specialize (Hmax e He).
    destruct Hex as [Hz|Hex]; [lia|].
    apply Exists_exists in Hex. destruct Hex as (top & Htop & Etop).
    apply Exists_exists.
    exists {| stats_of := top;
              intensity := intensityOf (ratioOf (maxScoreOf namespaceStats) top) |}.
    split.
    + apply in_map_iff. exists top. auto.
    + cbn [intensity]. apply intensityOf_top, ratioOf_top; [lia|exact Etop].
Qed.

Lemma heatmap_intensity_witness :
  let namespaceStats :=
    buildNamespacePodStats
      [mkPod "a" "Running" true 3; mkPod "b" "Failed" true 0;
       mkPod "c" "Running" false 0]
      [("a", 4)] in
  Exists (fun h => intensity h = 4) (heatmapEntries namespaceStats).
Proof.
  intros namespaceStats.
  apply (heatmap_intensity_follows_score namespaceStats).
  apply Exists_cons_hd. vm_compute. reflexivity.
Defined.

(** X9. The "show only issues" switch of the pods page: switched off it
    shows every row and cell; switched on, the heat map cells are those of
    the rows kept in the table, in the same order, each with intensity at
    least 1; and bucketizing before or after the filter gives the same
    cells (rows without a score do not move the maximum). *)
Theorem show_only_issues_views (namespaceStats : list NamespacePodStats) :
  filteredNamespaceStats false namespaceStats = namespaceStats /\
  filteredHeatmapEntries false (heatmapEntries namespaceStats)
    = heatmapEntries namespaceStats /\
  map stats_of (filteredHeatmapEntries true (heatmapEntries namespaceStats))
    = filteredNamespaceStats true namespaceStats /\
  Forall (fun h => 1 <= intensity h)
         (filteredHeatmapEntries true (heatmapEntries namespaceStats)) /\
  filteredHeatmapEntries true (heatmapEntries namespaceStats)
    = heatmapEntries (filteredNamespaceStats true namespaceStats).
Proof.
  split; [reflexivity|]. split; [reflexivity|].
  assert (Hcomm : filteredHeatmapEntries true (heatmapEntries namespaceStats)
                  = heatmapEntries (filteredNamespaceStats true namespaceStats)).
  { unfold filteredHeatmapEntries, filteredNamespaceStats, heatmapEntries.
    cbn [negb]. rewrite filter_map_comm. cbn [stats_of].
    unfold maxScoreOf. rewrite maxScoreOf_filter by lia. reflexivity. }
  split; [|split; [|exact Hcomm]].
  - unfold filteredHeatmapEntries, filteredNamespaceStats, heatmapEntries.
    cbn [negb]. rewrite filter_map_comm, map_map. cbn [stats_of]. apply map_id.
  - pose proof (heatmap_positive_cells namespaceStats) as Hpos.
    unfold filteredHeatmapEntries. cbn [negb].
    rewrite Forall_forall in *. intros h Hh. apply filter_In in Hh.
    destruct Hh as [Hin Hs]. apply (Hpos h Hin).
    unfold hasScore in Hs. destruct (Z.gtb_spec (issueScore (stats_of h)) 0);
      [lia|discriminate].
Qed.

(** ** More on the namespace statistics *)

Section KeyedSum.
Context {X V : Type}.
Variable sel : X -> bool.
Variable key : X -> string.
Variable init : string -> V.
Variable upd : X -> V -> V.
Variable f : V -> Z.
Variable d : X -> Z.
Hypothesis f_init : forall k, f (init k) = 0.
Hypothesis f_upd : forall x v, f (upd x v) = f v + d x.

Lemma keyed_sum xs : forall m,
  sumZ (map f (JsMap.values (fold_left (keyedStep sel key init upd) xs m)))
  = sumZ (map f (JsMap.values m)) + sumZ (map d (filter sel xs)).
Proof.
  induction xs as [|x xs IH]; intros m; cbn [fold_left filter].
  - cbn. lia.
  - rewrite IH. unfold keyedStep. destruct (sel x); [|lia].
    rewrite JsMap_sum_set, f_upd. cbn [map]. rewrite sumZ_cons.
    destruct (JsMap.get m (key x)); cbn [nullish]; rewrite ?f_init; lia.
Qed.
End KeyedSum.

Lemma podStats_column (f : NamespacePodStats -> Z) (d : Pod.t -> Z) pods w :
  (forall k, f (newStats k w) = 0) ->
  (forall pod v, f (countPod pod v) = f v + d pod) ->
  (forall v, f (scoreEntry w v) = f v) ->
  sumZ (map f (buildNamespacePodStats pods w)) = sumZ (map d pods).
Proof.
  intros Hi Hu Hs. unfold buildNamespacePodStats.
  rewrite <- (sumZ_perm _ _ (Permutation_map f (Array_sort_perm compareStats _))).
  rewrite map_map. rewrite (map_ext _ f) by exact Hs.
  rewrite podStats_fold.
  rewrite (keyed_sum (fun _ => true) podNamespace (fun k => newStats k w) countPod
             f d Hi Hu).
  change (sumZ (map f (JsMap.values JsMap.empty))) with 0.
  rewrite Z.add_0_l. f_equal. f_equal.
  induction pods as [|p ps IH]; [reflexivity|]. cbn [filter]. now rewrite IH.
Qed.

Lemma sum_indicator {A : Type} (p : A -> bool) l :
  sumZ (map (fun x => if p x then 1 else 0) l) = countZ p l.
Proof.
  induction l as [|x l IH]; [reflexivity|].
  cbn [map]. rewrite sumZ_cons, countZ_cons, IH. reflexivity.
Qed.

(** X10. Each row of the namespace table is made of the pods of that
    namespace and of nothing else: looking a namespace up gives no row when
    no pod is filed under it, and otherwise the row whose phase counters,
    issue count, restart total and pod total are the counts over exactly
    those pods, with the warning count of the mapping. *)
Theorem namespace_row_counts_its_pods
    (pods : list Pod.t) (w : JsMap.t Z) (ns : string) :
  find (fun entry => String.eqb (namespace entry) ns)
       (buildNamespacePodStats pods w) =
  match podsIn ns pods with
  | [] => None
  | ps =>
      Some
        {| namespace := ns;
           running := countZ (inPhase Running) ps;
           pending := countZ (inPhase Pending) ps;
           failed := countZ (inPhase Failed) ps;
           succeeded := countZ (inPhase Succeeded) ps;
           unknown := countZ (inPhase PhaseUnknown) ps;
           issues := countZ Pod.hasIssues ps;
           restarts := sumZ (map Pod.getRestartsCount ps);
           warningEvents := nullish (JsMap.get w ns) 0;
           issueScore :=
             countZ Pod.hasIssues ps + sumZ (map Pod.getRestartsCount ps)
             + nullish (JsMap.get w ns) 0;
           total := lengthZ ps |}
  end.
Proof. exact (namespace_entry pods w ns). Qed.

(** X11. Every pod is counted in exactly one row: the columns of the
    namespace table add up to the overview's figures on the same pods --
    total pods, running, pending, failed, pods with issues and total
    restarts. *)
Theorem namespace_columns_add_up_to_overview
    (nodes : list Node.t) (pods : list Pod.t) (namespaces : list string)
    (events : list KubeEvent.t) (w : JsMap.t Z) :
  let rows := buildNamespacePodStats pods w in
  let s := summary nodes pods namespaces events in
  sumZ (map total rows) = s_totalPods s /\
  sumZ (map running rows) = s_runningPods s /\
  sumZ (map pending rows) = s_pendingPods s /\
  sumZ (map failed rows) = s_failedPods s /\
  sumZ (map issues rows) = s_podsWithIssues s /\
  sumZ (map restarts rows) = s_totalRestarts s.
Proof.
  cbv zeta. unfold summary.
  cbn [s_totalPods s_runningPods s_pendingPods s_failedPods s_podsWithIssues
       s_totalRestarts].
  destruct (summary_pod_counters pods
              {| pc_runningPods := 0; pc_pendingPods := 0; pc_failedPods := 0;
                 pc_podsWithIssues := 0; pc_totalRestarts := 0 |})
    as (H1 & H2 & H3).
  cbv zeta in *. rewrite H1, H2, H3, summary_failedPods, summary_podsWithIssues.
  cbn [pc_runningPods pc_pendingPods pc_failedPods pc_podsWithIssues
       pc_totalRestarts].
  rewrite !Z.add_0_l.
  assert (Hphase : forall lit ph,
            (forall pod, phaseIs pod lit = inPhase ph pod) ->
            sumZ (map (fun pod => if inPhase ph pod then 1 else 0) pods)
            = countZ (fun pod => phaseIs pod lit) pods).
  { intros lit ph H. rewrite sum_indicator. unfold countZ. f_equal.
    apply filter_ext. intros pod. now rewrite H. }
  assert (Hlit : forall pod,
            phaseIs pod "Running" = inPhase Running pod /\
            phaseIs pod "Pending" = inPhase Pending pod /\
            phaseIs pod "Failed" = inPhase Failed pod).
  { intros pod. unfold phaseIs, inPhase, getPodPhase.
    destruct (Pod.getStatusPhase pod) as [ph|]; [|auto].
    destruct (String.eqb_spec ph "Running") as [->|]; [auto|].
    destruct (String.eqb_spec ph "Pending") as [->|]; [auto|].
    destruct (String.eqb_spec ph "Failed") as [->|]; [auto|].
    destruct (String.eqb ph "Succeeded"); auto. }
  repeat split.
  - rewrite (podStats_column total (fun _ => 1)); try reflexivity.
    clear. induction pods as [|p ps IH]; [reflexivity|].
    cbn [map]. rewrite sumZ_cons, lengthZ_cons, IH. reflexivity.
  - rewrite (podStats_column running
               (fun pod => if inPhase Running pod then 1 else 0)); try reflexivity.
    + apply Hphase. intros pod. apply Hlit.
    + intros pod v. unfold inPhase. cbn. destruct (getPodPhase pod); lia.
  - rewrite (podStats_column pending
               (fun pod => if inPhase Pending pod then 1 else 0)); try reflexivity.
    + apply Hphase. intros pod. apply Hlit.
    + intros pod v. unfold inPhase. cbn. destruct (getPodPhase pod); lia.
  - rewrite (podStats_column failed
               (fun pod => if inPhase Failed pod then 1 else 0)); try reflexivity.
    + apply Hphase. intros pod. apply Hlit.
    + intros pod v. unfold inPhase. cbn. destruct (getPodPhase pod); lia.
  - rewrite (podStats_column issues
               (fun pod => if Pod.hasIssues pod then 1 else 0)); try reflexivity.
    + apply sum_indicator.
    + intros pod v. cbn. destruct (Pod.hasIssues pod); lia.
  - rewrite (podStats_column restarts Pod.getRestartsCount); reflexivity.
Qed.

(** ** Warning events by namespace, looked up *)

Lemma byNamespace_fold events m :
  fold_left warningNsStep events m =
  fold_left
    (keyedStep KubeEvent.isWarning warningNamespace (fun _ => 0)
               (fun e v => v + countOf e))
    events m.
Proof.
  apply fold_left_pointwise. intros a e.
  unfold warningNsStep, keyedStep. destruct (KubeEvent.isWarning e); reflexivity.
Qed.

Lemma add_counts ws : forall v,
  applyUpdates (fun (e : KubeEvent.t) v => v + countOf e) ws v
  = v + sumZ (map countOf ws).
Proof.
  unfold applyUpdates.
  induction ws as [|e ws IH]; intros v; cbn [fold_left map].
  - cbn. lia.
  - rewrite IH, sumZ_cons. lia.
Qed.

Lemma byNamespace_get events ns :
  JsMap.get (buildWarningEventsByNamespace events) ns =
  match warningsIn ns events with
  | [] => None
  | ws => Some (sumZ (map countOf ws))
  end.
Proof.
  unfold buildWarningEventsByNamespace. rewrite byNamespace_fold, keyed_get.
  change (selectedFor KubeEvent.isWarning warningNamespace ns events)
    with (warningsIn ns events).
  destruct (warningsIn ns events) as [|e ws]; [reflexivity|].
  rewrite add_counts. reflexivity.
Qed.

(** X12. Looking a namespace up in the by-namespace warning map gives
    nothing when no warning event is filed under it (own namespace, else
    the involved object's, else "<cluster>"), and otherwise the sum of the
    counts of exactly those warning events; no namespace is held twice. *)
Theorem warnings_by_namespace_lookup (events : list KubeEvent.t) (ns : string) :
  JsMap.get (buildWarningEventsByNamespace events) ns =
    match warningsIn ns events with
    | [] => None
    | ws => Some (sumZ (map countOf ws))
    end /\
  NoDup (JsMap.keys (buildWarningEventsByNamespace events)).
Proof.
  split; [apply byNamespace_get|].
  unfold buildWarningEventsByNamespace. rewrite byNamespace_fold.
  apply keyed_NoDup. constructor.
Qed.

(** X13. Fed with the by-namespace warning map of the same cluster, the
    namespace table shows for each namespace that has pods the sum of the
    counts of its warning events, and shows no row for a namespace without
    pods, whatever warnings were recorded for it. *)
Theorem namespace_rows_with_warnings
    (pods : list Pod.t) (events : list KubeEvent.t) (ns : string) :
  find (fun entry => String.eqb (namespace entry) ns)
       (buildNamespacePodStats pods (buildWarningEventsByNamespace events)) =
  match podsIn ns pods with
  | [] => None
  | ps =>
      Some
        {| namespace := ns;
           running := countZ (inPhase Running) ps;
           pending := countZ (inPhase Pending) ps;
           failed := countZ (inPhase Failed) ps;
           succeeded := countZ (inPhase Succeeded) ps;
           unknown := countZ (inPhase PhaseUnknown) ps;
           issues := countZ Pod.hasIssues ps;
           restarts := sumZ (map Pod.getRestartsCount ps);
           warningEvents := sumZ (map countOf (warningsIn ns events));
           issueScore :=
             countZ Pod.hasIssues ps + sumZ (map Pod.getRestartsCount ps)
             + sumZ (map countOf (warningsIn ns events));
           total := lengthZ ps |}
  end.
Proof.
  rewrite namespace_entry. unfold expectedStats. rewrite byNamespace_get.
  destruct (podsIn ns pods); [reflexivity|].
  destruct (warningsIn ns events); reflexivity.
Qed.

(** ** More on the taint summary *)

Lemma JsSet_has_In s x : JsSet.has s x = true <-> In x s.
Proof.
  unfold JsSet.has. rewrite existsb_exists. split.
  - intros (y & Hy & E). apply String.eqb_eq in E. now subst.
  - intros H. exists x. split; [exact H|apply String.eqb_refl].
Qed.

Lemma addAll_spec xs : forall s,
  NoDup s ->
  NoDup (addAll s xs) /\ (forall x, In x (addAll s xs) <-> In x s \/ In x xs).
Proof.
  unfold addAll.
  induction xs as [|y xs IH]; intros s Hs; cbn [fold_left].
  - split; [exact Hs|]. intros x. cbn. tauto.
  - assert (Hadd : NoDup (JsSet.add s y) /\
                   forall x, In x (JsSet.add s y) <-> In x s \/ x = y).
    { unfold JsSet.add. destruct (JsSet.has s y) eqn:E.
      - split; [exact Hs|]. intros x. split; [tauto|].
        intros [H| ->]; [exact H|]. now apply JsSet_has_In.
      - assert (~ In y s).
        { intros H. apply JsSet_has_In in H. congruence. }
        split.
        + apply NoDup_rev in Hs. rewrite <- (rev_involutive (s ++ [y])%list).
          apply NoDup_rev. rewrite rev_app_distr. cbn [rev app].
          constructor; [now rewrite <- in_rev|exact Hs].
        + intros x. rewrite in_app_iff. cbn. intuition. }
    destruct Hadd as [Hnd Hin]. destruct (IH _ Hnd) as [H1 H2].
    split; [exact H1|]. intros x. rewrite H2, Hin. cbn. intuition.
Qed.

Lemma recordTaint_all vs : forall v,
  applyUpdates recordTaint vs v =
  {| td_nodes :=
       addAll (td_nodes v) (map (fun visit => Node.getName (fst visit)) vs);
     td_occurrences := td_occurrences v + lengthZ vs |}.
Proof.
  unfold applyUpdates, addAll.
  induction vs as [|x vs IH]; intros v; cbn [fold_left map].
  - destruct v. cbn. f_equal. lia.
  - rewrite IH. cbn [recordTaint td_nodes td_occurrences].
    rewrite lengthZ_cons. f_equal. lia.
Qed.

Lemma JsSet_add_nonempty s x : 1 <= JsSet.size (JsSet.add s x).
Proof.
  unfold JsSet.add, JsSet.size. destruct (JsSet.has s x) eqn:E.
  - apply JsSet_has_In in E. destruct s; [destruct E|]. cbn [List.length]. lia.
  - rewrite length_app. cbn [List.length]. lia.
Qed.

Lemma keyed_Forall_updated {X V : Type} (sel : X -> bool) (key : X -> string)
    (init : string -> V) (upd : X -> V -> V) (Q : string * V -> Prop) :
  (forall x v, sel x = true -> Q (key x, upd x v)) ->
  forall xs m, Forall Q m -> Forall Q (fold_left (keyedStep sel key init upd) xs m).
Proof.
  intros Hupd xs. induction xs as [|x xs IH]; intros m H; [assumption|].
  cbn [fold_left]. apply IH. unfold keyedStep.
  destruct (sel x) eqn:Hs; auto. apply JsMap_Forall_set; auto.
Qed.

Section TaintSummaryMore.
Variable formatNodeTaint : NodeTaint -> string.

Lemma taint_items_labels nodes :
  Permutation
    (map TaintSummaryItem.taint (buildTaintSummary formatNodeTaint nodes))
    (JsMap.keys (fold_left (taintNodeStep formatNodeTaint) nodes JsMap.empty)).
Proof.
  unfold buildTaintSummary.
  rewrite <- (Permutation_map _ (Array_sort_perm _ _)).
  unfold JsMap.entries, JsMap.keys. rewrite map_map. reflexivity.
Qed.

Lemma taint_items_NoDup nodes :
  NoDup (map TaintSummaryItem.taint (buildTaintSummary formatNodeTaint nodes)).
Proof.
  eapply Permutation_NoDup; [symmetry; apply taint_items_labels|].
  rewrite taint_fold. apply keyed_NoDup. constructor.
Qed.

(** X14. The row of a taint label in the taint summary: none when no
    node carries the label; otherwise one row whose occurrence count is
    the number of (node, taint) pairs with that label and whose node count
    is the number of distinct names among their nodes. Every row has at
    least one node, and the occurrence counts add up to the number of
    taints of all nodes. *)
Theorem taint_row_counts_label (nodes : list Node.t) (label : string) :
  find (fun item => String.eqb (TaintSummaryItem.taint item) label)
       (buildTaintSummary formatNodeTaint nodes) =
    match visitsOf formatNodeTaint label nodes with
    | [] => None
    | vs =>
        Some
          {| TaintSummaryItem.taint := label;
             TaintSummaryItem.nodes :=
               lengthZ (nodup string_dec
                          (map (fun visit => Node.getName (fst visit)) vs));
             TaintSummaryItem.occurrences := lengthZ vs |}
    end /\
  Forall (fun item => 1 <= TaintSummaryItem.nodes item)
         (buildTaintSummary formatNodeTaint nodes) /\
  sumZ (map TaintSummaryItem.occurrences (buildTaintSummary formatNodeTaint nodes))
    = sumZ (map (fun node => lengthZ (Node.getTaints node)) nodes).
Proof.
  split; [|split].
  - pose proof (keyed_get (fun _ => true)
                  (fun visit : Node.t * NodeTaint => formatNodeTaint (snd visit))
                  (fun _ => {| td_nodes := JsSet.empty; td_occurrences := 0 |})
                  recordTaint (taintVisits nodes) JsMap.empty label) as Hget.
    rewrite <- taint_fold in Hget.
    change (selectedFor (fun _ => true)
              (fun visit : Node.t * NodeTaint => formatNodeTaint (snd visit))
              label (taintVisits nodes))
      with (visitsOf formatNodeTaint label nodes) in Hget.
    destruct (visitsOf formatNodeTaint label nodes) as [|v0 vs0] eqn:Evs.
    + apply find_by_key_none. intros Hin.
      apply (Permutation_in _ (taint_items_labels nodes)) in Hin.
      apply JsMap_get_None in Hget. contradiction.
    + set (vs := v0 :: vs0) in *.
      rewrite recordTaint_all in Hget.
      cbn [JsMap.get JsMap.empty nullish td_nodes td_occurrences] in Hget.
      rewrite Z.add_0_l in Hget.
      apply JsMap_get_In in Hget.
      apply (in_map (taintItem)) in Hget.
      apply (Array_sort_In
               (fun a b => TaintSummaryItem.occurrences b
                           - TaintSummaryItem.occurrences a)) in Hget.
      fold (JsMap.entries
              (fold_left (taintNodeStep formatNodeTaint) nodes JsMap.empty)) in Hget.
      fold (buildTaintSummary formatNodeTaint nodes) in Hget.
      apply (find_by_key TaintSummaryItem.taint _ _ (taint_items_NoDup nodes))
        in Hget.
      cbn [taintItem fst snd TaintSummaryItem.taint] in Hget.
      rewrite Hget. cbn [td_nodes td_occurrences].
      set (names := map (fun visit : Node.t * NodeTaint => Node.getName (fst visit)) vs).
      assert (Hsize : JsSet.size (addAll JsSet.empty names)
                      = lengthZ (nodup string_dec names)).
      { destruct (addAll_spec names JsSet.empty (NoDup_nil _)) as [Hnd Hin].
        unfold JsSet.size, lengthZ. f_equal. apply Permutation_length.
        apply NoDup_Permutation; [exact Hnd|apply NoDup_nodup|].
        intros x. rewrite Hin, nodup_In. cbn. tauto. }
      unfold taintItem. cbn [fst snd td_nodes td_occurrences].
      rewrite Hsize. reflexivity.
  - unfold buildTaintSummary. apply Array_sort_Forall. apply Forall_map_iff.
    unfold JsMap.entries. rewrite taint_fold.
    apply (keyed_Forall_updated _ _ _ _
             (fun e => 1 <= JsSet.size (td_nodes (snd e)))).
    + intros visit v _. cbn [snd recordTaint td_nodes]. apply JsSet_add_nonempty.
    + constructor.
  - unfold buildTaintSummary.
    rewrite <- (sumZ_perm _ _ (Permutation_map _ (Array_sort_perm _ _))).
    unfold JsMap.entries. rewrite map_map.
    change (fun x => TaintSummaryItem.occurrences (taintItem x))
      with (fun x : string * TaintData => td_occurrences (snd x)).
    rewrite <- (map_map snd td_occurrences).
    fold (JsMap.values (fold_left (taintNodeStep formatNodeTaint) nodes JsMap.empty)).
    rewrite taint_fold.
    rewrite (keyed_sum (fun _ => true) _ _ recordTaint td_occurrences (fun _ => 1));
      [|reflexivity|reflexivity].
    change (sumZ (map td_occurrences (JsMap.values JsMap.empty))) with 0.
    rewrite Z.add_0_l. clear.
    induction nodes as [|node nodes IH]; [reflexivity|].
    cbn [taintVisits flat_map map]. rewrite sumZ_cons, <- IH.
    fold (taintVisits nodes).
    assert (Hf : forall (l : list (Node.t * NodeTaint)),
              filter (fun _ => true) l = l).
    { induction l as [|a l IHl]; [reflexivity|]. cbn [filter]. now rewrite IHl. }
    rewrite !Hf, map_app, sumZ_app. f_equal.
    generalize (Node.getTaints node). intros ts.
    induction ts as [|t ts IHt]; [reflexivity|].
    cbn [map]. rewrite sumZ_cons, lengthZ_cons, IHt. reflexivity.
Qed.
End TaintSummaryMore.

(** ** Order of ties *)

Lemma insertSorted_filter {A : Type} (cmp : A -> A -> Z) (p : A -> bool) :
  (forall x y, p x = true -> p y = true -> cmp x y <= 0) ->
  forall x l, filter p (insertSorted cmp x l) = filter p (x :: l).
Proof.
  intros Hp x l. induction l as [|y l IH]; [reflexivity|].
  cbn [insertSorted]. destruct (Z.leb_spec (cmp x y) 0) as [Hle|Hgt]; [reflexivity|].
  cbn [filter] in *. rewrite IH.
  destruct (p x) eqn:Ex, (p y) eqn:Ey; try reflexivity.
  specialize (Hp x y Ex Ey). lia.
Qed.

Lemma Array_sort_stable {A : Type} (cmp : A -> A -> Z) (p : A -> bool) :
  (forall x y, p x = true -> p y = true -> cmp x y <= 0) ->
  forall l, filter p (Array_sort cmp l) = filter p l.
Proof.
  intros Hp l. induction l as [|x l IH]; [reflexivity|].
  cbn [Array_sort fold_right]. fold (Array_sort cmp l).
  rewrite insertSorted_filter by assumption. cbn [filter]. now rewrite IH.
Qed.

Lemma filter_filter {A : Type} (p q : A -> bool) l :
  filter p (filter q l) = filter (fun x => q x && p x) l.
Proof.
  induction l as [|x l IH]; [reflexivity|].
  cbn [filter]. destruct (q x); cbn [filter andb]; rewrite IH; reflexivity.
Qed.

Lemma JsSet_has_false s x : JsSet.has s x = false <-> ~ In x s.
Proof.
  rewrite <- JsSet_has_In. destruct (JsSet.has s x); split; congruence.
Qed.

Lemma addAll_firstOccurrences xs : forall s,
  addAll s xs
  = (s ++ filter (fun y => negb (JsSet.has s y)) (firstOccurrences xs))%list.
Proof.
  unfold addAll.
  induction xs as [|x xs IH]; intros s; cbn [fold_left firstOccurrences filter].
  - now rewrite app_nil_r.
  - rewrite IH. unfold JsSet.add. destruct (JsSet.has s x) eqn:E; cbn [negb].
    + rewrite filter_filter. f_equal. apply filter_ext_in. intros y _.
      destruct (String.eqb_spec y x) as [->|]; [now rewrite E|].
      cbn [negb andb]. reflexivity.
    + rewrite <- app_assoc. cbn [app]. f_equal. f_equal.
      rewrite filter_filter. apply filter_ext. intros y.
      unfold JsSet.has. rewrite existsb_app. cbn [existsb].
      rewrite orb_false_r, negb_orb, andb_comm.
      fold (JsSet.has s y). f_equal.
Qed.

Lemma JsSet_has_keys {V : Type} (m : JsMap.t V) k :
  JsSet.has (JsMap.keys m) k =
  match JsMap.get m k with Some _ => true | None => false end.
Proof.
  destruct (JsMap.get m k) eqn:E.
  - apply JsSet_has_In.
    apply JsMap_get_In in E. change k with (fst (k, v)). now apply in_map.
  - apply JsSet_has_false. now apply JsMap_get_None.
Qed.

Lemma keyed_keys_order {X V : Type} (sel : X -> bool) (key : X -> string)
    (init : string -> V) (upd : X -> V -> V) xs : forall m,
  JsMap.keys (fold_left (keyedStep sel key init upd) xs m)
  = addAll (JsMap.keys m) (map key (filter sel xs)).
Proof.
  unfold addAll.
  induction xs as [|x xs IH]; intros m; cbn [fold_left filter]; [reflexivity|].
  rewrite IH. unfold keyedStep. destruct (sel x); [|reflexivity].
  cbn [map fold_left]. f_equal.
  rewrite JsMap_keys_set. unfold JsSet.add. rewrite JsSet_has_keys.
  destruct (JsMap.get m (key x)); reflexivity.
Qed.

Lemma map_fst_filter {A B : Type} (p : A * B -> bool) (q : A -> bool)
    (l : list (A * B)) :
  Forall (fun e => p e = q (fst e)) l ->
  map fst (filter p l) = filter q (map fst l).
Proof.
  induction 1 as [|e l He _ IH]; [reflexivity|].
  cbn [filter map]. rewrite He. destruct (q (fst e)); cbn [map]; now rewrite IH.
Qed.

Lemma reason_counts events :
  Forall
    (fun e : string * ReasonData =>
       rd_count (snd e) = sumZ (map countOf (warningsFor (fst e) events)))
    (fold_left warningReasonStep events JsMap.empty).
Proof.
  apply Forall_forall. intros [k v] Hin. cbn [fst snd].
  assert (Hnd : NoDup (JsMap.keys (fold_left warningReasonStep events JsMap.empty))).
  { rewrite reason_fold. apply keyed_NoDup. constructor. }
  apply (JsMap_In_get _ _ _ Hnd) in Hin.
  rewrite reason_fold, keyed_get in Hin.
  change (selectedFor KubeEvent.isWarning reasonOf k events)
    with (warningsFor k events) in Hin.
  destruct (warningsFor k events) as [|e0 ms]; [discriminate|].
  rewrite recordWarning_all in Hin by (cbn; lia).
  cbn [JsMap.get JsMap.empty nullish rd_count] in Hin.
  injection Hin as <-. cbn [rd_count]. reflexivity.
Qed.

(** X15. Reasons whose counts tie keep the order in which they first
    occur among the warning events: for every count [c], the reasons of
    the by-reason summary that total [c], read top to bottom, are the
    reasons in first-occurrence order that total [c]. *)
Theorem warning_reason_ties_keep_first_occurrence
    (events : list KubeEvent.t) (c : Z) :
  map WarningReasonSummary.reason
      (filter (fun item => WarningReasonSummary.count item =? c)
              (buildWarningReasons events))
  = filter (fun r => sumZ (map countOf (warningsFor r events)) =? c)
           (firstOccurrences (map reasonOf (filter KubeEvent.isWarning events))).
Proof.
  unfold buildWarningReasons.
  rewrite Array_sort_stable
    by (intros x y Hx Hy; apply Z.eqb_eq in Hx, Hy; lia).
  unfold JsMap.entries. rewrite filter_map_comm, map_map.
  change (fun x => WarningReasonSummary.reason (reasonItem x))
    with (@fst string ReasonData).
  rewrite (map_fst_filter _
             (fun r => sumZ (map countOf (warningsFor r events)) =? c)).
  - f_equal. fold (JsMap.keys (fold_left warningReasonStep events JsMap.empty)).
    rewrite reason_fold, keyed_keys_order, addAll_firstOccurrences.
    cbn [JsMap.keys JsMap.empty map app].
    rewrite <- (filter_ext (fun _ => true)) by reflexivity.
    clear. generalize (firstOccurrences (map reasonOf (filter KubeEvent.isWarning events))).
    intros l. induction l as [|x l IH]; [reflexivity|]. cbn [filter]. now rewrite IH.
  - eapply Forall_impl; [|apply reason_counts].
    intros [k v] H. cbn [reasonItem WarningReasonSummary.count fst snd] in *.
    now rewrite H.
Qed.

(** ** The two by-reason summaries *)

Lemma Array_sort_map {A B : Type} (f : A -> B) (cmpA : A -> A -> Z)
    (cmpB : B -> B -> Z) :
  (forall x y, cmpB (f x) (f y) = cmpA x y) ->
  forall l, Array_sort cmpB (map f l) = map f (Array_sort cmpA l).
Proof.
  intros H l. induction l as [|x l IH]; [reflexivity|].
  cbn [map Array_sort fold_right].
  fold (Array_sort cmpB (map f l)). fold (Array_sort cmpA l). rewrite IH.
  generalize (Array_sort cmpA l). intros s.
  induction s as [|y s IHs]; [reflexivity|].
  cbn [map insertSorted]. rewrite H.
  destruct (cmpA x y <=? 0); cbn [map]; [reflexivity|]. now rewrite IHs.
Qed.

Lemma JsMap_get_map {V W : Type} (g : V -> W) (m : JsMap.t V) k :
  JsMap.get (map (fun e => (fst e, g (snd e))) m) k
  = option_map g (JsMap.get m k).
Proof.
  induction m as [|[k0 v0] m IH]; [reflexivity|].
  cbn [map JsMap.get fst snd]. destruct (String.eqb k0 k); [reflexivity|exact IH].
Qed.

Lemma JsMap_set_map {V W : Type} (g : V -> W) (m : JsMap.t V) k v :
  map (fun e => (fst e, g (snd e))) (JsMap.set m k v)
  = JsMap.set (map (fun e => (fst e, g (snd e))) m) k (g v).
Proof.
  induction m as [|[k0 v0] m IH]; [reflexivity|].
  cbn [map JsMap.set fst snd].
  destruct (String.eqb k0 k); cbn [map fst snd]; [reflexivity|]. now rewrite IH.
Qed.

Lemma reasons_simulation events : forall m,
  map (fun e => (fst e, rd_count (snd e))) (fold_left warningReasonStep events m)
  = fold_left warningReasonStep_sre events
              (map (fun e => (fst e, rd_count (snd e))) m).
Proof.
  induction events as [|e events IH]; intros m; [reflexivity|].
  cbn [fold_left]. rewrite IH. f_equal.
  unfold warningReasonStep, warningReasonStep_sre.
  destruct (KubeEvent.isWarning e); cbn [negb]; [|reflexivity].
  rewrite JsMap_set_map, JsMap_get_map. cbn [rd_count].
  destruct (JsMap.get m (reasonOf e)); reflexivity.
Qed.

(** X16. The SRE stats page and the events page agree on the warning
    reasons: on the same events the count-only summary of the SRE stats
    page is the by-reason summary of the events page with the namespaces
    and resources left out -- same reasons, same counts, same order. *)
Theorem warning_reasons_agree_across_pages (events : list KubeEvent.t) :
  buildWarningReasons_sre events =
  map (fun item =>
         {| rc_reason := WarningReasonSummary.reason item;
            rc_count := WarningReasonSummary.count item |})
      (buildWarningReasons events).
Proof.
  unfold buildWarningReasons_sre, buildWarningReasons, JsMap.entries.
  rewrite <- (Array_sort_map _ _ (fun a b => rc_count b - rc_count a))
    by reflexivity.
  f_equal. rewrite map_map.
  pose proof (reasons_simulation events JsMap.empty) as H.
  change (map (fun e : string * ReasonData => (fst e, rd_count (snd e))) JsMap.empty)
    with (@JsMap.empty Z) in H.
  rewrite <- H, map_map. reflexivity.
Qed.

(** ** Events page *)

Lemma keyed_entries {X V : Type} (sel : X -> bool) (key : X -> string)
    (init : string -> V) (upd : X -> V -> V) xs :
  Forall
    (fun e : string * V =>
       selectedFor sel key (fst e) xs <> [] /\
       snd e = applyUpdates upd (selectedFor sel key (fst e) xs) (init (fst e)))
    (fold_left (keyedStep sel key init upd) xs JsMap.empty).
Proof.
  apply Forall_forall. intros [k v] Hin. cbn [fst snd].
  assert (Hnd : NoDup (JsMap.keys (fold_left (keyedStep sel key init upd) xs
                                             JsMap.empty))).
  { apply keyed_NoDup. constructor. }
  apply (JsMap_In_get _ _ _ Hnd) in Hin. rewrite keyed_get in Hin.
  destruct (selectedFor sel key k xs) as [|x0 ms]; [discriminate|].
  split; [discriminate|]. cbn [JsMap.get JsMap.empty nullish] in Hin. congruence.
Qed.

Lemma In_firstn {A : Type} n (l : list A) x : In x (firstn n l) -> In x l.
Proof.
  intros H. rewrite <- (firstn_skipn n l). apply in_or_app. now left.
Qed.

Lemma NoDup_firstn {A : Type} n (l : list A) : NoDup l -> NoDup (firstn n l).
Proof.
  revert l. induction n as [|n IH]; intros l H; [constructor|].
  destruct l as [|a l]; [constructor|]. cbn [firstn].
  inversion H as [|? ? Hnot Hnd]; subst. constructor; [|now apply IH].
  intros Hin. apply Hnot. now apply In_firstn in Hin.
Qed.

Lemma namespaceEvent_all evs : forall v,
  applyUpdates
    (fun (event : KubeEvent.t) entry =>
       {| ne_warnings :=
            if KubeEvent.isWarning event then ne_warnings entry + countOf event
            else ne_warnings entry;
          ne_total := ne_total entry + countOf event |})
    evs v
  = {| ne_warnings :=
         ne_warnings v + sumZ (map countOf (filter KubeEvent.isWarning evs));
       ne_total := ne_total v + sumZ (map countOf evs) |}.
Proof.
  unfold applyUpdates.
  induction evs as [|e evs IH]; intros v; cbn [fold_left map filter].
  - destruct v. cbn. f_equal; lia.
  - rewrite IH. cbn [ne_warnings ne_total]. rewrite sumZ_cons.
    destruct (KubeEvent.isWarning e); cbn [map]; rewrite ?sumZ_cons; f_equal; lia.
Qed.

Lemma filter_true {A : Type} (l : list A) : filter (fun _ => true) l = l.
Proof.
  induction l as [|a l IH]; [reflexivity|]. cbn [filter]. now rewrite IH.
Qed.

(** X17. The "top namespaces by warning count" table of the events page
    has at most ten rows, one per namespace, in descending order of
    warnings; each row's total is the sum of the counts of the events of
    its namespace (involved object's namespace, "cluster" when missing or
    empty) and its warnings the sum over the warning events among them. *)
Theorem namespace_event_counts_rows (events : list KubeEvent.t) :
  let rows := namespaceEventCounts events in
  (List.length rows <= 10)%nat /\
  NoDup (map nec_namespace rows) /\
  StronglySorted byWarningsDesc rows /\
  Forall
    (fun row =>
       eventsIn (nec_namespace row) events <> [] /\
       nec_total row = sumZ (map countOf (eventsIn (nec_namespace row) events)) /\
       nec_warnings row
         = sumZ (map countOf
                   (filter KubeEvent.isWarning (eventsIn (nec_namespace row) events))))
    rows.
Proof.
  cbv zeta. unfold namespaceEventCounts, JsMap.entries.
  set (upd := fun (event : KubeEvent.t) entry =>
       {| ne_warnings :=
            if KubeEvent.isWarning event then ne_warnings entry + countOf event
            else ne_warnings entry;
          ne_total := ne_total entry + countOf event |}).
  change (fold_left namespaceEventStep events JsMap.empty)
    with (fold_left
            (keyedStep (fun _ => true) eventNamespace
                       (fun _ => {| ne_warnings := 0; ne_total := 0 |}) upd)
            events JsMap.empty).
  set (m := fold_left _ events JsMap.empty).
  set (cmp := fun a b => nec_warnings b - nec_warnings a).
  split; [apply firstn_le_length|]. split; [|split].
  - rewrite <- firstn_map. apply NoDup_firstn.
    eapply Permutation_NoDup;
      [apply Permutation_map, Array_sort_perm|].
    rewrite map_map. change (map _ m) with (JsMap.keys m).
    apply keyed_NoDup. constructor.
  - apply StronglySorted_firstn.
    apply Array_sort_sorted; unfold cmp, byWarningsDesc; intros; lia.
  - apply Forall_forall. intros row Hrow. apply In_firstn in Hrow.
    apply Array_sort_In in Hrow. apply in_map_iff in Hrow.
    destruct Hrow as ([k v] & <- & Hin).
    pose proof (keyed_entries (fun _ => true) eventNamespace
                  (fun _ => {| ne_warnings := 0; ne_total := 0 |}) upd events) as H.
    rewrite Forall_forall in H. specialize (H _ Hin). cbn [fst snd] in H.
    change (selectedFor (fun _ => true) eventNamespace k events)
      with (eventsIn k events) in H.
    destruct H as [Hne Hv]. unfold upd in Hv. rewrite namespaceEvent_all in Hv.
    cbn [namespaceEventItem nec_namespace nec_total nec_warnings fst snd].
    rewrite Hv. cbn [ne_warnings ne_total]. repeat split; auto.
Qed.

Section EventsPageFacts.
Variable lastTimestamp : KubeEvent.t -> option string.
Variable firstTimestamp : KubeEvent.t -> option string.
Variable Date_getTime : string -> option Z.

Lemma keptByFilter_warnings now tf e :
  keptByFilter lastTimestamp firstTimestamp Date_getTime now tf true e
  = keptByFilter lastTimestamp firstTimestamp Date_getTime now tf false e
    && KubeEvent.isWarning e.
Proof.
  unfold keptByFilter.
  destruct (match truthy (lastTimestamp e) with
            | Some t => Some t
            | None => truthy (firstTimestamp e)
            end) as [t|]; [destruct (Date_getTime t) as [tm|]|];
    try destruct (now - tm >? getTimeFilterMs tf);
    destruct (KubeEvent.isWarning e); reflexivity.
Qed.

Lemma warningReason_skips l : forall m,
  fold_left warningReasonStep (filter KubeEvent.isWarning l) m
  = fold_left warningReasonStep l m.
Proof.
  induction l as [|e l IH]; intros m; [reflexivity|].
  cbn [filter fold_left]. destruct (KubeEvent.isWarning e) eqn:E.
  - cbn [fold_left]. apply IH.
  - rewrite IH. f_equal. unfold warningReasonStep. now rewrite E.
Qed.

(** X18. The "show only warnings" switch of the events page leaves the
    warning figures alone: it keeps exactly the warning events of the time
    window, so the warning reasons table and the warnings card are the
    same either way, while the normal and other cards drop to 0 and the
    total card equals the warnings card. *)
Theorem show_only_warnings_keeps_warning_figures
    (now : Z) (timeFilter : TimeFilter) (events : list KubeEvent.t) :
  let inWindow :=
    filteredEvents lastTimestamp firstTimestamp Date_getTime now timeFilter false
                   events in
  let shown :=
    filteredEvents lastTimestamp firstTimestamp Date_getTime now timeFilter true
                   events in
  shown = filter KubeEvent.isWarning inWindow /\
  buildWarningReasons shown = buildWarningReasons inWindow /\
  warnings (eventSummary shown) = warnings (eventSummary inWindow) /\
  normals (eventSummary shown) = 0 /\
  others (eventSummary shown) = 0 /\
  es_total (eventSummary shown) = warnings (eventSummary shown).
Proof.
  cbv zeta. unfold filteredEvents.
  set (inWindow :=
         filter (keptByFilter lastTimestamp firstTimestamp Date_getTime now
                              timeFilter false) events).
  assert (Hs : filter (keptByFilter lastTimestamp firstTimestamp Date_getTime now
                                    timeFilter true) events
               = filter KubeEvent.isWarning inWindow).
  { unfold inWindow. rewrite filter_filter. apply filter_ext.
    intros e. apply keptByFilter_warnings. }
  rewrite Hs. split; [reflexivity|].
  assert (Hall : forall e, In e (filter KubeEvent.isWarning inWindow) ->
                           KubeEvent.isWarning e = true).
  { intros e He. apply filter_In in He. tauto. }
  assert (Hw : warningTotal (filter KubeEvent.isWarning inWindow)
               = warningTotal inWindow).
  { unfold warningTotal. rewrite filter_filter. f_equal. f_equal.
    apply filter_ext. intros e. apply andb_diag. }
  assert (Hsum : sumZ (map countOf (filter KubeEvent.isWarning inWindow))
                 = warningTotal inWindow) by reflexivity.
  unfold eventSummary. cbn [warnings normals others es_total].
  destruct (eventSummary_fold (filter KubeEvent.isWarning inWindow)
              {| ec_warnings := 0; ec_normals := 0; ec_others := 0 |}) as (H1 & H2).
  cbv zeta in *. rewrite !eventSummary_warnings in *.
  cbn [ec_warnings ec_normals ec_others] in *. rewrite Hw in *.
  assert (Hn : filter (fun e => negb (KubeEvent.isWarning e) && isNormalType e)
                      (filter KubeEvent.isWarning inWindow) = []).
  { rewrite filter_filter.
    clear. induction inWindow as [|e l IH]; [reflexivity|].
    cbn [filter]. destruct (KubeEvent.isWarning e); cbn; exact IH. }
  rewrite Hn in H1. cbn in H1.
  repeat split; try lia.
  unfold buildWarningReasons. now rewrite warningReason_skips.
Qed.

Lemma keptByFilter_wider now tf tf' show e :
  timeFilterLe tf tf' ->
  keptByFilter lastTimestamp firstTimestamp Date_getTime now tf show e = true ->
  keptByFilter lastTimestamp firstTimestamp Date_getTime now tf' show e = true.
Proof.
  unfold timeFilterLe, keptByFilter. intros Hle.
  destruct (match truthy (lastTimestamp e) with
            | Some t => Some t
            | None => truthy (firstTimestamp e)
            end) as [t|]; [destruct (Date_getTime t) as [tm|]|]; auto.
  destruct (Z.gtb_spec (now - tm) (getTimeFilterMs tf)); [discriminate|].
  destruct (Z.gtb_spec (now - tm) (getTimeFilterMs tf')); [lia|auto].
Qed.

(** X19. Widening the time range of the events page never hides an
    event: what a narrower range keeps, a wider one keeps too, in the same
    order (1h, 6h, 24h, 7d and all time widen in that order); and an event
    without a usable timestamp, or whose date does not parse, passes every
    time range. *)
Theorem time_filter_widens
    (now : Z) (narrow wide : TimeFilter) (showOnlyWarnings : bool)
    (events : list KubeEvent.t) :
  (timeFilterLe last1h last6h /\ timeFilterLe last6h last24h /\
   timeFilterLe last24h last7d /\ timeFilterLe last7d allTime) /\
  (timeFilterLe narrow wide ->
   filteredEvents lastTimestamp firstTimestamp Date_getTime now narrow
                  showOnlyWarnings events
   = filter (keptByFilter lastTimestamp firstTimestamp Date_getTime now narrow
                          showOnlyWarnings)
            (filteredEvents lastTimestamp firstTimestamp Date_getTime now wide
                            showOnlyWarnings events)) /\
  (forall e,
     In e events ->
     (truthy (lastTimestamp e) = None /\ truthy (firstTimestamp e) = None) \/
     (exists t, truthy (lastTimestamp e) = Some t /\ Date_getTime t = None) ->
     showOnlyWarnings = false \/ KubeEvent.isWarning e = true ->
     In e (filteredEvents lastTimestamp firstTimestamp Date_getTime now narrow
                          showOnlyWarnings events)).
Proof.
  split; [|split].
  - unfold timeFilterLe. cbn. repeat split; discriminate.
  - intros Hle. unfold filteredEvents. rewrite filter_filter.
    apply filter_ext. intros e.
    destruct (keptByFilter _ _ _ now narrow showOnlyWarnings e) eqn:E.
    + now rewrite (keptByFilter_wider _ _ _ _ _ Hle E).
    + symmetry. apply andb_false_r.
  - intros e Hin Hts Hshow. unfold filteredEvents. apply filter_In.
    split; [exact Hin|]. unfold keptByFilter.
    assert (Hw : showOnlyWarnings && negb (KubeEvent.isWarning e) = false).
    { destruct Hshow as [->| ->]; [reflexivity|apply andb_false_r]. }
    destruct Hts as [[-> ->]|(t & -> & ->)]; now rewrite Hw.
Qed.
End EventsPageFacts.

(** ** Short taint labels *)

Lemma stripPrefix_app p s : stripPrefix p (p ++ s) = Some s.
Proof.
  induction p as [|c p IH]; [reflexivity|].
  cbn. now rewrite Ascii.eqb_refl.
Qed.

Lemma stripPrefix_Some p : forall s r, stripPrefix p s = Some r -> s = p ++ r.
Proof.
  induction p as [|c p IH]; intros s r H; cbn in *; [congruence|].
  destruct s as [|d s]; [discriminate|].
  destruct (Ascii.eqb_spec c d) as [->|]; [|discriminate].
  f_equal. now apply IH.
Qed.

Lemma hasColon_app a b : hasColon (a ++ b) = hasColon a || hasColon b.
Proof.
  induction a as [|c a IH]; [reflexivity|].
  cbn. destruct (Ascii.eqb c ":"%char); [reflexivity|exact IH].
Qed.

Lemma split_at_colon s : s = beforeColon s ++ fromColon s.
Proof.
  induction s as [|c s IH]; [reflexivity|].
  cbn. destruct (Ascii.eqb c ":"%char); [reflexivity|]. cbn. now f_equal.
Qed.

Lemma beforeColon_noColon s : hasColon (beforeColon s) = false.
Proof.
  induction s as [|c s IH]; [reflexivity|].
  cbn. destruct (Ascii.eqb c ":"%char) eqn:E; [reflexivity|]. cbn. now rewrite E.
Qed.

Lemma fromColon_noColon s : hasColon s = false -> fromColon s = "".
Proof.
  induction s as [|c s IH]; [reflexivity|].
  cbn. destruct (Ascii.eqb c ":"%char); [discriminate|exact IH].
Qed.

Lemma colon_run x r :
  hasColon x = false ->
  beforeColon (x ++ ":" ++ r) = x /\ fromColon (x ++ ":" ++ r) = ":" ++ r.
Proof.
  induction x as [|c x IH]; intros H; [split; reflexivity|].
  cbn in *. destruct (Ascii.eqb c ":"%char); [discriminate|].
  destruct (IH H) as [H1 H2]. split; [now f_equal|exact H2].
Qed.

Lemma matchIntent_complete s g :
  matchIntentNoSchedule s = Some g ->
  s = "intent=" ++ g ++ ":NoSchedule" /\ g <> "" /\ hasColon g = false.
Proof.
  unfold matchIntentNoSchedule.
  destruct (stripPrefix "intent=" s) as [rest|] eqn:Ep; [|discriminate].
  destruct (String.eqb_spec (beforeColon rest) "") as [|Hne]; [discriminate|].
  destruct (String.eqb_spec (fromColon rest) ":NoSchedule") as [Ht|];
    [|discriminate].
  cbn [negb andb]. intros H. injection H as <-.
  apply stripPrefix_Some in Ep. repeat split.
  - rewrite Ep at 1. f_equal. rewrite <- Ht. apply split_at_colon.
  - exact Hne.
  - apply beforeColon_noColon.
Qed.

Lemma matchIntent_sound g :
  g <> "" -> hasColon g = false ->
  matchIntentNoSchedule ("intent=" ++ g ++ ":NoSchedule") = Some g.
Proof.
  intros Hne Hc. unfold matchIntentNoSchedule. rewrite stripPrefix_app.
  change (g ++ ":NoSchedule") with (g ++ ":" ++ "NoSchedule").
  destruct (colon_run g "NoSchedule" Hc) as [-> ->].
  destruct (String.eqb_spec g ""); [contradiction|]. reflexivity.
Qed.

Lemma matchIntent_noColon s : hasColon s = false -> matchIntentNoSchedule s = None.
Proof.
  intros H. destruct (matchIntentNoSchedule s) as [g|] eqn:E; [|reflexivity].
  apply matchIntent_complete in E. destruct E as (-> & _ & _).
  rewrite !hasColon_app in H. cbn in H.
  rewrite orb_true_r in H. discriminate.
Qed.

(** X20. The short form of a taint label: a label [intent=<x>:NoSchedule]
    with a non-empty, colon-free <x> is shortened to <x>; every other
    label is shown unchanged; and shortening is idempotent (a shortened
    label is never shortened again). *)
Theorem format_taint_short_rule (taintStr : string) :
  (forall x, x <> "" -> hasColon x = false ->
     formatTaintShort ("intent=" ++ x ++ ":NoSchedule") = x) /\
  (formatTaintShort taintStr = taintStr \/
   exists x, taintStr = "intent=" ++ x ++ ":NoSchedule" /\ x <> "" /\
             hasColon x = false /\ formatTaintShort taintStr = x) /\
  formatTaintShort (formatTaintShort taintStr) = formatTaintShort taintStr.
Proof.
  split; [|split].
  - intros x Hne Hc. unfold formatTaintShort. now rewrite matchIntent_sound.
  - unfold formatTaintShort.
    destruct (matchIntentNoSchedule taintStr) as [g|] eqn:E; [right|now left].
    destruct (matchIntent_complete _ _ E) as (H1 & H2 & H3). exists g. auto.
  - unfold formatTaintShort.
    destruct (matchIntentNoSchedule taintStr) as [g|] eqn:E; [|now rewrite E].
    destruct (matchIntent_complete _ _ E) as (_ & _ & Hc).
    now rewrite (matchIntent_noColon g Hc).
Qed.

Lemma format_taint_short_rule_witness :
  formatTaintShort "intent=batch:NoSchedule" = "batch" /\
  formatTaintShort "dedicated=gpu:NoSchedule" = "dedicated=gpu:NoSchedule".
Proof.
  split; [|reflexivity].
  apply (proj1 (format_taint_short_rule "") "batch"); [discriminate|reflexivity].
Defined.

(** ** Expanding and collapsing rows *)

Lemma JsSet_has_delete s x y :
  JsSet.has (JsSet_delete s x) y = JsSet.has s y && negb (String.eqb y x).
Proof.
  unfold JsSet.has, JsSet_delete.
  induction s as [|a s IH]; [reflexivity|].
  cbn [filter existsb].
  destruct (String.eqb a x) eqn:Eax; cbn [negb existsb]; rewrite IH.
  - apply String.eqb_eq in Eax. subst a.
    destruct (String.eqb y x); cbn [negb orb andb]; [|reflexivity].
    now rewrite andb_false_r.
  - destruct (String.eqb y a) eqn:Eya; cbn [orb]; [|reflexivity].
    apply String.eqb_eq in Eya. subst y. now rewrite Eax.
Qed.

Lemma JsSet_has_add s x y :
  JsSet.has (JsSet.add s x) y = JsSet.has s y || String.eqb y x.
Proof.
  unfold JsSet.add. destruct (JsSet.has s x) eqn:E.
  - destruct (String.eqb_spec y x) as [->|]; [now rewrite E|now rewrite orb_false_r].
  - unfold JsSet.has. rewrite existsb_app. cbn [existsb]. now rewrite orb_false_r.
Qed.

(** X21. Clicking a row toggles it and nothing else: after the click
    the clicked key is expanded exactly when it was not before, every
    other key is as it was, and a second click on the same key restores
    every key's state. *)
Theorem toggle_expanded_flips_one_key (expanded : JsSet.t) (key other : string) :
  JsSet.has (toggleExpanded expanded key) key = negb (JsSet.has expanded key) /\
  (other <> key ->
   JsSet.has (toggleExpanded expanded key) other = JsSet.has expanded other) /\
  JsSet.has (toggleExpanded (toggleExpanded expanded key) key) other
    = JsSet.has expanded other.
Proof.
  assert (H1 : forall s, JsSet.has (toggleExpanded s key) key = negb (JsSet.has s key)).
  { intros s. unfold toggleExpanded. destruct (JsSet.has s key) eqn:E.
    - rewrite JsSet_has_delete, String.eqb_refl. apply andb_false_r.
    - rewrite JsSet_has_add, String.eqb_refl. apply orb_true_r. }
  assert (H2 : forall s, other <> key ->
             JsSet.has (toggleExpanded s key) other = JsSet.has s other).
  { intros s Hne. unfold toggleExpanded.
    destruct (String.eqb_spec other key) as [|_]; [contradiction|].
    destruct (JsSet.has s key).
    - rewrite JsSet_has_delete.
      destruct (String.eqb_spec other key); [contradiction|apply andb_true_r].
    - rewrite JsSet_has_add.
      destruct (String.eqb_spec other key); [contradiction|apply orb_false_r]. }
  split; [apply H1|]. split; [apply H2|].
  destruct (String.eqb_spec other key) as [->|Hne].
  - rewrite !H1. apply negb_involutive.
  - now rewrite !H2.
Qed.

Lemma toggle_expanded_witness :
  JsSet.has (toggleExpanded ["BackOff"] "FailedMount") "BackOff"
  = JsSet.has ["BackOff"] "BackOff".
Proof.
  apply (proj1 (proj2 (toggle_expanded_flips_one_key
                         ["BackOff"] "FailedMount" "BackOff"))).
  discriminate.
Defined.

(** ** Restart reasons of a pod *)

Lemma restartInfo_fold l : forall acc,
  ri_reasons (fold_left restartInfoStep l acc)
    = fold_left
        (keyedStep restartedAfterTermination lastReason (fun _ => 0)
                   (fun _ v => v + 1))
        l (ri_reasons acc) /\
  ri_total (fold_left restartInfoStep l acc)
    = ri_total acc + sumZ (map ContainerStatus.restartCount l).
Proof.
  induction l as [|st l IH]; intros acc; cbn [fold_left map].
  - cbn. split; [reflexivity|lia].
  - destruct (IH (restartInfoStep acc st)) as [H1 H2]. rewrite H1, H2.
    rewrite sumZ_cons. cbn [restartInfoStep ri_reasons ri_total].
    split; [|lia]. f_equal.
    unfold keyedStep, restartedAfterTermination, lastReason.
    destruct (lastTerminated st) as [t|];
      destruct (ContainerStatus.restartCount st >? 0); reflexivity.
Qed.

Lemma keyed_nothing_selected {X V : Type} (sel : X -> bool) (key : X -> string)
    (init : string -> V) (upd : X -> V -> V) xs :
  (forall x, In x xs -> sel x = false) ->
  forall m, fold_left (keyedStep sel key init upd) xs m = m.
Proof.
  induction xs as [|x xs IH]; intros H m; [reflexivity|].
  cbn [fold_left]. unfold keyedStep at 2. rewrite (H x (in_eq _ _)).
  apply IH. intros y Hy. apply H. now right.
Qed.

Lemma falsyOr_nonempty x d : d <> "" -> falsyOr x d <> "".
Proof.
  intros Hd. unfold falsyOr. destruct x as [v|]; [|exact Hd].
  destruct (String.eqb_spec v ""); assumption.
Qed.

Lemma add_ones {X : Type} (xs : list X) : forall v,
  applyUpdates (fun (_ : X) v => v + 1) xs v = v + lengthZ xs.
Proof.
  unfold applyUpdates.
  induction xs as [|x xs IH]; intros v; cbn [fold_left].
  - unfold lengthZ. cbn. lia.
  - rewrite IH, lengthZ_cons. lia.
Qed.

Lemma sum_nonneg_zero l :
  (forall x, In x l -> 0 <= x) -> sumZ l = 0 -> forall x, In x l -> x = 0.
Proof.
  induction l as [|a l IH]; intros Hpos Hsum x Hx; [destruct Hx|].
  rewrite sumZ_cons in Hsum.
  assert (0 <= sumZ l).
  { clear -Hpos. induction l as [|b l IHl]; [cbv; discriminate|].
    rewrite sumZ_cons.
    pose proof (Hpos b (or_intror (or_introl eq_refl))).
    assert (0 <= sumZ l); [|lia].
    apply IHl. intros y [<-|Hy]; apply Hpos; [now left|now right; right]. }
  pose proof (Hpos a (in_eq _ _)).
  destruct Hx as [<-|Hx]; [lia|].
  apply IH; auto; [|lia]. intros y Hy. apply Hpos. now right.
Qed.

Section PodDetailsFacts.
Variable getContainerStatuses : Pod.t -> list ContainerStatus.t.

(** X22. The restart figures of a pod row: the total is the sum of the
    containers' restart counts; a reason is listed exactly when some
    container restarted after a recorded termination with that reason
    ("Unknown" when the reason is missing or empty), its number being the
    number of such containers; no reason is empty or listed twice; and
    with restart counts that are not negative a pod with no restart lists
    no reason. *)
Theorem restart_info_counts (pod : Pod.t) :
  let statuses := getContainerStatuses pod in
  let info := getRestartInfo getContainerStatuses pod in
  ri_total info = sumZ (map ContainerStatus.restartCount statuses) /\
  (forall reason,
     JsMap.get (ri_reasons info) reason =
     match filter (fun st => restartedAfterTermination st
                             && String.eqb (lastReason st) reason) statuses with
     | [] => None
     | sts => Some (lengthZ sts)
     end) /\
  NoDup (JsMap.keys (ri_reasons info)) /\
  Forall (fun e => fst e <> "" /\ 1 <= snd e) (ri_reasons info) /\
  sumZ (JsMap.values (ri_reasons info))
    = countZ restartedAfterTermination statuses /\
  ((forall st, In st statuses -> 0 <= ContainerStatus.restartCount st) ->
   ri_total info = 0 -> ri_reasons info = []).
Proof.
  cbv zeta. unfold getRestartInfo.
  destruct (restartInfo_fold (getContainerStatuses pod)
              {| ri_reasons := JsMap.empty; ri_total := 0 |}) as [Hr Ht].
  rewrite Hr, Ht. cbn [ri_reasons ri_total].
  split; [lia|]. split; [|split; [|split; [|split]]].
  - intros reason. rewrite keyed_get.
    change (selectedFor restartedAfterTermination lastReason reason
              (getContainerStatuses pod))
      with (filter (fun st => restartedAfterTermination st
                              && String.eqb (lastReason st) reason)
                   (getContainerStatuses pod)).
    destruct (filter _ (getContainerStatuses pod)) as [|s0 ss]; [reflexivity|].
    rewrite add_ones. reflexivity.
  - apply keyed_NoDup. constructor.
  - eapply Forall_impl;
      [|apply (keyed_entries restartedAfterTermination lastReason (fun _ => 0)
                 (fun _ v => v + 1) (getContainerStatuses pod))].
    intros [k v]. cbn [fst snd]. intros [Hne Hv]. rewrite add_ones in Hv.
    destruct (selectedFor restartedAfterTermination lastReason k
                (getContainerStatuses pod)) as [|s0 ss] eqn:Es; [contradiction|].
    split.
    + assert (Hin : In s0 (selectedFor restartedAfterTermination lastReason k
                             (getContainerStatuses pod)))
        by (rewrite Es; now left).
      apply filter_In in Hin. destruct Hin as [_ Hsel].
      apply andb_true_iff in Hsel. destruct Hsel as [_ Hk].
      apply String.eqb_eq in Hk. subst k.
      unfold lastReason. destruct (lastTerminated s0); [|discriminate].
      apply falsyOr_nonempty. discriminate.
    + rewrite Hv, lengthZ_cons. pose proof (lengthZ_nonneg ss). lia.
  - rewrite <- (map_id (JsMap.values _)).
    rewrite (keyed_sum restartedAfterTermination lastReason (fun _ => 0)
               (fun _ v => v + 1) (fun v => v) (fun _ => 1));
      [|reflexivity|reflexivity].
    change (sumZ (map (fun v : Z => v) (JsMap.values JsMap.empty))) with 0.
    rewrite Z.add_0_l. unfold countZ.
    generalize (filter restartedAfterTermination (getContainerStatuses pod)).
    intros l. induction l as [|a l IH]; [reflexivity|].
    cbn [map]. rewrite sumZ_cons, lengthZ_cons, IH. reflexivity.
  - intros Hpos Hzero. apply keyed_nothing_selected.
    intros st Hin. unfold restartedAfterTermination.
    assert (ContainerStatus.restartCount st = 0).
    { apply (sum_nonneg_zero (map ContainerStatus.restartCount
                                  (getContainerStatuses pod))).
      - intros x Hx. apply in_map_iff in Hx. destruct Hx as (s' & <- & Hs').
        now apply Hpos.
      - lia.
      - now apply in_map. }
    rewrite H. reflexivity.
Qed.
End PodDetailsFacts.

(** ** Recent warning events *)

Section ArraySortOn.
Context {A : Type}.
Variable compareFn : A -> A -> Z.
Variable P : A -> Prop.
Variable R : A -> A -> Prop.
Hypothesis compare_le : forall x y, P x -> P y -> compareFn x y <= 0 -> R x y.
Hypothesis compare_gt : forall x y, P x -> P y -> compareFn x y > 0 -> R y x.
Hypothesis R_trans : forall x y z, R x y -> R y z -> R x z.

Lemma insertSorted_sorted_on x l :
  P x -> Forall P l -> StronglySorted R l ->
  StronglySorted R (insertSorted compareFn x l).
Proof.
  intros Px Pl Hs. induction Hs as [|y l Hs IH Hy]; simpl.
  - repeat constructor.
  - inversion Pl as [|? ? Py Pl']; subst.
    destruct (Z.leb_spec (compareFn x y) 0) as [Hle|Hgt].
    + constructor; [now constructor|].
      constructor; [now apply compare_le|].
      rewrite Forall_forall in *. intros z Hz.
      apply R_trans with y; auto.
    + constructor; auto.
      apply Forall_forall. intros z Hz.
      apply (Permutation_in _ (Permutation_sym (insertSorted_perm compareFn x l)))
        in Hz.
      destruct Hz as [<-|Hz].
      * apply compare_gt; auto. lia.
      * rewrite Forall_forall in Hy. auto.
Qed.

Lemma Array_sort_sorted_on l :
  Forall P l -> StronglySorted R (Array_sort compareFn l).
Proof.
  induction 1 as [|x l Px Pl IH]; simpl.
  - constructor.
  - apply insertSorted_sorted_on; auto. now apply Array_sort_Forall.
Qed.
End ArraySortOn.

Section RecentWarningsFacts.
Variable lastTimestamp : KubeEvent.t -> option string.
Variable Date_getTime : string -> option Z.


End RecentWarningsFacts.



(** ** Node issues *)

Section NodeIssuesFacts.
Variable conditionMessage : NodeCondition -> option string.

Lemma conditionIssues_fold conds : forall issues,
  let out := fold_left (conditionIssueStep conditionMessage) conds issues in
  (List.length issues <= List.length out <= List.length issues + List.length conds)%nat /\
  (out = [] <-> issues = [] /\ forall c, In c conds -> isActiveCondition c = false).
Proof.
  induction conds as [|c conds IH]; intros issues; cbn [fold_left].
  - cbv zeta. cbn [List.length]. split; [lia|]. split.
    + intros ->. split; [reflexivity|]. intros c [].
    + tauto.
  - specialize (IH (conditionIssueStep conditionMessage issues c)). cbv zeta in *.
    destruct IH as [Hlen Hnil]. unfold conditionIssueStep in *.
    destruct (isActiveCondition c) eqn:E.
    + rewrite length_app in Hlen. cbn [List.length] in *. split; [lia|].
      rewrite Hnil. split.
      * intros [H _]. destruct issues; discriminate H.
      * intros [_ H]. specialize (H c (or_introl eq_refl)). congruence.
    + cbn [List.length]. split; [lia|]. rewrite Hnil. split.
      * intros [H1 H2]. split; [exact H1|]. intros c' [<-|Hc']; auto.
      * intros [H1 H2]. split; [exact H1|]. intros c' Hc'. apply H2. now right.
Qed.

Lemma warningIssues_fold conds : forall issues,
  let out := fold_left (warningIssueStep conditionMessage) conds issues in
  (List.length issues <= List.length out <= List.length issues + List.length conds)%nat /\
  (out = [] <-> issues = [] /\ conds = []).
Proof.
  induction conds as [|c conds IH]; intros issues; cbn [fold_left].
  - cbv zeta. cbn [List.length]. split; [lia|]. tauto.
  - specialize (IH (warningIssueStep conditionMessage issues c)). cbv zeta in *.
    destruct IH as [Hlen Hnil]. split.
    + assert (Hnext : (List.length issues
                       <= List.length (warningIssueStep conditionMessage issues c)
                       <= List.length issues + 1)%nat).
      { unfold warningIssueStep. destruct (negb (existsb _ issues));
          rewrite ?length_app; cbn [List.length]; lia. }
      cbn [List.length]. lia.
    + rewrite Hnil. split; [|intros [_ H]; discriminate H].
      intros [H _]. exfalso. unfold warningIssueStep in H.
      destruct issues as [|i issues]; [cbn in H|].
      * discriminate H.
      * destruct (negb (existsb _ (i :: issues))); discriminate H.
Qed.

(** X24. A node has no issue line exactly when its status is Ready or
    Unknown, none of its conditions other than Ready has status "True",
    and the host reports no warning condition for it; there are never more
    lines than one plus the number of conditions and warning conditions.
    With "show only problems" a node is hidden exactly when it is Ready and
    has no issue line. *)
Theorem node_issues_empty_and_display (node : Node.t) (nodes : list Node.t) :
  (getNodeIssues conditionMessage node = [] <->
   (getNodeStatus node = Ready \/ getNodeStatus node = Unknown) /\
   (forall c, In c (Node.getConditions node) ->
      cond_type c = "Ready" \/ cond_status c <> "True") /\
   Node.getWarningConditions node = []) /\
  (List.length (getNodeIssues conditionMessage node)
   <= 1 + List.length (Node.getConditions node)
      + List.length (Node.getWarningConditions node))%nat /\
  (In node (displayedNodes conditionMessage true nodes) <->
   In node nodes /\
   ~ (getNodeStatus node = Ready /\ getNodeIssues conditionMessage node = [])) /\
  displayedNodes conditionMessage false nodes = nodes.
Proof.
  assert (Hactive : forall c,
            isActiveCondition c = false <->
            cond_type c = "Ready" \/ cond_status c <> "True").
  { intros c. unfold isActiveCondition.
    destruct (String.eqb_spec (cond_type c) "Ready");
      destruct (String.eqb_spec (cond_status c) "True"); cbn;
      intuition congruence. }
  split; [|split; [|split; [|reflexivity]]].
  - unfold getNodeIssues.
    set (start := match getNodeStatus node with
                  | SchedulingDisabled => _
                  | _ => _
                  end).
    destruct (warningIssues_fold (Node.getWarningConditions node)
                (fold_left (conditionIssueStep conditionMessage)
                           (Node.getConditions node) start)) as [_ Hw].
    destruct (conditionIssues_fold (Node.getConditions node) start) as [_ Hc].
    cbv zeta in *. rewrite Hw, Hc.
    assert (Hstart : start = [] <->
                     getNodeStatus node = Ready \/ getNodeStatus node = Unknown).
    { unfold start. destruct (getNodeStatus node); cbn;
        intuition (discriminate || auto). }
    rewrite Hstart. split.
    + intros [[Hs Hall] Hwc]. repeat split; auto.
      intros c Hin. apply Hactive. auto.
    + intros (Hs & Hall & Hwc). repeat split; auto.
      intros c Hin. apply Hactive. auto.
  - unfold getNodeIssues.
    set (start := match getNodeStatus node with
                  | SchedulingDisabled => _
                  | _ => _
                  end).
    destruct (warningIssues_fold (Node.getWarningConditions node)
                (fold_left (conditionIssueStep conditionMessage)
                           (Node.getConditions node) start)) as [Hw _].
    destruct (conditionIssues_fold (Node.getConditions node) start) as [Hc _].
    cbv zeta in *.
    assert (List.length start <= 1)%nat
      by (unfold start; destruct (getNodeStatus node); cbn; lia).
    lia.
  - unfold displayedNodes. cbn [negb]. rewrite filter_In.
    unfold isProblemNode, statusIs.
    destruct (getNodeIssues conditionMessage node) as [|i rest] eqn:Ei;
      destruct (getNodeStatus node); cbn;
      intuition (discriminate || congruence).
Qed.
End NodeIssuesFacts.

(** ** Pod details *)

Lemma containerIssues_length isJobPod l : forall issues,
  List.length (fold_left (containerIssueStep isJobPod) l issues)
  = (List.length issues + List.length (filter (isFlaggedContainer isJobPod) l))%nat.
Proof.
  induction l as [|st l IH]; intros issues; cbn [fold_left filter].
  - cbn [List.length]. lia.
  - rewrite IH. unfold containerIssueStep, isFlaggedContainer.
    destruct (stateWaiting st) as [w|].
    + rewrite length_app. cbn [List.length]. lia.
    + destruct (stateTerminated st) as [t|].
      * destruct (st_exitCode t =? 0); cbn [negb orb andb].
        -- rewrite andb_true_r.
           destruct isJobPod; rewrite ?length_app; cbn [List.length]; lia.
        -- rewrite length_app. cbn [List.length]. lia.
      * destruct (negb (ContainerStatus.ready st) && stateRunning st);
          rewrite ?length_app; cbn [List.length]; lia.
Qed.

Lemma podConditionIssues_length l : forall issues,
  List.length (fold_left podConditionIssueStep l issues)
  = (List.length issues + List.length (filter isFlaggedCondition l))%nat.
Proof.
  induction l as [|c l IH]; intros issues; cbn [fold_left filter].
  - cbn [List.length]. lia.
  - rewrite IH. unfold podConditionIssueStep.
    destruct (isFlaggedCondition c); rewrite ?length_app; cbn [List.length]; lia.
Qed.

Section PodIssueDetailsFacts.
Variable getContainerStatuses : Pod.t -> list ContainerStatus.t.
Variable getPodConditions : Pod.t -> list PodCondition.
Variable getOwnerRefs : Pod.t -> option (list OwnerReference).

Lemma issueDetails_length pod :
  List.length (getIssueDetails getContainerStatuses getPodConditions getOwnerRefs pod)
  = (List.length (filter (isFlaggedContainer (isJobPodOf getOwnerRefs pod))
                         (getContainerStatuses pod))
     + List.length (filter isFlaggedCondition (getPodConditions pod)))%nat.
Proof.
  unfold getIssueDetails.
  rewrite podConditionIssues_length, containerIssues_length. reflexivity.
Qed.

End PodIssueDetailsFacts.

Lemma podStats_row_total pods w row :
  In row (buildNamespacePodStats pods w) ->
  total row = lengthZ (podsIn (namespace row) pods).
Proof.
  intros Hin.
  assert (Hnd : NoDup (map namespace (buildNamespacePodStats pods w))).
  { eapply Permutation_NoDup; [symmetry; apply podStats_namespaces|].
    rewrite podStats_fold. apply keyed_NoDup. constructor. }
  pose proof (find_by_key namespace _ _ Hnd Hin) as Hfind.
  rewrite namespace_entry in Hfind.
  destruct (podsIn (namespace row) pods) as [|p ps]; [discriminate|].
  injection Hfind as <-. reflexivity.
Qed.



(** ** Ages *)

Section AgesFacts.
Variable Date_getTime : string -> option Z.

(** X27. The age shown for an event is in whole minutes while it is
    less than an hour old (also for a timestamp in the future, where it is
    negative), in whole hours below a day, and in whole days from then on;
    the events page shows the same text followed by " ago". A missing or
    empty timestamp gives "unknown" on both pages. *)
Theorem format_age_units (now : Z) (timestamp : option string) :
  (truthy timestamp = None ->
   formatAge Date_getTime now timestamp = "unknown" /\
   formatAge_events Date_getTime now timestamp = "unknown") /\
  (forall t time,
     truthy timestamp = Some t -> Date_getTime t = Some time ->
     (now - time < 3600000 ->
      formatAge Date_getTime now timestamp
        = showZ ((now - time) / 60000) ++ "m") /\
     (3600000 <= now - time < 86400000 ->
      formatAge Date_getTime now timestamp
        = showZ ((now - time) / 3600000) ++ "h") /\
     (86400000 <= now - time ->
      formatAge Date_getTime now timestamp
        = showZ ((now - time) / 86400000) ++ "d") /\
     formatAge_events Date_getTime now timestamp
       = formatAge Date_getTime now timestamp ++ " ago").
Proof.
  unfold formatAge, formatAge_events, ageText. split.
  - intros ->. split; reflexivity.
  - intros t time -> ->. set (d := now - time).
    pose proof (Z.div_mod d 60000 ltac:(lia)) as M1.
    pose proof (Z.mod_pos_bound d 60000 ltac:(lia)) as M2.
    pose proof (Z.div_mod d 3600000 ltac:(lia)) as H1.
    pose proof (Z.mod_pos_bound d 3600000 ltac:(lia)) as H2.
    assert (Happ : forall a b, (a ++ b ++ "")%string = (a ++ b)%string).
    { intros a b. induction a as [|c a IH]; cbn.
      - induction b as [|c b IHb]; cbn; [reflexivity|now f_equal].
      - now f_equal. }
    assert (Hassoc : forall a b c, (a ++ b ++ c)%string = ((a ++ b) ++ c)%string).
    { intros a b c. induction a as [|x a IH]; cbn; [reflexivity|now f_equal]. }
    repeat split.
    + intros Hd. destruct (Z.ltb_spec (d / 60000) 60); [apply Happ|lia].
    + intros Hd. destruct (Z.ltb_spec (d / 60000) 60); [lia|].
      destruct (Z.ltb_spec (d / 3600000) 24); [apply Happ|lia].
    + intros Hd. destruct (Z.ltb_spec (d / 60000) 60); [lia|].
      destruct (Z.ltb_spec (d / 3600000) 24); [lia|apply Happ].
    + destruct (d / 60000 <? 60); [|destruct (d / 3600000 <? 24)];
        rewrite Happ; apply Hassoc.
Qed.
End AgesFacts.

Lemma format_age_units_witness :
  formatAge (fun _ => Some 0) 5400000 (Some "t") = "1h" /\
  formatAge_events (fun _ => Some 0) 5400000 (Some "t") = "1h ago".
Proof.
  destruct (proj2 (format_age_units (fun _ => Some 0) 5400000 (Some "t"))
              "t" 0 eq_refl eq_refl) as (_ & Hh & _ & He).
  split.
  - rewrite Hh; [reflexivity|lia].
  - rewrite He, Hh; [reflexivity|lia].
Defined.

(** ** Worked inputs for the pages' extras *)

Lemma time_filter_widens_witness :
  filteredEvents (fun _ => Some "t") (fun _ => None) (fun _ => Some 0) 7200000
                 last1h false [mkWarning "BackOff" 1 "a" "p1"]
  = filter (keptByFilter (fun _ => Some "t") (fun _ => None) (fun _ => Some 0)
                         7200000 last1h false)
           (filteredEvents (fun _ => Some "t") (fun _ => None) (fun _ => Some 0)
                           7200000 last6h false [mkWarning "BackOff" 1 "a" "p1"]).
Proof.
  apply (proj1 (proj2 (time_filter_widens
                         (fun _ => Some "t") (fun _ => None) (fun _ => Some 0)
                         7200000 last1h last6h false
                         [mkWarning "BackOff" 1 "a" "p1"]))).
  unfold timeFilterLe. cbn. discriminate.
Defined.

Lemma restart_info_counts_witness :
  ri_reasons (getRestartInfo (fun _ => [crashedContainer])
                             (mkPod "a" "Succeeded" false 0)) = [].
Proof.
  apply (restart_info_counts (fun _ => [crashedContainer])
           (mkPod "a" "Succeeded" false 0)).
  - intros st [<-|[]]. cbn. discriminate.
  - reflexivity.
Defined.

